(** * Accessible components: Accordion and Toggle over a small DOM model

    The widgets of [src/classes/Accordion.ts] and [src/classes/Toggle.js]
    keep their whole state in the page: ARIA attributes, inline styles,
    event listeners, keyboard focus.  This development embeds the page as
    an explicit store, the widget instances as records in a heap that the
    store carries (the instance registry and the listeners alias them),
    and every method as a function on that store. *)

From Stdlib Require Import ZArith Lia Ascii.
From stdpp Require Import base option list strings gmap pretty.

Open Scope string_scope.
Open Scope list_scope.

(** ** Outcome of a method call

    A JavaScript method returns, throws, or loops.  [TypeError] is a
    property access on [null] or [undefined]; [Diverged] is a [while]
    loop of the model that ran out of its fuel. *)

Inductive result (A : Type) : Type :=
| Ok (a : A)
| TypeError (msg : string)
| Diverged.

Arguments Ok {A} a.
Arguments TypeError {A} msg.
Arguments Diverged {A}.

#[export] Instance result_ret : MRet result := λ A a, Ok a.

#[export] Instance result_bind : MBind result := λ A B k m,
  match m with
  | Ok a => k a
  | TypeError msg => TypeError msg
  | Diverged => Diverged
  end.

(** The value a call returned, if it returned. *)
Definition returned {A : Type} (m : result A) : option A :=
  match m with
  | Ok a => Some a
  | _ => None
  end.

(** ** JavaScript values used by the widgets *)

Module Js.

(** Truthiness of a string-or-null value: [null] and the empty string
    are falsy. *)
Definition truthy (v : option string) : bool :=
  match v with
  | Some s => negb (s =? "")
  | None => false
  end.

Definition is_digit (c : ascii) : bool :=
  (48 <=? nat_of_ascii c)%nat && (nat_of_ascii c <=? 57)%nat.

(** [pattern.test(s)] for [pattern = /\d+/g] on a fresh pattern. *)
Fixpoint test_digits (s : string) : bool :=
  match s with
  | EmptyString => false
  | String c s' => is_digit c || test_digits s'
  end.

Fixpoint take_digits (s : string) : string :=
  match s with
  | EmptyString => EmptyString
  | String c s' => if is_digit c then String c (take_digits s') else EmptyString
  end.

(** [s.match(/\d+/g)?.[0]]: the first maximal run of digits. *)
Fixpoint match_digits (s : string) : option string :=
  match s with
  | EmptyString => None
  | String c s' =>
      if is_digit c then Some (String c (take_digits s')) else match_digits s'
  end.

Fixpoint parseInt_acc (acc : Z) (s : string) : Z :=
  match s with
  | EmptyString => acc
  | String c s' =>
      if is_digit c
      then parseInt_acc (10 * acc + Z.of_nat (nat_of_ascii c - 48)) s'
      else acc
  end.

(** [parseInt] on a run of digits. *)
Definition parseInt (s : string) : Z := parseInt_acc 0 s.

(** [hay.includes(needle)]. *)
Fixpoint includes (needle hay : string) : bool :=
  String.prefix needle hay ||
  match hay with
  | EmptyString => false
  | String _ hay' => includes needle hay'
  end.

(** [s.substring(1)]. *)
Definition substring1 (s : string) : string :=
  match s with
  | EmptyString => EmptyString
  | String _ s' => s'
  end.

End Js.

(** ** The page *)

Module Dom.

(** An element is named by its position in document order; a widget
    instance by its address in the heap. *)
Abbreviation Node := nat.
Abbreviation Ref := nat.

(** Identity of a function object handed to [addEventListener].  Two
    registrations are the same listener only when they are the same
    function object. *)
Inductive Listener : Type :=
| PrototypeMethod (name : string)      (* [this._m]: the method of the class, not bound *)
| BoundMethod (this : Ref) (name : string) (* [this.m = this._m.bind(this)] of the constructor *)
| UserFunction (name : string)         (* a function supplied in the options *)
| Closure (site : string) (serial : nat). (* a function created where it is registered *)

#[export] Instance Listener_eq_dec : EqDecision Listener.
Proof. solve_decision. Defined.

Record Element : Type := mkElement {
  attrs : gmap string string;        (* the attributes other than [style] *)
  style_display : option string;     (* [style.display], which the [style] attribute
                                        holds; [None] without inline style *)
  css_display : string;              (* what the style sheets give without inline style *)
  classList : list string;
  listeners : list (string * Listener)
}.

Definition with_attrs (f : gmap string string → gmap string string) (e : Element) : Element :=
  mkElement (f (attrs e)) (style_display e) (css_display e) (classList e) (listeners e).

Definition with_style (d : option string) (e : Element) : Element :=
  mkElement (attrs e) d (css_display e) (classList e) (listeners e).

Definition with_listeners
    (f : list (string * Listener) → list (string * Listener)) (e : Element) : Element :=
  mkElement (attrs e) (style_display e) (css_display e) (classList e) (f (listeners e)).

(** [addEventListener] ignores a listener that is already registered
    for the type; [removeEventListener] removes the one it is given. *)
Definition add_listener (type : string) (l : Listener)
    (ls : list (string * Listener)) : list (string * Listener) :=
  if decide ((type, l) ∈ ls) then ls else ls ++ [(type, l)].

Definition remove_listener (type : string) (l : Listener)
    (ls : list (string * Listener)) : list (string * Listener) :=
  filter (λ x, x ≠ (type, l)) ls.

(** [window.getComputedStyle(e).display] *)
Definition computed_display (e : Element) : string :=
  default (css_display e) (style_display e).

(** A [MediaQueryList]: its text and whether it matches, which the browser
    decides from the width of the viewport. *)
Record MediaQueryList : Type := mkMediaQueryList {
  media : string;
  matches : Z → bool
}.

(** Callbacks of the options and calls to the animation and scroll-lock
    ports, in the order they happen.

    Modelled from the spec: [DOMAnimations] is not among the sources.  It
    is an external port that shows or hides an element over time and
    calls back when it is done, so a call to [slideDown] or [slideUp] is
    recorded here and changes nothing in the page at once.  The callbacks
    of the options are functions of the caller: a call is recorded, and
    what the function does is its own business. *)
Inductive Effect : Type :=
| CallOnInit (f : string) (el : Node)
| CallOnReachBreakpoint (f : string) (matches : bool)
| CallOnOpen (f : string) (panel : Node)
| CallOnClose (f : string) (panel : Node)
| SlideDown (n : Node)
| SlideUp (n : Node)
| CallOnClick (f : string)
| DisableBodyScroll (n : Node)
| EnableBodyScroll (n : Node).

#[export] Instance Effect_eq_dec : EqDecision Effect.
Proof. solve_decision. Defined.

(** The store.  [I] is the type of the widget instances of one family.
    [select root selector] is [root.querySelectorAll(selector)] for the
    selectors that only look at the tree and the classes, and
    [parentNode] is the tree itself; no widget changes either. *)
Record World (I : Type) : Type := mkWorld {
  nodes : list Element;
  select : Node → string → list Node;
  parentNode : Node → option Node;
  activeElement : option Node;
  documentListeners : list (string * Listener);
  windowListeners : list (string * Listener);
  innerWidth : Z;
  clock : Z;
  timers : list (Z * Ref);
  heap : gmap Ref I;
  registry : gmap Node Ref;
  log : list Effect
}.

Arguments mkWorld {I}.
Arguments nodes {I}.
Arguments select {I}.
Arguments parentNode {I}.
Arguments activeElement {I}.
Arguments documentListeners {I}.
Arguments windowListeners {I}.
Arguments innerWidth {I}.
Arguments clock {I}.
Arguments timers {I}.
Arguments heap {I}.
Arguments registry {I}.
Arguments log {I}.

Section Store.
Context {I : Type}.
Implicit Types (w : World I) (n : Node) (e : Element).

Definition with_nodes (f : list Element → list Element) w : World I :=
  mkWorld (f (nodes w)) (select w) (parentNode w) (activeElement w) (documentListeners w)
    (windowListeners w) (innerWidth w) (clock w) (timers w) (heap w)
    (registry w) (log w).

Definition with_activeElement (a : option Node) w : World I :=
  mkWorld (nodes w) (select w) (parentNode w) a (documentListeners w)
    (windowListeners w) (innerWidth w) (clock w) (timers w) (heap w)
    (registry w) (log w).

Definition with_documentListeners
    (f : list (string * Listener) → list (string * Listener)) w : World I :=
  mkWorld (nodes w) (select w) (parentNode w) (activeElement w) (f (documentListeners w))
    (windowListeners w) (innerWidth w) (clock w) (timers w) (heap w)
    (registry w) (log w).

Definition with_windowListeners
    (f : list (string * Listener) → list (string * Listener)) w : World I :=
  mkWorld (nodes w) (select w) (parentNode w) (activeElement w) (documentListeners w)
    (f (windowListeners w)) (innerWidth w) (clock w) (timers w) (heap w)
    (registry w) (log w).

Definition with_innerWidth (x : Z) w : World I :=
  mkWorld (nodes w) (select w) (parentNode w) (activeElement w) (documentListeners w)
    (windowListeners w) x (clock w) (timers w) (heap w)
    (registry w) (log w).

Definition with_clock (t : Z) w : World I :=
  mkWorld (nodes w) (select w) (parentNode w) (activeElement w) (documentListeners w)
    (windowListeners w) (innerWidth w) t (timers w) (heap w)
    (registry w) (log w).

Definition with_timers (f : list (Z * Ref) → list (Z * Ref)) w : World I :=
  mkWorld (nodes w) (select w) (parentNode w) (activeElement w) (documentListeners w)
    (windowListeners w) (innerWidth w) (clock w) (f (timers w)) (heap w)
    (registry w) (log w).

Definition with_heap (f : gmap Ref I → gmap Ref I) w : World I :=
  mkWorld (nodes w) (select w) (parentNode w) (activeElement w) (documentListeners w)
    (windowListeners w) (innerWidth w) (clock w) (timers w) (f (heap w))
    (registry w) (log w).

Definition with_registry (f : gmap Node Ref → gmap Node Ref) w : World I :=
  mkWorld (nodes w) (select w) (parentNode w) (activeElement w) (documentListeners w)
    (windowListeners w) (innerWidth w) (clock w) (timers w) (heap w)
    (f (registry w)) (log w).

Definition emit (x : Effect) w : World I :=
  mkWorld (nodes w) (select w) (parentNode w) (activeElement w) (documentListeners w)
    (windowListeners w) (innerWidth w) (clock w) (timers w) (heap w)
    (registry w) (log w ++ [x]).

(** Attribute access on the element [n] of the page. *)
Definition getAttribute n (name : string) w : option string :=
  e ← nodes w !! n; attrs e !! name.

Definition hasAttribute n (name : string) w : bool :=
  bool_decide (is_Some (getAttribute n name w)).

Definition setAttribute n (name value : string) w : World I :=
  with_nodes (alter (with_attrs (insert name value)) n) w.

Definition removeAttribute n (name : string) w : World I :=
  with_nodes (alter (with_attrs (delete name)) n) w.

(** [removeAttribute('style')] *)
Definition removeStyle n w : World I :=
  with_nodes (alter (with_style None) n) w.

(** [n.style.display = d] *)
Definition setDisplay n (d : string) w : World I :=
  with_nodes (alter (with_style (Some d)) n) w.

Definition getComputedDisplay n w : option string :=
  computed_display <$> nodes w !! n.

(** The [id] property: the attribute, or the empty string. *)
Definition idOf n w : string := default "" (getAttribute n "id" w).

Definition addEventListener n (type : string) (l : Listener) w : World I :=
  with_nodes (alter (with_listeners (add_listener type l)) n) w.

Definition removeEventListener n (type : string) (l : Listener) w : World I :=
  with_nodes (alter (with_listeners (remove_listener type l)) n) w.

Definition has_id (s : string) e : Prop := attrs e !! "id" = Some s.

#[export] Instance has_id_dec s e : Decision (has_id s e).
Proof. unfold has_id. apply _. Defined.

(** [document.getElementById(s)]: the first element in document order
    with that id; the empty string is the id of no element. *)
Definition getElementById (s : string) w : option Node :=
  if decide (s = "") then None else fst <$> list_find (has_id s) (nodes w).

(** [activeElement.classList.contains(c)] *)
Definition classList_contains n (c : string) w : bool :=
  match nodes w !! n with
  | Some e => bool_decide (c ∈ classList e)
  | None => false
  end.

End Store.

End Dom.


(** ** The instance registry (AbstractDomElement) *)

Module AbstractDomElement.
Import Dom.

Section Registry.
Context {I : Type}.
Implicit Types (w : World I) (element : Node).

(** Modelled from the spec: [AbstractDomElement.getInstance] is not among
    the sources.  It is a pure lookup of the instance registered for the
    node, absent when there is none. *)
Definition getInstance element w : option Ref := registry w !! element.

(** Modelled from the spec: [AbstractDomElement.destroy] is not among the
    sources.  It removes the registry entry of the node; destroying a node
    that has none changes nothing. *)
Definition destroy element w : World I := with_registry (delete element) w.

(** Modelled from the spec: the constructor of [AbstractDomElement] is not
    among the sources.  It resolves to the instance already registered for
    the node, ignoring the options of this call; otherwise it allocates a
    new object [make r] (which carries the node and the options merged
    over the defaults of the family), registers it for the node and
    returns it.  The boolean is what [isNewInstance()] answers. *)
Definition construct element (make : Ref → I) w : Ref * bool * World I :=
  match getInstance element w with
  | Some r => (r, false, w)
  | None =>
      let r := fresh (dom (heap w)) in
      (r, true, with_registry (insert element r) (with_heap (insert r (make r)) w))
  end.

End Registry.

End AbstractDomElement.

(** ** Accordion ([src/classes/Accordion.ts]) *)

Module Accordion.
Import Dom.

Record AccordionOptions : Type := mkAccordionOptions {
  allowMultiple : bool;
  closedDefault : bool;
  forceExpand : bool;
  hasAnimation : bool;
  mediaQuery : option MediaQueryList;
  onInit : option string;
  onReachBreakpoint : option string;
  onOpen : option string;
  onClose : option string;
  panelSelector : string;
  prefixId : string;
  triggerSelector : string
}.

(** [Partial<AccordionOptions>]: [None] is a property the caller left out. *)
Record PartialOptions : Type := mkPartialOptions {
  allowMultiple_ : option bool;
  closedDefault_ : option bool;
  forceExpand_ : option bool;
  hasAnimation_ : option bool;
  mediaQuery_ : option (option MediaQueryList);
  onInit_ : option (option string);
  onReachBreakpoint_ : option (option string);
  onOpen_ : option (option string);
  onClose_ : option (option string);
  panelSelector_ : option string;
  prefixId_ : option string;
  triggerSelector_ : option string
}.

Definition noOptions : PartialOptions :=
  mkPartialOptions None None None None None None None None None None None None.

(** [Accordion.defaults]; the three callbacks it lists are [() => {}]. *)
Definition defaults : AccordionOptions := {|
  allowMultiple := false;
  closedDefault := false;
  forceExpand := true;
  hasAnimation := false;
  mediaQuery := None;
  onInit := None;
  onReachBreakpoint := Some "() => {}";
  onOpen := Some "() => {}";
  onClose := Some "() => {}";
  panelSelector := ".accordion__panel";
  prefixId := "accordion";
  triggerSelector := ".accordion__trigger"
|}.

(** [{ ...Accordion.defaults, ...options }] *)
Definition mergeOptions (d : AccordionOptions) (o : PartialOptions) : AccordionOptions := {|
  allowMultiple := default (allowMultiple d) (allowMultiple_ o);
  closedDefault := default (closedDefault d) (closedDefault_ o);
  forceExpand := default (forceExpand d) (forceExpand_ o);
  hasAnimation := default (hasAnimation d) (hasAnimation_ o);
  mediaQuery := default (mediaQuery d) (mediaQuery_ o);
  onInit := default (onInit d) (onInit_ o);
  onReachBreakpoint := default (onReachBreakpoint d) (onReachBreakpoint_ o);
  onOpen := default (onOpen d) (onOpen_ o);
  onClose := default (onClose d) (onClose_ o);
  panelSelector := default (panelSelector d) (panelSelector_ o);
  prefixId := default (prefixId d) (prefixId_ o);
  triggerSelector := default (triggerSelector d) (triggerSelector_ o)
|}.

Definition with_forceExpand (b : bool) (o : AccordionOptions) : AccordionOptions :=
  mkAccordionOptions (allowMultiple o) (closedDefault o) b (hasAnimation o)
    (mediaQuery o) (onInit o) (onReachBreakpoint o) (onOpen o) (onClose o)
    (panelSelector o) (prefixId o) (triggerSelector o).

Inductive Reach : Type := above | below.

#[export] Instance Reach_eq_dec : EqDecision Reach.
Proof. solve_decision. Defined.

(** The fields of an instance.  [hasReachBreakpoint] is [None] until
    [init] assigns it: the constructor leaves it undefined. *)
Record Widget : Type := mkWidget {
  element : Node;
  options : AccordionOptions;
  active : bool;
  activePanel : option Node;
  focus : bool;
  hasReachBreakpoint : option Reach
}.

Definition with_options (f : AccordionOptions → AccordionOptions) (a : Widget) : Widget :=
  mkWidget (element a) (f (options a)) (active a) (activePanel a) (focus a)
    (hasReachBreakpoint a).

Definition with_active (b : bool) (a : Widget) : Widget :=
  mkWidget (element a) (options a) b (activePanel a) (focus a) (hasReachBreakpoint a).

Definition with_activePanel (p : option Node) (a : Widget) : Widget :=
  mkWidget (element a) (options a) (active a) p (focus a) (hasReachBreakpoint a).

Definition with_focus (b : bool) (a : Widget) : Widget :=
  mkWidget (element a) (options a) (active a) (activePanel a) b (hasReachBreakpoint a).

Definition with_hasReachBreakpoint (r : option Reach) (a : Widget) : Widget :=
  mkWidget (element a) (options a) (active a) (activePanel a) (focus a) r.

Abbreviation Page := (World Widget).

(** The selector of the focusable elements; the quotes around [-1] are
    left out here. *)
Definition FOCUSABLE_ELEMENTS : string :=
  "button, [href], input, select, textarea, [tabindex]:not([tabindex=-1])".

(** Assignment to a field of [this]. *)
Definition update (this : Ref) (f : Widget → Widget) (w : Page) : Page :=
  with_heap (alter f this) w.

(** *** Focus

    [n.focus()] moves the keyboard focus to [n]; the browser delivers
    [blur] to the element that loses it and [focus] to [n], and the
    listeners the accordion put on its triggers record that in
    [this.focus].  Every element [focus()] is called on is taken to be
    one that can take the focus: the page has no notion of a disabled or
    unrendered element. *)

Definition _handleButtonBlur (this : Ref) (w : Page) : Page :=
  update this (with_focus false) w.

Definition _handleButtonFocus (this : Ref) (w : Page) : Page :=
  update this (with_focus true) w.

Definition run_focus_listener (type : string) (w : Page) (x : string * Listener) : Page :=
  match x with
  | (type', BoundMethod this name) =>
      if negb (type' =? type) then w
      else if name =? "handleButtonBlur" then _handleButtonBlur this w
      else if name =? "handleButtonFocus" then _handleButtonFocus this w
      else w
  | _ => w
  end.

Definition deliver (n : Node) (type : string) (w : Page) : Page :=
  match nodes w !! n with
  | Some e => foldl (run_focus_listener type) w (listeners e)
  | None => w
  end.

Definition focusNode (n : Node) (w : Page) : Page :=
  if decide (activeElement w = Some n) then w
  else
    let w := match activeElement w with
             | Some old => deliver old "blur" w
             | None => w
             end in
    deliver n "focus" (with_activeElement (Some n) w).

(** *** open, close, isClosed *)

Definition isClosed (panel : Node) (w : Page) : bool :=
  bool_decide (getComputedDisplay panel w = Some "none").

(** [open(panel)].  With [hasAnimation] and a hidden panel the work is
    handed to [DOMAnimations.slideDown], which shows the panel and focuses
    its first focusable element later, from its completion callback. *)
Definition open (this : Ref) (panel : Node) (w : Page) : Page :=
  match heap w !! this with
  | None => w
  | Some a =>
      let w := update this (with_activePanel (Some panel)) w in
      let firstFocusableElement := select w panel FOCUSABLE_ELEMENTS !! 0%nat in
      if hasAnimation (options a) && isClosed panel w
      then emit (SlideDown panel) w
      else
        let w := setDisplay panel "block" w in
        match firstFocusableElement with
        | Some f => focusNode f w
        | None => w
        end
  end.

(** [close(panel)] *)
Definition close (this : Ref) (panel : Node) (w : Page) : Page :=
  match heap w !! this with
  | None => w
  | Some a =>
      if hasAnimation (options a) then emit (SlideUp panel) w
      else setDisplay panel "none" w
  end.

Definition call (f : option string) (x : string → Effect) (w : Page) : Page :=
  match f with
  | Some name => emit (x name) w
  | None => w
  end.

(** *** _handleButtonClick *)

(** [el.querySelectorAll(`${triggerSelector}[aria-expanded="true"]`)] *)
Definition expandedTriggers (el : Node) (triggerSelector : string) (w : Page) : list Node :=
  filter (λ t, getAttribute t "aria-expanded" w = Some "true") (select w el triggerSelector).

(** The body of the [forEach] over the panels.  [trigger'] is the inner
    [const trigger = document.getElementById(panelAriaLabelledByAttr)],
    which hides the clicked trigger of the enclosing scope. *)
Definition collapseOther (this : Ref) (onClose : option string) (trigger' : option Node)
    (panelAriaLabelledByAttr : option string) (w : Page) (panel : Node) : Page :=
  match trigger' with
  | None => w
  | Some t' =>
      if bool_decide (Some (idOf panel w) ≠ getAttribute t' "aria-controls" w)
         && Js.truthy panelAriaLabelledByAttr
      then
        let w := setAttribute t' "aria-expanded" "false" w in
        if negb (isClosed panel w)
        then call onClose (λ f, CallOnClose f panel) (close this panel w)
        else w
      else w
  end.

Definition _handleButtonClick (this : Ref) (trigger : Node) (w : Page) : Page :=
  match heap w !! this with
  | None => w
  | Some a =>
      let el := element a in
      let o := options a in
      let triggerAriaControlsAttr := getAttribute trigger "aria-controls" w in
      if negb (Js.truthy triggerAriaControlsAttr) then w
      else
        match getElementById (default "" triggerAriaControlsAttr) w with
        | None => w
        | Some panel =>
            let panelAriaLabelledByAttr := getAttribute panel "aria-labelledby" w in
            if bool_decide (getAttribute trigger "aria-expanded" w = Some "true")
               && (negb (forceExpand o)
                   || (forceExpand o && allowMultiple o
                       && (1 <? length (expandedTriggers el (triggerSelector o) w))%nat))
            then
              let w := setAttribute trigger "aria-expanded" "false" w in
              let w := close this panel w in
              call (onClose o) (λ f, CallOnClose f panel) w
            else
              let w :=
                if negb (allowMultiple o) && Js.truthy panelAriaLabelledByAttr
                then
                  let trigger' := getElementById (default "" panelAriaLabelledByAttr) w in
                  foldl (collapseOther this (onClose o) trigger' panelAriaLabelledByAttr)
                    w (select w el (panelSelector o))
                else w in
              let w := setAttribute trigger "aria-expanded" "true" w in
              let w := open this panel w in
              call (onOpen o) (λ f, CallOnOpen f panel) w
        end
  end.

(** *** init *)

(** [while (document.getElementById(candidate i)) i++], with fuel. *)
Fixpoint probe (fuel : nat) (candidate : nat → string) (i : nat) (w : Page) : option nat :=
  match fuel with
  | O => None
  | S fuel' =>
      match getElementById (candidate i) w with
      | Some _ => probe fuel' candidate (S i) w
      | None => Some i
      end
  end.

(** One more round than the page has elements is always enough. *)
Definition probe_fuel (w : Page) : nat := S (length (nodes w)).

Definition triggerId (prefixId id : string) (i : nat) : string :=
  prefixId +:+ "-" +:+ id +:+ "-" +:+ pretty i.

Definition panelId (prefixId id : string) (i : nat) : string :=
  prefixId +:+ "-" +:+ id +:+ "-panel-" +:+ pretty i.

(** The first [for ... of]: it ends with [index++]. *)
Fixpoint init_triggers (this : Ref) (prefixId id : string)
    (triggers : list Node) (index : nat) (w : Page) : result (nat * Page) :=
  match triggers with
  | [] => Ok (index, w)
  | trigger :: rest =>
      match probe (probe_fuel w) (triggerId prefixId id) (index + 1) w with
      | None => Diverged
      | Some i =>
          let w := setAttribute trigger "id" (triggerId prefixId id i) w in
          let w := setAttribute trigger "aria-controls" (panelId prefixId id i) w in
          let w := setAttribute trigger "aria-expanded"
                     (if decide (index = 0%nat) then "true" else "false") w in
          let w := addEventListener trigger "click" (BoundMethod this "handleButtonClick") w in
          let w := addEventListener trigger "focus" (BoundMethod this "handleButtonFocus") w in
          let w := addEventListener trigger "blur" (BoundMethod this "handleButtonBlur") w in
          init_triggers this prefixId id rest (index + 1) w
      end
  end.

(** The second [for ... of]: its body reads [index] and never changes it,
    so every round runs with the [index] the loop started with. *)
Fixpoint init_panels (this : Ref) (prefixId id : string) (closedDefault : bool)
    (triggers panels : list Node) (index : nat) (w : Page) : result (nat * Page) :=
  match panels with
  | [] => Ok (index, w)
  | panel :: rest =>
      match probe (probe_fuel w) (panelId prefixId id) (index + 1) w with
      | None => Diverged
      | Some i =>
          let w := setAttribute panel "id" (panelId prefixId id i) w in
          let w := setAttribute panel "aria-labelledby" (triggerId prefixId id i) w in
          let w := if decide (index ≠ 0%nat) then setDisplay panel "none" w else w in
          w ← (if closedDefault
               then match triggers !! index with
                    | Some t => Ok (close this panel (setAttribute t "aria-expanded" "false" w))
                    | None => TypeError "triggers[index] is undefined"
                    end
               else Ok w);
          init_panels this prefixId id closedDefault triggers rest index w
      end
  end.

(** The value [init] gives [hasReachBreakpoint]; [None] leaves the field
    as it is. *)
Definition reachAtInit (mediaQuery : option MediaQueryList) (innerWidth : Z) : option Reach :=
  match mediaQuery with
  | Some mq =>
      if Js.test_digits (media mq) then
        let r1 :=
          if Js.includes "min" (media mq) then
            let minWidth := Js.match_digits (media mq) in
            if Js.truthy minWidth
            then Some (if (Js.parseInt (default "" minWidth) <? innerWidth)%Z then above else below)
            else None
          else None in
        let r2 :=
          if Js.includes "max" (media mq) then
            let maxWidth := Js.match_digits (media mq) in
            if Js.truthy maxWidth
            then Some (if (Js.parseInt (default "" maxWidth) <=? innerWidth)%Z then above else below)
            else None
          else None in
        match r2 with
        | Some r => Some r
        | None => r1
        end
      else None
  | None => None
  end.

(** [init()].  [randomId] is not among the sources: [id] is what it
    returns in this call, whatever that is. *)
Definition init (this : Ref) (id : string) (w : Page) : result Page :=
  match heap w !! this with
  | None => TypeError "this is undefined"
  | Some a =>
      let el := element a in
      let o := options a in
      let triggers := select w el (triggerSelector o) in
      let panels := select w el (panelSelector o) in
      let w := setAttribute el "data-id" id w in
      let w :=
        if bool_decide (is_Some (onInit o)) && negb (active a)
        then call (onInit o) (λ f, CallOnInit f el) (update this (with_active true) w)
        else w in
      let w := update this (with_active true) w in
      let w :=
        match reachAtInit (mediaQuery o) (innerWidth w) with
        | Some r => update this (with_hasReachBreakpoint (Some r)) w
        | None => w
        end in
      let w := if closedDefault o then update this (with_options (with_forceExpand false)) w
               else w in
      let w := with_documentListeners (add_listener "keydown" (PrototypeMethod "_handleKeydown")) w in
      '(_, w) ← init_triggers this (prefixId o) id triggers 0 w;
      '(_, w) ← init_panels this (prefixId o) id (closedDefault o) triggers panels 0 w;
      Ok w
  end.

(** *** destroy *)

Definition destroy_trigger (instance : Ref) (w : Page) (trigger : Node) : Page :=
  let w := removeAttribute trigger "id" w in
  let w := removeAttribute trigger "aria-controls" w in
  let w := removeAttribute trigger "aria-expanded" w in
  let w := removeEventListener trigger "click" (BoundMethod instance "handleButtonClick") w in
  let w := removeEventListener trigger "focus" (BoundMethod instance "handleButtonFocus") w in
  removeEventListener trigger "blur" (BoundMethod instance "handleButtonBlur") w.

Definition destroy_panel (w : Page) (panel : Node) : Page :=
  let w := removeAttribute panel "id" w in
  let w := removeAttribute panel "aria-labelledby" w in
  removeStyle panel w.

(** The static [Accordion.destroy(element)]. *)
Definition destroy (element' : Node) (w : Page) : Page :=
  let w :=
    match AbstractDomElement.getInstance element' w with
    | Some instance =>
        match heap w !! instance with
        | Some a =>
            let w := update instance (with_active false) w in
            let w := update instance (with_activePanel None) w in
            let triggers := select w (element a) (triggerSelector (options a)) in
            let panels := select w (element a) (panelSelector (options a)) in
            let w := foldl (destroy_trigger instance) w triggers in
            let w := foldl destroy_panel w panels in
            with_documentListeners
              (add_listener "keydown" (BoundMethod instance "handleKeydown")) w
        | None => w
        end
    | None => w
    end in
  AbstractDomElement.destroy element' w.

(** *** Keyboard *)

Record KeyboardEvent : Type := mkKeyboardEvent {
  code : string;
  defaultPrevented : bool
}.

Definition preventDefault (e : KeyboardEvent) : KeyboardEvent :=
  mkKeyboardEvent (code e) true.

(** [Array.prototype.indexOf.call(triggers, n)] *)
Definition indexOf (triggers : list Node) (n : Node) : Z :=
  match list_find (λ t, t = n) triggers with
  | Some (i, _) => Z.of_nat i
  | None => -1
  end.

(** [triggers[i]] for a number [i] *)
Definition item (triggers : list Node) (i : Z) : option Node :=
  if (i <? 0)%Z then None else triggers !! Z.to_nat i.

Definition focusItem (n : option Node) (w : Page) : Page :=
  match n with
  | Some n => focusNode n w
  | None => w
  end.

Definition _focusPreviousTab (this : Ref) (w : Page) : Page :=
  match heap w !! this with
  | None => w
  | Some a =>
      let triggerSelector := triggerSelector (options a) in
      let triggers := select w (element a) triggerSelector in
      let triggersCount := Z.of_nat (length triggers) in
      match activeElement w with
      | Some activeElement =>
          if classList_contains activeElement (Js.substring1 triggerSelector) w then
            let currentIndexOfActiveElement := indexOf triggers activeElement in
            focusItem
              (item triggers
                 (if (currentIndexOfActiveElement =? 0)%Z then triggersCount - 1
                  else currentIndexOfActiveElement - 1)%Z) w
          else w
      | None => w
      end
  end.

Definition _focusNextTab (this : Ref) (w : Page) : Page :=
  match heap w !! this with
  | None => w
  | Some a =>
      let triggerSelector := triggerSelector (options a) in
      let triggers := select w (element a) triggerSelector in
      let triggersCount := Z.of_nat (length triggers) in
      match activeElement w with
      | Some activeElement =>
          if classList_contains activeElement (Js.substring1 triggerSelector) w then
            let currentIndexOfActiveElement := indexOf triggers activeElement in
            focusItem
              (item triggers
                 (if (currentIndexOfActiveElement =? triggersCount - 1)%Z then 0
                  else currentIndexOfActiveElement + 1)%Z) w
          else w
      | None => w
      end
  end.

Definition _focusFirstTab (this : Ref) (w : Page) : Page :=
  match heap w !! this with
  | None => w
  | Some a =>
      focusItem (item (select w (element a) (triggerSelector (options a))) 0) w
  end.

Definition _focusLastTab (this : Ref) (w : Page) : Page :=
  match heap w !! this with
  | None => w
  | Some a =>
      let triggers := select w (element a) (triggerSelector (options a)) in
      let triggersCount := Z.of_nat (length triggers) in
      focusItem (item triggers (triggersCount - 1)) w
  end.

(** What [this] is when [_handleKeydown] runs.  A bound method runs on
    its instance.  The method taken from the class without [bind] and
    called by the browser as a listener runs on the target the listener
    was added to, the document. *)
Inductive Receiver : Type :=
| ThisDocument
| ThisInstance (r : Ref).

(** [_handleKeydown(e)].  A [Document] has no property [focus], so on the
    document [!this.focus] holds and the method returns at once. *)
Definition _handleKeydown (this : Receiver) (e : KeyboardEvent) (w : Page)
    : KeyboardEvent * Page :=
  match this with
  | ThisDocument => (e, w)
  | ThisInstance r =>
      match heap w !! r with
      | None => (e, w)
      | Some a =>
          if negb (focus a) then (e, w)
          else if code e =? "ArrowUp" then (preventDefault e, _focusPreviousTab r w)
          else if code e =? "ArrowDown" then (preventDefault e, _focusNextTab r w)
          else if code e =? "Home" then (preventDefault e, _focusFirstTab r w)
          else if code e =? "End" then (preventDefault e, _focusLastTab r w)
          else (e, w)
      end
  end.

Definition run_keydown_listener (s : KeyboardEvent * Page) (x : string * Listener)
    : KeyboardEvent * Page :=
  let '(e, w) := s in
  match x with
  | (type, PrototypeMethod name) =>
      if (type =? "keydown") && (name =? "_handleKeydown")
      then _handleKeydown ThisDocument e w else s
  | (type, BoundMethod r name) =>
      if (type =? "keydown") && (name =? "handleKeydown")
      then _handleKeydown (ThisInstance r) e w else s
  | _ => s
  end.

(** The browser delivers a key press to the listeners of the document, in
    the order they were added. *)
Definition keydown (code : string) (w : Page) : KeyboardEvent * Page :=
  foldl run_keydown_listener (mkKeyboardEvent code false, w) (documentListeners w).

(** The number of [keydown] listeners on the document. *)
Definition keydownListeners (w : Page) : list Listener :=
  snd <$> filter (λ x, fst x = "keydown") (documentListeners w).

(** *** _handleResize *)

(** [parseInt(mediaQuery.media.match(pattern)[0])] *)
Definition breakpointOf (mediaQuery : option MediaQueryList) : result Z :=
  match mediaQuery with
  | None => TypeError "mediaQuery is null"
  | Some mq =>
      match Js.match_digits (media mq) with
      | None => TypeError "match(pattern) is null"
      | Some d => Ok (Js.parseInt d)
      end
  end.

(** The condition of the first [if]: [&&] binds tighter than [||], so it
    reads [(mediaQuery && onReachBreakpoint && test && (above && w <= n))
    || (below && w > n)]. *)
Definition crossed (a : Widget) (innerWidth : Z) : result bool :=
  let o := options a in
  let left :=
    match mediaQuery o with
    | Some mq =>
        bool_decide (is_Some (onReachBreakpoint o))
        && Js.test_digits (media mq)
        && bool_decide (hasReachBreakpoint a = Some above)
        && (innerWidth <=? Js.parseInt (default "" (Js.match_digits (media mq))))%Z
    | None => false
    end in
  if left then Ok true
  else if bool_decide (hasReachBreakpoint a = Some below)
  then n ← breakpointOf (mediaQuery o); Ok (n <? innerWidth)%Z
  else Ok false.

Definition flipReach (r : option Reach) : option Reach :=
  if decide (r = Some above) then Some below else Some above.

Definition mqMatches (mediaQuery : option MediaQueryList) (innerWidth : Z) : bool :=
  match mediaQuery with
  | Some mq => matches mq innerWidth
  | None => false
  end.

(** [_handleResize()].  [id] is what [randomId()] returns should [init]
    run. *)
Definition _handleResize (this : Ref) (id : string) (w : Page) : result Page :=
  match heap w !! this with
  | None => TypeError "this is undefined"
  | Some a =>
      let el := element a in
      let mediaQuery := mediaQuery (options a) in
      c ← crossed a (innerWidth w);
      let w :=
        if (c : bool) then
          let w := update this (with_hasReachBreakpoint (flipReach (hasReachBreakpoint a))) w in
          call (onReachBreakpoint (options a))
            (λ f, CallOnReachBreakpoint f (mqMatches mediaQuery (innerWidth w))) w
        else w in
      if negb (active a)
         && (mqMatches mediaQuery (innerWidth w) || bool_decide (mediaQuery = None))
      then init this id w
      else if active a && bool_decide (is_Some mediaQuery)
              && negb (mqMatches mediaQuery (innerWidth w))
      then Ok (destroy el w)
      else Ok w
  end.

(** The viewport takes a new width and the throttled [resize] event calls
    the handler of the instance. *)
Definition resize (this : Ref) (width : Z) (id : string) (w : Page) : result Page :=
  _handleResize this id (with_innerWidth width w).

(** *** The constructor *)

(** The object the base constructor allocates and the fields the
    constructor of [Accordion] then assigns. *)
Definition newWidget (element : Node) (o : AccordionOptions) : Widget :=
  mkWidget element o false None false None.

(** [new Accordion(element, options)].  [id] is what [randomId()] returns
    should [init] run. *)
Definition construct (element : Node) (options : PartialOptions) (id : string) (w : Page)
    : result (Ref * Page) :=
  let mergedOptions := mergeOptions defaults options in
  let '(this, isNewInstance, w) :=
    AbstractDomElement.construct element (λ _, newWidget element mergedOptions) w in
  if negb isNewInstance then Ok (this, w)
  else
    let w := with_windowListeners (add_listener "resize" (BoundMethod this "handleResize")) w in
    w ← _handleResize this id w;
    Ok (this, w).

End Accordion.

(** ** Toggle ([src/classes/Toggle.js]) *)

Module Toggle.
Import Dom.

Record Settings : Type := mkSettings {
  bodyScrollLock : bool;
  bodyScrollLockMediaQuery : option MediaQueryList;
  closeOnBlur : bool;
  closeOnEscPress : bool;
  hasAnimation : bool;
  isOpened : bool;
  mediaQuery : option MediaQueryList;
  onClick : option string;
  prefixId : string;
  target_selector : option string      (* the option [target] *)
}.

(** The options of one call; [None] is a property the caller left out. *)
Record PartialSettings : Type := mkPartialSettings {
  bodyScrollLock_ : option bool;
  bodyScrollLockMediaQuery_ : option (option MediaQueryList);
  closeOnBlur_ : option bool;
  closeOnEscPress_ : option bool;
  hasAnimation_ : option bool;
  isOpened_ : option bool;
  mediaQuery_ : option (option MediaQueryList);
  onClick_ : option (option string);
  prefixId_ : option string;
  target_selector_ : option (option string)
}.

Definition noOptions : PartialSettings :=
  mkPartialSettings None None None None None None None None None None.

(** [Toggle.defaults] *)
Definition defaults : Settings := {|
  bodyScrollLock := false;
  bodyScrollLockMediaQuery := None;
  closeOnBlur := false;
  closeOnEscPress := false;
  hasAnimation := false;
  isOpened := false;
  mediaQuery := None;
  onClick := None;
  prefixId := "toggle";
  target_selector := None
|}.

Definition mergeSettings (d : Settings) (o : PartialSettings) : Settings := {|
  bodyScrollLock := default (bodyScrollLock d) (bodyScrollLock_ o);
  bodyScrollLockMediaQuery := default (bodyScrollLockMediaQuery d) (bodyScrollLockMediaQuery_ o);
  closeOnBlur := default (closeOnBlur d) (closeOnBlur_ o);
  closeOnEscPress := default (closeOnEscPress d) (closeOnEscPress_ o);
  hasAnimation := default (hasAnimation d) (hasAnimation_ o);
  isOpened := default (isOpened d) (isOpened_ o);
  mediaQuery := default (mediaQuery d) (mediaQuery_ o);
  onClick := default (onClick d) (onClick_ o);
  prefixId := default (prefixId d) (prefixId_ o);
  target_selector := default (target_selector d) (target_selector_ o)
|}.

Record Widget : Type := mkWidget {
  _element : Node;
  _settings : Settings;
  target : option Node;
  initialized : bool
}.

Definition with_target (t : option Node) (a : Widget) : Widget :=
  mkWidget (_element a) (_settings a) t (initialized a).

Definition with_initialized (b : bool) (a : Widget) : Widget :=
  mkWidget (_element a) (_settings a) (target a) b.

Abbreviation Page := (World Widget).

Definition update (this : Ref) (f : Widget → Widget) (w : Page) : Page :=
  with_heap (alter f this) w.

(** A function created where it is registered is a new object at every
    registration: it is never found among the listeners already there,
    and no later call can name it to remove it. *)
Definition add_new_listener (type : string) (site : string)
    (ls : list (string * Listener)) : list (string * Listener) :=
  (ls ++ [(type, Closure site (length ls))])%list.

Definition mqMatches (mediaQuery : option MediaQueryList) (innerWidth : Z) : bool :=
  match mediaQuery with
  | Some mq => matches mq innerWidth
  | None => false
  end.

(** *** open, close, reset *)

Definition disableBodyScroll (a : Widget) (t : Node) (w : Page) : Page :=
  match bodyScrollLockMediaQuery (_settings a) with
  | Some mq => if matches mq (innerWidth w) then emit (DisableBodyScroll t) w else w
  | None => emit (DisableBodyScroll t) w
  end.

Definition open (this : Ref) (w : Page) : result Page :=
  match heap w !! this with
  | None => TypeError "this is undefined"
  | Some a =>
      match target a with
      | None => TypeError "this.target is null"
      | Some t =>
          let s := _settings a in
          let w := setAttribute t "aria-hidden" "false" w in
          let w := setAttribute (_element a) "aria-expanded" "true" w in
          let w := if hasAnimation s then emit (SlideDown t) w else w in
          Ok (if bodyScrollLock s then disableBodyScroll a t w else w)
      end
  end.

Definition close (this : Ref) (w : Page) : result Page :=
  match heap w !! this with
  | None => TypeError "this is undefined"
  | Some a =>
      match target a with
      | None => TypeError "this.target is null"
      | Some t =>
          let s := _settings a in
          let w := setAttribute t "aria-hidden" "true" w in
          let w := setAttribute (_element a) "aria-expanded" "false" w in
          let w := if hasAnimation s then emit (SlideUp t) w else w in
          Ok (if bodyScrollLock s then emit (EnableBodyScroll t) w else w)
      end
  end.

(** [reset()]: with [hasAnimation] it hands the target to [slideDown],
    whose completion callback removes the inline style later. *)
Definition reset (this : Ref) (w : Page) : result Page :=
  match heap w !! this with
  | None => TypeError "this is undefined"
  | Some a =>
      match target a with
      | None => TypeError "this.target is null"
      | Some t =>
          let w := removeAttribute t "aria-hidden" w in
          let w := removeAttribute t "aria-expanded" w in
          let w := removeAttribute (_element a) "aria-expanded" w in
          Ok (if hasAnimation (_settings a) then emit (SlideDown t) w else w)
      end
  end.

(** *** init, destroy *)

(** [_closeOnEscPress(el)] adds an arrow function to the window. *)
Definition _closeOnEscPress (w : Page) : Page :=
  with_windowListeners (add_new_listener "keydown" "_closeOnEscPress") w.

(** [init()]; [id] is what [randomId()] returns in this call. *)
Definition init (this : Ref) (id : string) (w : Page) : result (bool * Page) :=
  match heap w !! this with
  | None => TypeError "this is undefined"
  | Some a =>
      let el := _element a in
      let s := _settings a in
      let w := update this (with_initialized true) w in
      match target a with
      | None =>
          match onClick s with
          | Some f => Ok (false, addEventListener el "click" (UserFunction f) w)
          | None => Ok (false, w)
          end
      | Some t =>
          let w := addEventListener el "click" (BoundMethod this "handleClick") w in
          let w :=
            match onClick s with
            | Some f =>
                with_nodes (alter (with_listeners (add_new_listener "click" "onClick.bind(this)")) el) w
            | None => w
            end in
          let w :=
            if negb (Js.truthy (getAttribute el "aria-controls" w)) then
              let id := prefixId s +:+ "-" +:+ id in
              setAttribute t "id" id (setAttribute el "aria-controls" id w)
            else w in
          let w := if closeOnBlur s
                   then addEventListener el "blur" (BoundMethod this "handleBlur") w
                   else w in
          let w := if closeOnEscPress s then _closeOnEscPress w else w in
          let w :=
            if negb (hasAttribute t "aria-hidden" w)
            then setAttribute t "aria-hidden" (if isOpened s then "false" else "true") w
            else w in
          w ← (if isOpened s then open this w else Ok w);
          Ok (true, w)
      end
  end.

Definition destroy (this : Ref) (w : Page) : result Page :=
  match heap w !! this with
  | None => TypeError "this is undefined"
  | Some a =>
      let el := _element a in
      let w := update this (with_initialized false) w in
      w ← reset this w;
      match onClick (_settings a) with
      | Some f => Ok (removeEventListener el "click" (UserFunction f) w)
      | None =>
          let w := removeEventListener el "click" (BoundMethod this "handleClick") w in
          Ok (removeEventListener el "blur" (BoundMethod this "handleBlur") w)
      end
  end.

(** *** The handlers *)

Definition handleClick (this : Ref) (w : Page) : result Page :=
  match heap w !! this with
  | None => TypeError "this is undefined"
  | Some a =>
      match target a with
      | None => TypeError "this.target is null"
      | Some t =>
          if Js.truthy (getAttribute t "aria-hidden" w) then
            if bool_decide (getAttribute t "aria-hidden" w ≠ Some "true")
            then close this w else open this w
          else
            Ok (setAttribute t "aria-hidden"
                  (if isOpened (_settings a) then "true" else "false") w)
      end
  end.

(** The delay of [handleBlur], in milliseconds. *)
Definition blurDelay : Z := 200.

(** [handleBlur()] only starts a timer; nothing in the class keeps its
    handle, and nothing calls [clearTimeout]. *)
Definition handleBlur (this : Ref) (w : Page) : Page :=
  with_timers (λ ts, (ts ++ [((clock w + blurDelay)%Z, this)])%list) w.

Definition run_blur_listener (w : Page) (x : string * Listener) : Page :=
  match x with
  | (type, BoundMethod this name) =>
      if (type =? "blur") && (name =? "handleBlur") then handleBlur this w else w
  | _ => w
  end.

(** The listeners a toggle has put on its element. *)
Definition elementListeners (n : Node) (w : Page) : list (string * Listener) :=
  match nodes w !! n with
  | Some e => listeners e
  | None => []
  end.

(** The element [n] loses the focus: the browser calls its [blur]
    listeners. *)
Definition blur (n : Node) (w : Page) : Page :=
  foldl run_blur_listener w (elementListeners n w).

(** The function the timer runs.  An exception inside it ends the
    callback and nothing else. *)
Definition blurTimeout (w : Page) (this : Ref) : Page :=
  match heap w !! this with
  | None => w
  | Some a =>
      match target a with
      | None => w
      | Some t =>
          setAttribute (_element a) "aria-expanded" "false"
            (setAttribute t "aria-hidden" "true" w)
      end
  end.

(** Time passes: the timers that have come due run, oldest first (all
    the timers have the same delay, so they are kept in that order). *)
Definition advance (dt : Z) (w : Page) : Page :=
  let now := (clock w + dt)%Z in
  let due := filter (λ x, (fst x <= now)%Z) (timers w) in
  let w := with_timers (filter (λ x, ¬ (fst x <= now)%Z)) w in
  foldl blurTimeout (with_clock now w) (snd <$> due).

(** The module-level [onResize], bound to the instance; [id] is what
    [randomId()] returns should [init] run. *)
Definition onResize (this : Ref) (id : string) (w : Page) : result Page :=
  match heap w !! this with
  | None => TypeError "this is undefined"
  | Some a =>
      let mediaQuery := mediaQuery (_settings a) in
      '(_, w) ← (if bool_decide (mediaQuery = None) && negb (initialized a)
                 then init this id w else Ok (false, w));
      match heap w !! this with
      | None => TypeError "this is undefined"
      | Some a =>
          match mediaQuery with
          | None => Ok w
          | Some mq =>
              if initialized a && negb (matches mq (innerWidth w)) then destroy this w
              else if negb (initialized a) && matches mq (innerWidth w)
              then '(_, w) ← init this id w; Ok w
              else if negb (initialized a) && negb (matches mq (innerWidth w)) then
                match target a with
                | None => TypeError "this.target is null"
                | Some t =>
                    match nodes w !! t with
                    | Some e =>
                        if bool_decide (style_display e = Some "none")
                        then Ok (removeStyle t w) else Ok w
                    | None => Ok w
                    end
                end
              else Ok w
          end
      end
  end.

(** [new Toggle(element, options)] over the constructor of the base
    class; [id] is what [randomId()] returns should [init] run. *)
Definition construct (element : Node) (options : PartialSettings) (id : string) (w : Page)
    : result (Ref * Page) :=
  let settings := mergeSettings defaults options in
  let '(this, isNewInstance, w) :=
    AbstractDomElement.construct element
      (λ _, mkWidget element settings None false) w in
  if negb isNewInstance then Ok (this, w)
  else
    t ← match target_selector settings with
        | Some sel =>
            if negb (sel =? "") then
              match parentNode w element with
              | Some parent => Ok (select w parent sel !! 0%nat)
              | None => TypeError "parentNode is null"
              end
            else Ok (getElementById (default "null" (getAttribute element "aria-controls" w)) w)
        | None => Ok (getElementById (default "null" (getAttribute element "aria-controls" w)) w)
        end;
    let w := update this (with_target t) w in
    let w := with_windowListeners (add_listener "resize" (BoundMethod this "_onResizeHandler")) w in
    w ← onResize this id w;
    Ok (this, w).

End Toggle.

(** ** A page for the examples

    Two accordion groups in one document.  The first has four triggers
    and four panels, and a link inside its first panel; the second has two
    of each.  Nothing is hidden by the style sheets. *)

Module Example.
Import Dom.

Definition plain (classes : list string) : Element :=
  mkElement ∅ None "block" classes [].

Definition nodes : list Element := [
  plain ["accordion"];
  plain ["accordion__trigger"]; plain ["accordion__panel"];
  plain ["accordion__trigger"]; plain ["accordion__panel"];
  plain ["accordion__trigger"]; plain ["accordion__panel"];
  plain ["accordion__trigger"]; plain ["accordion__panel"];
  plain ["link"];
  plain ["accordion"];
  plain ["accordion__trigger"]; plain ["accordion__panel"];
  plain ["accordion__trigger"]; plain ["accordion__panel"]
].

Definition select (root : Node) (selector : string) : list Node :=
  if decide (root = 0) then
    if selector =? ".accordion__trigger" then [1; 3; 5; 7]
    else if selector =? ".accordion__panel" then [2; 4; 6; 8]
    else []
  else if decide (root = 2) then
    if selector =? Accordion.FOCUSABLE_ELEMENTS then [9] else []
  else if decide (root = 10) then
    if selector =? ".accordion__trigger" then [11; 13]
    else if selector =? ".accordion__panel" then [12; 14]
    else []
  else [].

Definition parentNode (n : Node) : option Node :=
  if decide (n = 0 ∨ n = 10) then None
  else if decide (n = 9) then Some 2
  else if decide (n < 10) then Some 0 else Some 10.

(** The document before any widget is constructed, 800 pixels wide. *)
Definition page {I : Type} : World I :=
  mkWorld nodes select parentNode None [] [] 800 0 [] ∅ ∅ [].

End Example.

(** ** Predicates of the statements about the accordion *)

Module AccordionSpec.
Import Dom Accordion.

(** What the loops of [init] leave alone: everything but the elements
    and, through [close] with animation, the calls to the port. *)
Record same_page (w w' : Page) : Prop := mk_same_page {
  sp_heap : heap w' = heap w;
  sp_registry : registry w' = registry w;
  sp_select : select w' = select w;
  sp_active : activeElement w' = activeElement w;
  sp_doc : documentListeners w' = documentListeners w;
  sp_win : windowListeners w' = windowListeners w;
  sp_width : innerWidth w' = innerWidth w;
  sp_length : length (nodes w') = length (nodes w);
  sp_log : ∃ l, log w' = log w ++ l ∧ Forall (λ x, ∃ n, x = SlideUp n) l
}.

Definition ids_kept (w w' : Page) : Prop :=
  ∀ n, getAttribute n "id" w' = getAttribute n "id" w.

(** No other element of the page carries the id of [n]. *)
Definition unique_id (n : Node) (w : Page) : Prop :=
  ∀ s, getAttribute n "id" w = Some s →
       ∀ m, m ≠ n → getAttribute m "id" w ≠ Some s.

Definition loop_inv (P : Node → Prop) (ns : list Node) (w w' : Page) : Prop :=
  same_page w w'
  ∧ (∀ n, P n ∨ n ∈ ns → unique_id n w')
  ∧ (∀ n, is_Some (getAttribute n "id" w) ∨ (n ∈ ns ∧ n < length (nodes w)) →
          is_Some (getAttribute n "id" w')).

(** The instance as [init] leaves it. *)
Definition initialised (a : Widget) (width : Z) : Widget :=
  let a1 := with_active true a in
  let a2 := match reachAtInit (mediaQuery (options a)) width with
            | Some r => with_hasReachBreakpoint (Some r) a1
            | None => a1
            end in
  if closedDefault (options a) then with_options (with_forceExpand false) a2 else a2.

Definition isReachCall (x : Effect) : Prop :=
  match x with CallOnReachBreakpoint _ _ => True | _ => False end.

#[export] Instance isReachCall_dec x : Decision (isReachCall x).
Proof. destruct x; simpl; apply _. Defined.

(** The calls of [onReachBreakpoint] so far. *)
Definition reachCalls (w : Page) : list Effect := filter isReachCall (log w).

Record init_post (this : Ref) (a : Widget) (w w' : Page) : Prop := mk_init_post {
  ip_this : heap w' !! this = Some (initialised a (innerWidth w));
  ip_others : ∀ r, r ≠ this → heap w' !! r = heap w !! r;
  ip_registry : registry w' = registry w;
  ip_select : select w' = select w;
  ip_active : activeElement w' = activeElement w;
  ip_win : windowListeners w' = windowListeners w;
  ip_width : innerWidth w' = innerWidth w;
  ip_length : length (nodes w') = length (nodes w);
  ip_doc : documentListeners w'
           = add_listener "keydown" (PrototypeMethod "_handleKeydown") (documentListeners w);
  ip_reach : reachCalls w' = reachCalls w
}.

(** The triggers and the panels of the group rooted at [el]. *)
Definition group (w : Page) (el : Node) (o : AccordionOptions) : list Node :=
  select w el (triggerSelector o) ++ select w el (panelSelector o).

(** The page right after the base constructor has registered the new
    instance and the constructor has subscribed it to [resize]. *)
Definition registered (el : Node) (o : AccordionOptions) (w : Page) : Page :=
  let r := fresh (dom (heap w)) in
  with_windowListeners (add_listener "resize" (BoundMethod r "handleResize"))
    (with_registry (insert el r) (with_heap (insert r (newWidget el o)) w)).

(** The panels of the group that are displayed. *)
Definition openPanels (this : Ref) (w : Page) : list Node :=
  match heap w !! this with
  | Some a =>
      filter (λ p, isClosed p w = false) (select w (element a) (panelSelector (options a)))
  | None => []
  end.

(** The [aria-expanded] of every trigger of the group, in order. *)
Definition expandedStates (this : Ref) (w : Page) : list (option string) :=
  match heap w !! this with
  | Some a =>
      (λ t, getAttribute t "aria-expanded" w)
        <$> select w (element a) (triggerSelector (options a))
  | None => []
  end.

(** The state in which [trigger] is the one open trigger of a group that
    must keep one panel open and allows no second one: the trigger is
    expanded and controls [panel], which is displayed and names no
    other element as its label; every other panel of the group is
    closed. *)
Record single_open (this : Ref) (a : Widget) (trigger panel : Node) (w : Page) : Prop :=
  mk_single_open {
    so_this : heap w !! this = Some a;
    so_forceExpand : forceExpand (options a) = true;
    so_allowMultiple : allowMultiple (options a) = false;
    so_controls :
      ∃ pid, getAttribute trigger "aria-controls" w = Some pid
             ∧ pid ≠ "" ∧ getElementById pid w = Some panel;
    so_labelledby :
      ∀ tid t, getAttribute panel "aria-labelledby" w = Some tid →
               getElementById tid w = Some t → t = trigger;
    so_expanded : getAttribute trigger "aria-expanded" w = Some "true";
    so_displayed : isClosed panel w = false;
    so_others :
      Forall (λ p, p = panel ∨ isClosed p w = true)
        (select w (element a) (panelSelector (options a)))
  }.

(** The page a construction leaves (the page itself should it throw). *)
Definition constructed (el : Node) (o : PartialOptions) (id : string) (w : Page) : Page :=
  match construct el o id w with
  | Ok (_, w') => w'
  | _ => w
  end.

(** The page [init] leaves (the page itself should it throw). *)
Definition initialisedPage (this : Ref) (id : string) (w : Page) : Page :=
  match init this id w with
  | Ok w' => w'
  | _ => w
  end.

(** A run of clicks on triggers, left to right. *)
Definition clicks (this : Ref) (triggers : list Node) (w : Page) : Page :=
  foldl (λ w t, _handleButtonClick this t w) w triggers.

(** What a click leaves alone: every attribute but [aria-expanded], the
    tree, and the root and the options of every instance. *)
Record click_frame (w w' : Page) : Prop := mk_click_frame {
  cf_attrs : ∀ n name, name ≠ "aria-expanded" →
                       getAttribute n name w' = getAttribute n name w;
  cf_length : length (nodes w') = length (nodes w);
  cf_select : select w' = select w;
  cf_heap : ∀ r a, heap w !! r = Some a →
                   ∃ a', heap w' !! r = Some a'
                         ∧ element a' = element a ∧ options a' = options a
}.

(** The group of [this] wired the way [init] wires it on a page where the
    generated ids collide with nothing: its panels are elements of the
    page and carry ids no other element has, and the panel a trigger
    controls is labelled by an element that controls that panel. *)
Record wired (this : Ref) (el : Node) (o : AccordionOptions) (w : Page) : Prop := mk_wired {
  wi_this : ∃ a, heap w !! this = Some a ∧ element a = el ∧ options a = o;
  wi_nodup : NoDup (select w el (panelSelector o));
  wi_nodes : ∀ p, p ∈ select w el (panelSelector o) → p < length (nodes w);
  wi_ids : ∀ p, p ∈ select w el (panelSelector o) → unique_id p w;
  wi_label : ∀ t pid panel,
      getAttribute t "aria-controls" w = Some pid →
      getElementById pid w = Some panel →
      ∃ tid t', getAttribute panel "aria-labelledby" w = Some tid
                ∧ tid ≠ ""
                ∧ getElementById tid w = Some t'
                ∧ getAttribute t' "aria-controls" w = Some pid
}.

(** The two conditions of [wired] that range over the whole page, as
    checks over its elements. *)
Definition unique_idb (n : Node) (w : Page) : bool :=
  forallb (λ m, bool_decide (m = n)
                || match getAttribute m "id" w with
                   | Some s => negb (bool_decide (getAttribute n "id" w = Some s))
                   | None => true
                   end)
          (seq 0 (length (nodes w))).

Definition labelled (t : Node) (w : Page) : bool :=
  match getAttribute t "aria-controls" w with
  | Some pid =>
      match getElementById pid w with
      | Some panel =>
          match getAttribute panel "aria-labelledby" w with
          | Some tid =>
              negb (tid =? "")
              && match getElementById tid w with
                 | Some t' => bool_decide (getAttribute t' "aria-controls" w = Some pid)
                 | None => false
                 end
          | None => false
          end
      | None => true
      end
  | None => true
  end.

(** Where a key takes the focus from the trigger at index [i] of [n]. *)
Definition rove (key : string) (i n : nat) : nat :=
  if key =? "ArrowDown" then (i + 1) mod n
  else if key =? "ArrowUp" then (i + n - 1) mod n
  else if key =? "Home" then 0
  else n - 1.

(** A click that changes nothing a user or a callback can observe. *)
Definition noop_click (this : Ref) (trigger : Node) (w : Page) : Prop :=
  let w' := _handleButtonClick this trigger w in
  (∀ n name, getAttribute n name w' = getAttribute n name w)
  ∧ (∀ p, isClosed p w' = isClosed p w)
  ∧ activeElement w' = activeElement w
  ∧ log w' = log w.

(** The options of the example: the defaults and a callback for [onOpen]. *)
Definition withOnOpen : PartialOptions :=
  mkPartialOptions None None None None None None None (Some (Some "userOnOpen")) None
    None None None.

(** The first group of the example page after its construction, a click
    on its first trigger (node 1), and the focus back on that trigger:
    the first panel (node 2) is the only one displayed. *)
Definition firstOpen : Page :=
  focusNode 1 (clicks 0 [1] (constructed 0 withOnOpen "k3x" Example.page)).

Definition firstOpenWidget : Widget :=
  mkWidget 0 (mergeOptions defaults withOnOpen) true (Some 2) true None.

(** The first group of the example page right after its construction
    with the default options: [init] has run. *)
Definition afterInit : Page := constructed 0 noOptions "k3x" Example.page.

Definition afterInitWidget : Widget :=
  mkWidget 0 (mergeOptions defaults noOptions) true None false None.

(** The same group constructed with [allowMultiple]. *)
Definition multiple : PartialOptions :=
  mkPartialOptions (Some true) None None None None None None None None None None None.

Definition afterInitMultiple : Page := constructed 0 multiple "k3x" Example.page.

Definition afterInitMultipleWidget : Widget :=
  mkWidget 0 (mergeOptions defaults multiple) true None false None.

(** [n.style.display], when [n] has an inline style. *)
Definition inlineDisplay (n : Node) (w : Page) : option string :=
  nodes w !! n ≫= style_display.

(** The listeners registered on the element [n]. *)
Definition listenersOf (n : Node) (w : Page) : list (string * Listener) :=
  match nodes w !! n with
  | Some e => listeners e
  | None => []
  end.

(** The three listeners [init] puts on every trigger. *)
Definition triggerListeners (this : Ref) : list (string * Listener) :=
  [("click", BoundMethod this "handleButtonClick");
   ("focus", BoundMethod this "handleButtonFocus");
   ("blur", BoundMethod this "handleButtonBlur")].

(** The options [{ closedDefault: true }], and the first group of the
    example page with its instance registered and [init] still to run. *)
Definition closedByDefault : PartialOptions :=
  mkPartialOptions None (Some true) None None None None None None None None None None.

Definition beforeInitClosed : Page :=
  registered 0 (mergeOptions defaults closedByDefault) Example.page.

(** The same for a root whose selector of the triggers matches nothing. *)
Definition closedWithoutTrigger : PartialOptions :=
  mkPartialOptions None (Some true) None None None None None None None None None
    (Some ".no-such-trigger").

Definition beforeInitWithoutTrigger : Page :=
  registered 0 (mergeOptions defaults closedWithoutTrigger) Example.page.

(** No element of the page carries an id that [init] can generate from
    this prefix and this random id. *)
Definition fresh_ids (prefixId id : string) (w : Page) : Prop :=
  ∀ n i, getAttribute n "id" w ≠ Some (triggerId prefixId id i)
         ∧ getAttribute n "id" w ≠ Some (panelId prefixId id i).

(** The elements that carry an id [cand i] are the elements of [done], in
    their order: the element at position [k] carries [cand (k + 1)]. *)
Definition numbered (cand : nat → string) (done : list Node) (w : Page) : Prop :=
  ∀ n i, getAttribute n "id" w = Some (cand i) ↔ (0 < i ∧ done !! (i - 1) = Some n).

(** The first group of the example page with its instance registered
    and [init] still to run, with the default options. *)
Definition beforeInit : Page :=
  registered 0 (mergeOptions defaults noOptions) Example.page.

(** What a move of the keyboard focus does to the instances: it can
    change their [focus] flag and nothing else. *)
Definition focus_only (w w' : Page) : Prop :=
  ∀ r a, heap w !! r = Some a → ∃ b, heap w' !! r = Some (with_focus b a).

(** A run of key presses, each handled by [_handleKeydown] bound to the
    instance [r]. *)
Definition keys (r : Ref) (codes : list string) (w : Page) : Page :=
  foldl (λ w c, (_handleKeydown (ThisInstance r) (mkKeyboardEvent c false) w).2) w codes.

(** Where a run of keys takes the focus from the trigger at index [i]
    of [n]. *)
Definition roves (codes : list string) (i n : nat) : nat :=
  foldl (λ i c, rove c i n) i codes.

(** The first group of the example page after [init], with the
    keyboard focus on its third trigger (node 5). *)
Definition focusOnThird : Page := focusNode 5 afterInit.

Definition focusOnThirdWidget : Widget :=
  mkWidget 0 (mergeOptions defaults noOptions) true None true None.

(** What the roving of the keys needs of a trigger: it has the class of
    the trigger selector, and carries the focus listener of the instance
    for [focus] and not its blur listener. *)
Definition rovable (r : Ref) (cls : string) (w : Page) (t : Node) : Prop :=
  classList_contains t cls w = true
  ∧ ("focus", BoundMethod r "handleButtonFocus") ∈ listenersOf t w
  ∧ ("focus", BoundMethod r "handleButtonBlur") ∉ listenersOf t w.

#[export] Instance rovable_dec r cls w t : Decision (rovable r cls w t).
Proof. unfold rovable. apply _. Defined.

(** The side of the breakpoint [n] a width is on, as [_handleResize]
    compares them: a width equal to the breakpoint is below it. *)
Definition side (n width : Z) : Reach := if (n <? width)%Z then above else below.

(** The calls of [onReachBreakpoint] a run of widths is to give, from
    the side [s]: one each time the side changes, with what the query
    answers at the new width. *)
Fixpoint crossings (f : string) (mq : MediaQueryList) (n : Z) (s : Reach)
    (widths : list Z) : list Effect :=
  match widths with
  | [] => []
  | width :: rest =>
      (if decide (side n width = s) then []
       else [CallOnReachBreakpoint f (matches mq width)])
      ++ crossings f mq n (side n width) rest
  end.

(** A run of resizes of the window; each comes with what [randomId()]
    returns should [init] run. *)
Fixpoint resizes (this : Ref) (steps : list (Z * string)) (w : Page) : result Page :=
  match steps with
  | [] => Ok w
  | (width, id) :: rest => w' ← resize this width id w; resizes this rest w'
  end.

(** [window.matchMedia('(min-width: 768px)')] *)
Definition minWidth768 : MediaQueryList :=
  mkMediaQueryList "(min-width: 768px)" (λ width, (768 <=? width)%Z).

(** The first group of the example page constructed 800 pixels wide
    with the query [(min-width: 768px)] and a callback. *)
Definition responsive : PartialOptions :=
  mkPartialOptions None None None None (Some (Some minWidth768)) None
    (Some (Some "onReach")) None None None None None.

Definition afterInitResponsive : Page := constructed 0 responsive "k3x" Example.page.

Definition afterInitResponsiveWidget : Widget :=
  mkWidget 0 (mergeOptions defaults responsive) true None false (Some above).

(** The same group constructed 700 pixels wide: the query does not
    match, so the constructor does not run [init]. *)
Definition builtNarrow : Page :=
  constructed 0 responsive "k3x" (with_innerWidth 700 Example.page).

(** The calls of [onReachBreakpoint] in the log after a run of resizes;
    [None] should one of them throw. *)
Definition reachCallsAfter (this : Ref) (steps : list (Z * string)) (w : Page)
    : option (list Effect) :=
  match resizes this steps w with
  | Ok w' => Some (reachCalls w')
  | _ => None
  end.

End AccordionSpec.


(** ** Predicates of the statements about the toggle *)

Module ToggleSpec.
Import Dom Toggle.

(** The page a construction leaves (the page itself should it throw). *)
Definition constructed (el : Node) (o : PartialSettings) (id : string) (w : Page) : Page :=
  match construct el o id w with
  | Ok (_, w') => w'
  | _ => w
  end.

(** What the methods of a toggle leave alone: the registry, the clock,
    the pending timers, the number of elements, and which trigger,
    target and settings every instance has. *)
Record keeps (w w' : Page) : Prop := mk_keeps {
  k_registry : registry w' = registry w;
  k_clock : clock w' = clock w;
  k_timers : timers w' = timers w;
  k_length : length (nodes w') = length (nodes w);
  k_heap : ∀ r a, heap w !! r = Some a →
                  ∃ a', heap w' !! r = Some a'
                        ∧ target a' = target a
                        ∧ _element a' = _element a
                        ∧ _settings a' = _settings a
}.

(** What can happen to a toggle while a blur timer is pending. *)
Inductive Event : Type :=
| Open                (* a call of [open()] *)
| Close               (* a call of [close()] *)
| Click               (* a click on the trigger *)
| Blur                (* the trigger loses the focus again *)
| Focus (n : Node)    (* the focus moves to [n], into the target for one *)
| Destroy             (* a call of [destroy()] *)
| Wait (dt : Z).      (* [dt] milliseconds pass *)

Definition orElse (w : Page) (m : result Page) : Page :=
  match m with
  | Ok w' => w'
  | _ => w
  end.

(** One event.  A call that throws leaves the page as it was when it
    threw: [open], [close] and [handleClick] throw on their first write,
    before anything has changed; [destroy] throws in [reset], after it
    has cleared [initialized]. *)
Definition step (this : Ref) (w : Page) (ev : Event) : Page :=
  match ev with
  | Open => orElse w (open this w)
  | Close => orElse w (close this w)
  | Click => orElse w (handleClick this w)
  | Blur => match heap w !! this with
            | Some a => blur (_element a) w
            | None => w
            end
  | Focus n => with_activeElement (Some n) w
  | Destroy => orElse (update this (with_initialized false) w) (destroy this w)
  | Wait dt => advance dt w
  end.

Definition run (this : Ref) (evs : list Event) (w : Page) : Page :=
  foldl (step this) w evs.

Definition duration (ev : Event) : Z :=
  match ev with
  | Wait dt => dt
  | _ => 0
  end.

(** The time a run of events takes. *)
Definition elapsed (evs : list Event) : Z := foldr (λ ev t, (duration ev + t)%Z) 0%Z evs.

(** The target is hidden and the trigger collapsed. *)
Definition closedState (t el : Node) (w : Page) : Prop :=
  getAttribute t "aria-hidden" w = Some "true"
  ∧ getAttribute el "aria-expanded" w = Some "false".

(** What holds of the page while the timer that [handleBlur] started at
    time [T - blurDelay] is pending. *)
Record pending (this : Ref) (t el : Node) (T : Z) (w : Page) : Prop := mk_pending {
  pd_timer : (T, this) ∈ timers w;
  pd_heap : ∃ a, heap w !! this = Some a ∧ target a = Some t ∧ _element a = el;
  pd_target : t < length (nodes w);
  pd_element : el < length (nodes w)
}.

(** The options of the examples: the target is the first panel next to
    the trigger, and the toggle closes on blur and on Escape. *)
Definition closing : PartialSettings :=
  mkPartialSettings None None (Some true) (Some true) None None None None None
    (Some (Some ".accordion__panel")).

Definition closingWithOnClick : PartialSettings :=
  mkPartialSettings None None (Some true) (Some true) None None None
    (Some (Some "userOnClick")) None (Some (Some ".accordion__panel")).

(** The toggle of the examples: the second element of the example page
    is the trigger and the first panel next to it the target.  Right
    after its construction, which runs [init]; and with the instance
    registered and its target found, [init] still to run. *)
Definition afterInit : Page := constructed 1 closing "k3x" Example.page.

Definition afterInitWidget : Widget :=
  mkWidget 1 (mergeSettings defaults closing) (Some 2) true.

Definition beforeInitWidget : Widget :=
  mkWidget 1 (mergeSettings defaults closing) (Some 2) false.

Definition beforeInit : Page :=
  with_registry (insert 1 0) (with_heap (insert 0 beforeInitWidget) Example.page).

(** The same toggle with a scroll lock that a media query switches on
    from 1024 pixels, in a viewport 800 wide; with animation. *)
Definition minWidth1024 : MediaQueryList :=
  mkMediaQueryList "(min-width: 1024px)" (λ width, (1024 <=? width)%Z).

Definition locking : PartialSettings :=
  mkPartialSettings (Some true) (Some (Some minWidth1024)) None None (Some true) None None
    None None (Some (Some ".accordion__panel")).

Definition afterInitLocking : Page := constructed 1 locking "k3x" Example.page.

Definition afterInitLockingWidget : Widget :=
  mkWidget 1 (mergeSettings defaults locking) (Some 2) true.

(** A toggle whose trigger controls nothing ([aria-controls] is missing
    and no [target] is given), registered, [init] still to run. *)
Definition withoutTargetWidget : Widget :=
  mkWidget 1 (mergeSettings defaults noOptions) None false.

Definition withoutTarget : Page :=
  with_registry (insert 1 0) (with_heap (insert 0 withoutTargetWidget) Example.page).

(** The options [{ mediaQuery }] with a query that needs 768 pixels. *)
Definition minWidth768 : MediaQueryList :=
  mkMediaQueryList "(min-width: 768px)" (λ width, (768 <=? width)%Z).

Definition onlyWide : PartialSettings :=
  mkPartialSettings None None None None None None (Some (Some minWidth768)) None None None.

(** The toggle enabled and disabled again and again, as [onResize] does
    for a media query that starts and stops matching; every [init] comes
    with what [randomId()] returns in it. *)
Fixpoint cycles (this : Ref) (ids : list string) (w : Page) : result Page :=
  match ids with
  | [] => Ok w
  | id :: rest =>
      '(_, w1) ← init this id w;
      w2 ← destroy this w1;
      cycles this rest w2
  end.

(** *** The Escape key

    [el.click()] has the browser call the [click] listeners of [el] in
    the order they were added; an exception in one of them is reported
    and the next one runs.  A function of the caller is a call to
    record. *)
Definition run_click_listener (w : Page) (x : string * Listener) : Page :=
  match x with
  | (type, BoundMethod this name) =>
      if (type =? "click") && (name =? "handleClick")
      then orElse w (handleClick this w) else w
  | (type, UserFunction f) => if type =? "click" then emit (CallOnClick f) w else w
  | (type, Closure site _) => if type =? "click" then emit (CallOnClick site) w else w
  | _ => w
  end.

Definition click (n : Node) (w : Page) : Page :=
  foldl run_click_listener w (elementListeners n w).

Record KeyEvent : Type := mkKeyEvent {
  key : option string;         (* [e.key]; [None] where the browser has none *)
  keyCode : Z;
  defaultPrevented : bool
}.

(** [const key = e.key || e.keyCode] and
    [key === 'Escape' || key === 'Esc' || key === 27]. *)
Definition isEscape (e : KeyEvent) : bool :=
  if Js.truthy (key e)
  then bool_decide (key e = Some "Escape") || bool_decide (key e = Some "Esc")
  else (keyCode e =? 27)%Z.

(** The arrow function that [_closeOnEscPress(el)] puts on the window,
    with the [el] it closes over.  It looks the target up through the
    [aria-controls] of [el], not through [this.target]. *)
Definition escListener (el : Node) (e : KeyEvent) (w : Page) : result Page :=
  if defaultPrevented e then Ok w
  else if isEscape e then
    match getElementById (default "null" (getAttribute el "aria-controls" w)) w with
    | None => TypeError "document.getElementById(...) is null"
    | Some t =>
        if bool_decide (getAttribute t "aria-hidden" w ≠ Some "true")
        then Ok (click el w) else Ok w
    end
  else Ok w.

End ToggleSpec.

(** ** Facts about the page *)

Module DomFacts.
Import Dom.

Lemma foldl_preserves {A B C : Type} (proj : A → C) (f : A → B → A) (l : list B) (x : A) :
  (∀ x y, proj (f x y) = proj x) → proj (foldl f x l) = proj x.
Proof.
  intros Hf. revert x. induction l as [|y l IH]; intros x; simpl; [done|].
  by rewrite IH, Hf.
Qed.


Section Facts.
Context {I : Type}.
Implicit Types (w : World I) (n m : Node).

Lemma getAttribute_alter_ne n m name (g : Element → Element) w :
  n ≠ m → getAttribute m name (with_nodes (alter g n) w) = getAttribute m name w.
Proof.
  intros Hne. unfold getAttribute. simpl.
  by rewrite list_lookup_alter_ne.
Qed.

Lemma getAttribute_alter_attrs n name (f : gmap string string → gmap string string) w :
  getAttribute n name (with_nodes (alter (with_attrs f) n) w)
  = (e ← nodes w !! n; f (attrs e) !! name).
Proof.
  unfold getAttribute. simpl. rewrite list_lookup_alter_eq.
  by destruct (nodes w !! n).
Qed.

Lemma getAttribute_setAttribute n m k k' v w :
  getAttribute m k' (setAttribute n k v w)
  = if decide (n = m ∧ k = k' ∧ n < length (nodes w)) then Some v
    else getAttribute m k' w.
Proof.
  unfold setAttribute. destruct (decide (n = m)) as [->|Hne].
  - rewrite getAttribute_alter_attrs. unfold getAttribute.
    destruct (nodes w !! m) as [e|] eqn:He; simpl.
    + apply lookup_lt_Some in He as Hlt.
      destruct (decide (k = k')) as [->|Hk].
      * rewrite lookup_insert_eq. by rewrite decide_True.
      * rewrite lookup_insert_ne by done. by rewrite decide_False by tauto.
    + apply lookup_ge_None in He. rewrite decide_False; [done|lia].
  - rewrite getAttribute_alter_ne by done. by rewrite decide_False by tauto.
Qed.

Lemma getAttribute_setAttribute_other n m k k' v w :
  k ≠ k' → getAttribute m k' (setAttribute n k v w) = getAttribute m k' w.
Proof. intros. rewrite getAttribute_setAttribute. by rewrite decide_False by tauto. Qed.

Lemma getAttribute_removeAttribute n m k k' w :
  getAttribute m k' (removeAttribute n k w)
  = if decide (n = m ∧ k = k') then None else getAttribute m k' w.
Proof.
  unfold removeAttribute. destruct (decide (n = m)) as [->|Hne].
  - rewrite getAttribute_alter_attrs. unfold getAttribute.
    destruct (nodes w !! m) as [e|] eqn:He; simpl.
    + destruct (decide (k = k')) as [->|Hk].
      * rewrite lookup_delete_eq. by rewrite decide_True.
      * rewrite lookup_delete_ne by done. by rewrite decide_False by tauto.
    + by case_decide.
  - rewrite getAttribute_alter_ne by done. by rewrite decide_False by tauto.
Qed.

Lemma getAttribute_alter_keep n m name (g : Element → Element) w :
  (∀ e, attrs (g e) = attrs e) →
  getAttribute m name (with_nodes (alter g n) w) = getAttribute m name w.
Proof.
  intros Hg. destruct (decide (n = m)) as [->|Hne].
  - unfold getAttribute. simpl. rewrite list_lookup_alter_eq.
    destruct (nodes w !! m); simpl; [by rewrite Hg|done].
  - by apply getAttribute_alter_ne.
Qed.

Lemma getAttribute_setDisplay n m name d w :
  getAttribute m name (setDisplay n d w) = getAttribute m name w.
Proof. by apply getAttribute_alter_keep. Qed.

Lemma getAttribute_removeStyle n m name w :
  getAttribute m name (removeStyle n w) = getAttribute m name w.
Proof. by apply getAttribute_alter_keep. Qed.

Lemma getAttribute_addEventListener n m name t l w :
  getAttribute m name (addEventListener n t l w) = getAttribute m name w.
Proof. by apply getAttribute_alter_keep. Qed.

Lemma getAttribute_removeEventListener n m name t l w :
  getAttribute m name (removeEventListener n t l w) = getAttribute m name w.
Proof. by apply getAttribute_alter_keep. Qed.

Lemma getElementById_nonempty s n w : getElementById s w = Some n → s ≠ "".
Proof. unfold getElementById. by case_decide. Qed.

Lemma getElementById_Some s n w :
  getElementById s w = Some n → getAttribute n "id" w = Some s.
Proof.
  unfold getElementById, getAttribute. case_decide; [done|].
  destruct (list_find (has_id s) (nodes w)) as [[i e]|] eqn:Hf; [|done].
  simpl. intros [= <-]. apply list_find_Some in Hf as (Hl & Hid & _).
  by rewrite Hl.
Qed.

Lemma getElementById_None s w :
  s ≠ "" → getElementById s w = None ↔ ∀ n, getAttribute n "id" w ≠ Some s.
Proof.
  intros Hs. unfold getElementById, getAttribute. rewrite decide_False by done.
  rewrite fmap_None, list_find_None, Forall_lookup.
  split.
  - intros H n. destruct (nodes w !! n) as [e|] eqn:He; simpl; [|done].
    by apply (H n e).
  - intros H n e He. specialize (H n). rewrite He in H. done.
Qed.

Lemma getAttribute_nodes n name w w' :
  nodes w' = nodes w → getAttribute n name w' = getAttribute n name w.
Proof. intros H. unfold getAttribute. by rewrite H. Qed.

Lemma getComputedDisplay_nodes n w w' :
  nodes w' = nodes w → getComputedDisplay n w' = getComputedDisplay n w.
Proof. intros H. unfold getComputedDisplay. by rewrite H. Qed.

Lemma getElementById_nodes s w w' :
  nodes w' = nodes w → getElementById s w' = getElementById s w.
Proof. intros H. unfold getElementById. by rewrite H. Qed.

Lemma getComputedDisplay_alter_keep n m (g : Element → Element) w :
  (∀ e, computed_display (g e) = computed_display e) →
  getComputedDisplay m (with_nodes (alter g n) w) = getComputedDisplay m w.
Proof.
  intros Hg. unfold getComputedDisplay. simpl.
  destruct (decide (n = m)) as [->|Hne].
  - rewrite list_lookup_alter_eq. destruct (nodes w !! m); simpl; [by rewrite Hg|done].
  - by rewrite list_lookup_alter_ne.
Qed.

Lemma getComputedDisplay_setAttribute n m k v w :
  getComputedDisplay m (setAttribute n k v w) = getComputedDisplay m w.
Proof. by apply getComputedDisplay_alter_keep. Qed.

Lemma getComputedDisplay_addEventListener n m t l w :
  getComputedDisplay m (addEventListener n t l w) = getComputedDisplay m w.
Proof. by apply getComputedDisplay_alter_keep. Qed.

Lemma getComputedDisplay_setDisplay n m d w :
  getComputedDisplay m (setDisplay n d w)
  = if decide (n = m ∧ n < length (nodes w)) then Some d else getComputedDisplay m w.
Proof.
  unfold getComputedDisplay, setDisplay. simpl.
  destruct (decide (n = m)) as [->|Hne].
  - rewrite list_lookup_alter_eq. destruct (nodes w !! m) as [e|] eqn:He; simpl.
    + apply lookup_lt_Some in He. by rewrite decide_True.
    + apply lookup_ge_None in He. rewrite decide_False; [done|lia].
  - rewrite list_lookup_alter_ne by done. by rewrite decide_False by tauto.
Qed.

(** Writing the same attribute twice is writing it once. *)
Lemma setAttribute_twice n k v v' w :
  setAttribute n k v' (setAttribute n k v w) = setAttribute n k v' w.
Proof.
  unfold setAttribute, with_nodes. simpl. f_equal.
  rewrite list_alter_alter_eq. apply list_alter_ext; [|done].
  intros e _. unfold with_attrs. simpl. by rewrite insert_insert_eq.
Qed.

Lemma getElementById_Some_iff s n w :
  s ≠ "" →
  getElementById s w = Some n
  ↔ getAttribute n "id" w = Some s ∧ ∀ j, j < n → getAttribute j "id" w ≠ Some s.
Proof.
  intros Hs. unfold getElementById, getAttribute. rewrite decide_False by done. split.
  - destruct (list_find (has_id s) (nodes w)) as [[i e]|] eqn:Hf; [|done].
    simpl. intros [= <-]. apply list_find_Some in Hf as (Hl & Hid & Hmin).
    rewrite Hl. split; [done|]. intros j Hj.
    destruct (nodes w !! j) as [e'|] eqn:He'; simpl; [|done]. by apply (Hmin j e').
  - intros [Hn Hmin]. destruct (nodes w !! n) as [e|] eqn:He; [|done]. simpl in Hn.
    assert (Hf : list_find (has_id s) (nodes w) = Some (n, e)).
    { apply list_find_Some. split_and!; [done..|].
      intros j e' He' Hj. specialize (Hmin j Hj). rewrite He' in Hmin. done. }
    by rewrite Hf.
Qed.

(** [getElementById] looks at the ids only. *)
Lemma getElementById_ids s w w' :
  (∀ n, getAttribute n "id" w' = getAttribute n "id" w) →
  getElementById s w' = getElementById s w.
Proof.
  intros Hids. destruct (decide (s = "")) as [->|Hs]; [done|].
  destruct (getElementById s w) as [n|] eqn:Hg.
  - apply getElementById_Some_iff; [done|].
    apply getElementById_Some_iff in Hg as [H1 H2]; [|done].
    split; [by rewrite Hids|]. intros j Hj. rewrite Hids. by apply H2.
  - apply getElementById_None; [done|]. intros n. rewrite Hids.
    by apply getElementById_None.
Qed.

Lemma getElementById_lt s n w : getElementById s w = Some n → n < length (nodes w).
Proof.
  unfold getElementById. case_decide; [done|].
  destruct (list_find (has_id s) (nodes w)) as [[i e]|] eqn:Hf; [|done].
  simpl. intros [= <-]. apply list_find_Some in Hf as (Hl & _).
  by apply lookup_lt_Some in Hl.
Qed.

End Facts.

End DomFacts.

(** ** Facts about the accordion *)

Module AccordionFacts.
Import Dom Accordion DomFacts AccordionSpec.

Lemma probe_free fuel cand i j (w : Page) :
  probe fuel cand i w = Some j → getElementById (cand j) w = None.
Proof.
  revert i. induction fuel as [|fuel IH]; intros i; simpl; [done|].
  destruct (getElementById (cand i) w) eqn:Hi; [apply IH|].
  by intros [= <-].
Qed.

Lemma probe_taken fuel cand i (w : Page) :
  probe fuel cand i w = None →
  ∀ k, k < fuel → is_Some (getElementById (cand (i + k)) w).
Proof.
  revert i. induction fuel as [|fuel IH]; intros i; simpl; [lia|].
  destruct (getElementById (cand i) w) eqn:Hi; [|done].
  intros Hp [|k] Hk.
  - rewrite Nat.add_0_r, Hi. eauto.
  - replace (i + S k) with (S i + k) by lia. apply IH; [done|lia].
Qed.

(** The probe always ends: among more candidates than the page has
    elements, one is free. *)
Lemma probe_total cand i (w : Page) :
  Inj (=) (=) cand → is_Some (probe (probe_fuel w) cand i w).
Proof.
  intros Hinj. destruct (probe (probe_fuel w) cand i w) eqn:Hp; [eauto|].
  exfalso. pose proof (probe_taken _ _ _ _ Hp) as Ht.
  set (g := λ k, default 0 (getElementById (cand (i + k)) w)).
  assert (Hnd : NoDup (g <$> seq 0 (probe_fuel w))).
  { apply NoDup_fmap_2_strong; [|apply NoDup_seq].
    intros x y Hx Hy Hg. apply elem_of_seq in Hx, Hy.
    destruct (Ht x) as [nx Hnx]; [lia|]. destruct (Ht y) as [ny Hny]; [lia|].
    unfold g in Hg. rewrite Hnx, Hny in Hg. simpl in Hg. subst ny.
    apply getElementById_Some in Hnx, Hny. rewrite Hnx in Hny.
    injection Hny as Hc. apply Hinj in Hc. lia. }
  assert (Hsub : g <$> seq 0 (probe_fuel w) ⊆+ seq 0 (length (nodes w))).
  { apply NoDup_submseteq; [done|]. intros n Hn.
    apply list_elem_of_fmap in Hn as (k & -> & Hk). apply elem_of_seq in Hk.
    destruct (Ht k) as [nk Hnk]; [lia|]. unfold g. rewrite Hnk. simpl.
    apply getElementById_lt in Hnk. apply elem_of_seq. lia. }
  apply submseteq_length in Hsub.
  rewrite length_fmap, !length_seq in Hsub. unfold probe_fuel in Hsub. lia.
Qed.

Lemma triggerId_inj prefixId id : Inj (=) (=) (triggerId prefixId id).
Proof.
  intros i j H. unfold triggerId in H.
  repeat apply String.app_inj in H. by apply pretty_nat_inj in H.
Qed.

Lemma panelId_inj prefixId id : Inj (=) (=) (panelId prefixId id).
Proof.
  intros i j H. unfold panelId in H.
  repeat apply String.app_inj in H. by apply pretty_nat_inj in H.
Qed.

(** The generated ids are not empty: they hold a dash. *)
Lemma append_nonempty (s1 s2 : string) : s2 ≠ "" → s1 +:+ s2 ≠ "".
Proof. intros H. destruct s1; [done|]. by simpl. Qed.

Lemma triggerId_nonempty prefixId id i : triggerId prefixId id i ≠ "".
Proof. unfold triggerId. by apply append_nonempty. Qed.

Lemma panelId_nonempty prefixId id i : panelId prefixId id i ≠ "".
Proof. unfold panelId. by apply append_nonempty. Qed.



Lemma same_page_refl w : same_page w w.
Proof. split; try done. exists []. by rewrite app_nil_r. Qed.

Lemma same_page_trans w1 w2 w3 : same_page w1 w2 → same_page w2 w3 → same_page w1 w3.
Proof.
  intros [] []. split; try congruence.
  destruct sp_log0 as (l1 & E1 & F1), sp_log1 as (l2 & E2 & F2).
  exists (l1 ++ l2). split; [by rewrite E2, E1, app_assoc|by apply Forall_app].
Qed.

Lemma same_page_alter (f : Element → Element) n (w : Page) :
  same_page w (with_nodes (alter f n) w).
Proof.
  split; try done; simpl; [by rewrite length_alter|].
  exists []. by rewrite app_nil_r.
Qed.

Lemma same_page_close this panel (w : Page) : same_page w (close this panel w).
Proof.
  unfold close. destruct (heap w !! this) as [a|]; [|apply same_page_refl].
  destruct (hasAnimation (options a)); [|apply same_page_alter].
  split; try done. exists [SlideUp panel]. split; [done|].
  constructor; [eauto|constructor].
Qed.

Lemma ids_kept_refl w : ids_kept w w.
Proof. done. Qed.

Lemma ids_kept_trans w1 w2 w3 : ids_kept w1 w2 → ids_kept w2 w3 → ids_kept w1 w3.
Proof. intros H1 H2 n. by rewrite H2, H1. Qed.

Lemma ids_kept_close this panel (w : Page) : ids_kept w (close this panel w).
Proof.
  intros n. unfold close. destruct (heap w !! this) as [a|]; [|done].
  destruct (hasAnimation (options a)); [done|]. apply getAttribute_setDisplay.
Qed.

Lemma unique_id_kept n w w' : ids_kept w w' → unique_id n w → unique_id n w'.
Proof.
  intros Hk Hu s Hs m Hm. rewrite Hk in *. by apply Hu.
Qed.

(** Giving an element an id that nothing carries keeps unique what was
    unique and makes the element's id unique as well. *)
Lemma unique_id_assign (P : Node → Prop) t s (w : Page) :
  s ≠ "" →
  getElementById s w = None →
  (∀ n, P n → unique_id n w) →
  ∀ n, P n ∨ n = t → unique_id n (setAttribute t "id" s w).
Proof.
  intros Hs Hfree HP n Hn s' Hs' m Hm.
  rewrite getElementById_None in Hfree by done.
  rewrite getAttribute_setAttribute in Hs'. rewrite getAttribute_setAttribute.
  destruct (decide (t = m ∧ "id" = "id" ∧ t < length (nodes w))) as [(-> & _ & Hlt)|Hnm].
  - rewrite decide_False in Hs' by (intros (? & _); congruence).
    intros [= ->]. by apply (Hfree n).
  - destruct (decide (t = n ∧ "id" = "id" ∧ t < length (nodes w))) as [(-> & _ & Hlt)|Hnn].
    + injection Hs' as <-. apply Hfree.
    + destruct Hn as [Hn| ->]; [by apply (HP n)|].
      exfalso. unfold getAttribute in Hs'.
      rewrite lookup_ge_None_2 in Hs'; [done|].
      destruct (decide (t < length (nodes w))); [tauto|lia].
Qed.

Lemma has_id_assign t s n (w : Page) :
  is_Some (getAttribute n "id" w) ∨ (n = t ∧ n < length (nodes w)) →
  is_Some (getAttribute n "id" (setAttribute t "id" s w)).
Proof.
  rewrite getAttribute_setAttribute. intros [H|[-> H]]; case_decide; eauto.
  tauto.
Qed.

Lemma loop_inv_nil (P : Node → Prop) (w : Page) :
  (∀ n, P n → unique_id n w) → loop_inv P [] w w.
Proof.
  intros HP. split_and!; [apply same_page_refl| |].
  - intros n [?|Hn]; [by apply HP|]. by apply elem_of_nil in Hn.
  - intros n [?|[Hn _]]; [done|]. by apply elem_of_nil in Hn.
Qed.

(** One round of either loop: the element [t] takes the free id [s], the
    rest of the round ([w2]) keeps the ids, and the remaining rounds keep
    the invariant. *)
Lemma loop_inv_cons (P : Node → Prop) t s rest (w w2 w' : Page) :
  s ≠ "" →
  getElementById s w = None →
  (∀ n, P n → unique_id n w) →
  ids_kept (setAttribute t "id" s w) w2 →
  same_page w w2 →
  ((∀ n, P n ∨ n = t → unique_id n w2) → loop_inv (λ n, P n ∨ n = t) rest w2 w') →
  loop_inv P (t :: rest) w w'.
Proof.
  intros Hs Hfree HP Hk Hsp Hrec.
  destruct Hrec as (Hsp' & Hu & Hh).
  { intros n Hn. eapply unique_id_kept; [exact Hk|]. by apply (unique_id_assign P). }
  split_and!.
  - by eapply same_page_trans.
  - intros n [Hn|Hn]; [apply Hu; tauto|].
    apply elem_of_cons in Hn as [->|Hn]; apply Hu; tauto.
  - intros n Hn. apply Hh.
    destruct Hn as [Hn|[Hn Hlt]].
    + left. rewrite Hk. apply has_id_assign. tauto.
    + apply elem_of_cons in Hn as [->|Hn].
      * left. rewrite Hk. apply has_id_assign. tauto.
      * right. split; [done|]. by rewrite (sp_length _ _ Hsp).
Qed.

Ltac ids_step :=
  first [ rewrite getAttribute_setAttribute_other by done
        | rewrite getAttribute_addEventListener
        | rewrite getAttribute_setDisplay
        | rewrite ids_kept_close ].

Ltac same_page_step :=
  repeat first
    [ apply same_page_refl
    | eapply same_page_trans; [|apply same_page_alter]
    | eapply same_page_trans; [|apply same_page_close] ].

Lemma init_triggers_inv this prefixId id triggers :
  ∀ index (w : Page) k w' (P : Node → Prop),
    init_triggers this prefixId id triggers index w = Ok (k, w') →
    (∀ n, P n → unique_id n w) →
    loop_inv P triggers w w'.
Proof.
  induction triggers as [|t rest IH]; intros index w k w' P; cbn [init_triggers].
  - intros [= _ <-] HP. by apply loop_inv_nil.
  - destruct (probe (probe_fuel w) (triggerId prefixId id) (index + 1) w) as [i|] eqn:Hp;
      [|done].
    apply probe_free in Hp. intros Hrec HP.
    eapply loop_inv_cons; [apply triggerId_nonempty|exact Hp|exact HP| | |by eapply IH].
    + intros n. by repeat ids_step.
    + unfold setAttribute, addEventListener. same_page_step.
Qed.

Lemma init_panels_inv this prefixId id closedDefault triggers panels :
  ∀ index (w : Page) k w' (P : Node → Prop),
    init_panels this prefixId id closedDefault triggers panels index w = Ok (k, w') →
    (∀ n, P n → unique_id n w) →
    loop_inv P panels w w'.
Proof.
  induction panels as [|p rest IH]; intros index w k w' P; cbn [init_panels].
  - intros [= _ <-] HP. by apply loop_inv_nil.
  - destruct (probe (probe_fuel w) (panelId prefixId id) (index + 1) w) as [i|] eqn:Hp;
      [|done].
    apply probe_free in Hp. intros Hrec HP.
    destruct closedDefault; [destruct (triggers !! index) as [t|]; [|done]|];
      cbn [mbind result_bind] in Hrec;
      (eapply loop_inv_cons; [apply panelId_nonempty|exact Hp|exact HP| | |by eapply IH]).
    + intros n. case_decide; by repeat ids_step.
    + case_decide; unfold setAttribute, setDisplay; same_page_step.
    + intros n. case_decide; by repeat ids_step.
    + case_decide; unfold setAttribute, setDisplay; same_page_step.
Qed.

Lemma init_triggers_total this prefixId id triggers index (w : Page) :
  ∃ k w', init_triggers this prefixId id triggers index w = Ok (k, w').
Proof.
  revert index w. induction triggers as [|t rest IH]; intros index w; cbn [init_triggers].
  - eauto.
  - destruct (probe_total (triggerId prefixId id) (index + 1) w (triggerId_inj _ _))
      as [i ->].
    apply IH.
Qed.

(** The second loop throws only when it is to close the panels and the
    group has no trigger at [index]. *)
Lemma init_panels_total this prefixId id closedDefault triggers panels index (w : Page) :
  closedDefault = false ∨ is_Some (triggers !! index) →
  ∃ k w', init_panels this prefixId id closedDefault triggers panels index w = Ok (k, w').
Proof.
  intros Hc. revert w. induction panels as [|p rest IH]; intros w; cbn [init_panels].
  - eauto.
  - destruct (probe_total (panelId prefixId id) (index + 1) w (panelId_inj _ _))
      as [i ->].
    destruct closedDefault.
    + destruct Hc as [?|[t Ht]]; [done|]. rewrite Ht. cbn [mbind result_bind]. apply IH.
    + cbn [mbind result_bind]. apply IH.
Qed.



Lemma reachCalls_slides (w w' : Page) l :
  log w' = log w ++ l → Forall (λ x, ∃ n, x = SlideUp n) l → reachCalls w' = reachCalls w.
Proof.
  intros E F. unfold reachCalls. rewrite E, filter_app.
  replace (filter isReachCall l) with (@nil Effect); [by rewrite app_nil_r|].
  clear E. induction F as [|x l' [n ->] _ IH]; [done|].
  rewrite filter_cons_False; [done|]. simpl. tauto.
Qed.

Lemma heap_update_eq this f (w : Page) a :
  heap w !! this = Some a → heap (update this f w) !! this = Some (f a).
Proof. intros H. unfold update. simpl. by rewrite lookup_alter_eq, H. Qed.

Lemma heap_update_ne this r f (w : Page) :
  r ≠ this → heap (update this f w) !! r = heap w !! r.
Proof. intros H. unfold update. simpl. by rewrite lookup_alter_ne. Qed.

Section InitSpec.
Variables (this : Ref) (id : string) (w : Page) (a : Widget) (P : Node → Prop).
Hypothesis Hthis : heap w !! this = Some a.

Let triggers := select w (element a) (triggerSelector (options a)).
Let panels := select w (element a) (panelSelector (options a)).

Lemma init_prologue_post (w5 : Page) :
  nodes w5 = nodes (setAttribute (element a) "data-id" id w) →
  heap w5 !! this = Some (initialised a (innerWidth w)) →
  (∀ r, r ≠ this → heap w5 !! r = heap w !! r) →
  registry w5 = registry w → select w5 = select w →
  activeElement w5 = activeElement w → windowListeners w5 = windowListeners w →
  innerWidth w5 = innerWidth w →
  documentListeners w5
  = add_listener "keydown" (PrototypeMethod "_handleKeydown") (documentListeners w) →
  reachCalls w5 = reachCalls w →
  init_post this a w w5 ∧ ids_kept w w5.
Proof.
  intros Hn **. split; [split; try done|].
  - rewrite Hn. simpl. by rewrite length_alter.
  - intros n. unfold getAttribute at 1. rewrite Hn.
    fold (getAttribute n "id" (setAttribute (element a) "data-id" id w)).
    by rewrite getAttribute_setAttribute_other.
Qed.

(** What [init] has done when it returns. *)
Lemma init_ok w' :
  init this id w = Ok w' →
  (∀ n, P n → unique_id n w) →
  init_post this a w w'
  ∧ (∀ n, P n ∨ n ∈ triggers ∨ n ∈ panels → unique_id n w')
  ∧ (∀ n, is_Some (getAttribute n "id" w)
          ∨ ((n ∈ triggers ∨ n ∈ panels) ∧ n < length (nodes w)) →
          is_Some (getAttribute n "id" w')).
Proof.
  unfold init. rewrite Hthis.
  match goal with
  | |- (mbind _ (init_triggers _ _ _ _ _ ?x)) = _ → _ => set (w5 := x)
  end.
  assert (H5 : init_post this a w w5 ∧ ids_kept w w5).
  { unfold w5. clear w5.
    destruct (onInit (options a)) as [f|], (active a) eqn:Hact,
      (closedDefault (options a)) eqn:Hclosed; simpl.
    all: destruct (reachAtInit _ _) as [r|] eqn:Hr; simpl.
    all: apply init_prologue_post; try done.
    all: try (unfold update; simpl; rewrite ?lookup_alter_eq, Hthis; simpl;
              unfold initialised; simpl; by rewrite ?Hr, ?Hclosed).
    all: try (intros r' Hne; unfold update; simpl; by rewrite ?lookup_alter_ne).
    all: try reflexivity.
    all: unfold reachCalls; simpl; rewrite filter_app, filter_cons_False;
      [by rewrite filter_nil, app_nil_r|simpl; tauto]. }
  destruct H5 as [Hpost Hkept].
  fold triggers. fold panels.
  destruct (init_triggers this (prefixId (options a)) id triggers 0 w5)
    as [[k1 w6]| |] eqn:E6; [|done..].
  cbn [mbind result_bind].
  destruct (init_panels this (prefixId (options a)) id (closedDefault (options a))
              triggers panels 0 w6) as [[k2 w7]| |] eqn:E7; [|done..].
  cbn [mbind result_bind]. intros [= <-] HP.
  apply (init_triggers_inv _ _ _ _ _ _ _ _ P) in E6 as (Hs6 & Hu6 & Hh6);
    [|intros n Hn; eapply unique_id_kept; [exact Hkept|by apply HP]].
  apply (init_panels_inv _ _ _ _ _ _ _ _ _ _ (λ n, P n ∨ n ∈ triggers)) in E7
    as (Hs7 & Hu7 & Hh7); [|exact Hu6].
  pose proof (same_page_trans _ _ _ Hs6 Hs7) as Hs.
  destruct Hpost, Hs. split_and!.
  - split; try congruence.
    + intros r Hr. rewrite sp_heap0. by apply ip_others0.
    + destruct sp_log0 as (l & El & Fl). rewrite <- ip_reach0.
      by eapply reachCalls_slides.
  - intros n Hn. apply Hu7. tauto.
  - intros n Hn. apply Hh7. rewrite (sp_length _ _ Hs6), ip_length0.
    destruct Hn as [Hn|[[Hn|Hn] Hlt]]; [left|left|right; tauto].
    + apply Hh6. left. by rewrite Hkept.
    + apply Hh6. right. by rewrite ip_length0.
Qed.

(** [init] returns: its loops end, and it throws only when it is to
    close the panels of a group that has no trigger. *)
Lemma init_total :
  closedDefault (options a) = false ∨ is_Some (triggers !! 0) →
  ∃ w', init this id w = Ok w'.
Proof.
  intros Hcd. unfold init. rewrite Hthis.
  match goal with
  | |- ∃ w', (mbind _ (init_triggers _ _ _ _ _ ?x)) = _ => set (w5 := x)
  end.
  fold triggers. fold panels.
  destruct (init_triggers_total this (prefixId (options a)) id triggers 0 w5)
    as (k1 & w6 & E6).
  rewrite E6. cbn [mbind result_bind].
  destruct (init_panels_total this (prefixId (options a)) id (closedDefault (options a))
              triggers panels 0 w6) as (k2 & w7 & E7); [exact Hcd|].
  rewrite E7. cbn [mbind result_bind]. eauto.
Qed.

End InitSpec.

(** *** What [init] does not do

    Unless it is to close all the panels, [init] changes the display of
    no element: the guard [index !== 0] of its second loop never holds. *)

Lemma init_triggers_display this prefixId id triggers :
  ∀ index (w : Page) k w',
    init_triggers this prefixId id triggers index w = Ok (k, w') →
    ∀ n, getComputedDisplay n w' = getComputedDisplay n w.
Proof.
  induction triggers as [|t rest IH]; intros index w k w'; cbn [init_triggers].
  - by intros [= _ <-].
  - destruct (probe _ _ _ _) as [i|]; [|done].
    intros Hrec n. rewrite (IH _ _ _ _ Hrec).
    by rewrite !getComputedDisplay_addEventListener, !getComputedDisplay_setAttribute.
Qed.

Lemma init_panels_display this prefixId id triggers panels :
  ∀ (w : Page) k w',
    init_panels this prefixId id false triggers panels 0 w = Ok (k, w') →
    ∀ n, getComputedDisplay n w' = getComputedDisplay n w.
Proof.
  induction panels as [|p rest IH]; intros w k w'; cbn [init_panels].
  - by intros [= _ <-].
  - destruct (probe _ _ _ _) as [i|]; [|done].
    rewrite decide_False by (intros H; by apply H).
    cbn [mbind result_bind]. intros Hrec n. rewrite (IH _ _ _ Hrec).
    by rewrite !getComputedDisplay_setAttribute.
Qed.

Lemma init_keeps_display this id (w w' : Page) a :
  heap w !! this = Some a →
  closedDefault (options a) = false →
  init this id w = Ok w' →
  ∀ n, getComputedDisplay n w' = getComputedDisplay n w.
Proof.
  intros Ha Hcd. unfold init. rewrite Ha, Hcd.
  match goal with
  | |- (mbind _ (init_triggers _ _ _ _ _ ?x)) = _ → _ => set (w5 := x)
  end.
  assert (H5 : nodes w5 = nodes (setAttribute (element a) "data-id" id w)).
  { unfold w5. destruct (onInit (options a)), (active a); simpl;
      by destruct (reachAtInit _ _). }
  destruct (init_triggers _ _ _ _ _ w5) as [[k1 w6]| |] eqn:E6; [|done..].
  cbn [mbind result_bind].
  destruct (init_panels _ _ _ _ _ _ _ w6) as [[k2 w7]| |] eqn:E7; [|done..].
  cbn [mbind result_bind]. intros [= <-] n.
  rewrite (init_panels_display _ _ _ _ _ _ _ _ E7),
    (init_triggers_display _ _ _ _ _ _ _ _ E6),
    (getComputedDisplay_nodes _ _ _ H5).
  apply getComputedDisplay_setAttribute.
Qed.

(** *** Clicks *)

Lemma run_focus_listener_frame type (w : Page) x :
  nodes (run_focus_listener type w x) = nodes w
  ∧ log (run_focus_listener type w x) = log w
  ∧ activeElement (run_focus_listener type w x) = activeElement w
  ∧ select (run_focus_listener type w x) = select w.
Proof.
  unfold run_focus_listener. destruct x as [t [| | |]]; try done.
  destruct (negb _); [done|]. destruct (name =? _); [done|]. by destruct (name =? _).
Qed.

Lemma deliver_frame n type (w : Page) :
  nodes (deliver n type w) = nodes w
  ∧ log (deliver n type w) = log w
  ∧ activeElement (deliver n type w) = activeElement w
  ∧ select (deliver n type w) = select w.
Proof.
  unfold deliver. destruct (nodes w !! n) as [e|]; [|done].
  split_and!; apply foldl_preserves; intros; apply run_focus_listener_frame.
Qed.

Lemma focusNode_frame n (w : Page) :
  nodes (focusNode n w) = nodes w
  ∧ log (focusNode n w) = log w
  ∧ activeElement (focusNode n w) = Some n
  ∧ select (focusNode n w) = select w.
Proof.
  unfold focusNode. case_decide; [done|].
  destruct (activeElement w) as [old|].
  - destruct (deliver_frame n "focus" (with_activeElement (Some n) (deliver old "blur" w)))
      as (-> & -> & -> & ->).
    simpl. by destruct (deliver_frame old "blur" w) as (-> & -> & _ & ->).
  - by destruct (deliver_frame n "focus" (with_activeElement (Some n) w))
      as (-> & -> & -> & ->).
Qed.

(** [open] on a panel that is displayed: it is given [display: block]
    and its first focusable element, if any, takes the focus. *)
Lemma open_displayed this panel (w : Page) a :
  heap w !! this = Some a →
  isClosed panel w = false →
  nodes (open this panel w) = nodes (setDisplay panel "block" w)
  ∧ log (open this panel w) = log w
  ∧ activeElement (open this panel w)
    = match select w panel FOCUSABLE_ELEMENTS !! 0 with
      | Some f => Some f
      | None => activeElement w
      end
  ∧ select (open this panel w) = select w.
Proof.
  intros Ha Hc. unfold open. rewrite Ha.
  replace (isClosed panel (update this (with_activePanel (Some panel)) w))
    with (isClosed panel w) by done.
  rewrite Hc, andb_false_r. simpl.
  destruct (select w panel FOCUSABLE_ELEMENTS !! 0) as [f|]; [|done].
  by destruct (focusNode_frame f
                 (setDisplay panel "block" (update this (with_activePanel (Some panel)) w)))
    as (-> & -> & -> & ->).
Qed.

Lemma call_frame f x (w : Page) :
  nodes (call f x w) = nodes w
  ∧ activeElement (call f x w) = activeElement w
  ∧ log (call f x w) = log w ++ match f with Some name => [x name] | None => [] end.
Proof. destruct f; simpl; [done|]. by rewrite app_nil_r. Qed.

Lemma isClosed_nodes p (w w' : Page) : nodes w' = nodes w → isClosed p w' = isClosed p w.
Proof. intros H. unfold isClosed. by rewrite (getComputedDisplay_nodes _ _ _ H). Qed.

(** The [forEach] of the click handler when the label of the clicked
    panel is the clicked trigger and every other panel is closed: all it
    does is clear the [aria-expanded] of the clicked trigger. *)
Lemma collapse_others_closed this onClose trigger panel pid lab (w : Page) panels :
  getAttribute trigger "aria-controls" w = Some pid →
  getElementById pid w = Some panel →
  Forall (λ p, p = panel ∨ isClosed p w = true) panels →
  let w' := foldl (collapseOther this onClose (Some trigger) lab) w panels in
  w' = w ∨ w' = setAttribute trigger "aria-expanded" "false" w.
Proof.
  intros Hc Hp Hall. simpl.
  assert (Hstep : ∀ wk p, p ∈ panels →
            wk = w ∨ wk = setAttribute trigger "aria-expanded" "false" w →
            collapseOther this onClose (Some trigger) lab wk p = wk
            ∨ collapseOther this onClose (Some trigger) lab wk p
              = setAttribute trigger "aria-expanded" "false" w).
  { intros wk p Hin Hwk. unfold collapseOther.
    assert (Hid : idOf p wk = idOf p w).
    { unfold idOf. destruct Hwk as [->| ->]; [done|].
      by rewrite getAttribute_setAttribute_other. }
    assert (Hctl : getAttribute trigger "aria-controls" wk = Some pid).
    { destruct Hwk as [->| ->]; [done|]. by rewrite getAttribute_setAttribute_other. }
    rewrite Hid, Hctl.
    destruct (bool_decide (Some (idOf p w) ≠ Some pid) && Js.truthy lab) eqn:Hcond;
      [|by left].
    apply andb_prop in Hcond as [Hne _]. apply bool_decide_eq_true in Hne.
    assert (Hpc : isClosed p w = true).
    { rewrite Forall_forall in Hall. destruct (Hall p Hin) as [->|?]; [|done].
      exfalso. apply Hne. unfold idOf. by rewrite (getElementById_Some _ _ _ Hp). }
    assert (Hw2 : setAttribute trigger "aria-expanded" "false" wk
                  = setAttribute trigger "aria-expanded" "false" w).
    { destruct Hwk as [->| ->]; [done|]. apply setAttribute_twice. }
    rewrite Hw2. unfold isClosed in *.
    rewrite getComputedDisplay_setAttribute, Hpc. by right. }
  assert (Hgen : ∀ l wk, (∀ p, p ∈ l → p ∈ panels) →
            wk = w ∨ wk = setAttribute trigger "aria-expanded" "false" w →
            foldl (collapseOther this onClose (Some trigger) lab) wk l = w
            ∨ foldl (collapseOther this onClose (Some trigger) lab) wk l
              = setAttribute trigger "aria-expanded" "false" w).
  { induction l as [|p l IH]; intros wk Hsub Hwk; cbn [foldl]; [done|].
    apply IH; [intros q Hq; apply Hsub; by right|].
    destruct (Hstep wk p) as [->| ->]; [apply Hsub; by left|done..|by right]. }
  by apply Hgen; [|left].
Qed.

Lemma collapse_no_label this onClose lab (w : Page) panels :
  foldl (collapseOther this onClose None lab) w panels = w.
Proof. induction panels as [|p l IH]; simpl; done. Qed.

(** *** Clicks keep at most one panel displayed *)

Lemma click_frame_refl w : click_frame w w.
Proof. split; try done. intros r a Ha. by exists a. Qed.

Lemma click_frame_trans w1 w2 w3 : click_frame w1 w2 → click_frame w2 w3 → click_frame w1 w3.
Proof.
  intros [A1 L1 S1 H1] [A2 L2 S2 H2]. split; try congruence.
  - intros n name Hn. by rewrite A2, A1.
  - intros r a Ha. destruct (H1 r a Ha) as (a' & Ha' & E1 & E2).
    destruct (H2 r a' Ha') as (a'' & Ha'' & F1 & F2).
    exists a''. split_and!; congruence.
Qed.

Lemma click_frame_nodes (w w' : Page) :
  nodes w' = nodes w → select w' = select w →
  (∀ r a, heap w !! r = Some a →
          ∃ a', heap w' !! r = Some a' ∧ element a' = element a ∧ options a' = options a) →
  click_frame w w'.
Proof.
  intros Hn Hs Hh. split; try done; [|by rewrite Hn].
  intros n name _. by apply getAttribute_nodes.
Qed.

Lemma click_frame_expanded t v (w : Page) :
  click_frame w (setAttribute t "aria-expanded" v w).
Proof.
  split; try done.
  - intros n name Hn. by apply getAttribute_setAttribute_other.
  - simpl. by rewrite length_alter.
  - intros r a Ha. by exists a.
Qed.

Lemma click_frame_setDisplay p d (w : Page) : click_frame w (setDisplay p d w).
Proof.
  split; try done.
  - intros n name _. apply getAttribute_setDisplay.
  - simpl. by rewrite length_alter.
  - intros r a Ha. by exists a.
Qed.

Lemma click_frame_emit x (w : Page) : click_frame w (emit x w).
Proof. apply click_frame_nodes; try done. intros r a Ha. by exists a. Qed.

Lemma click_frame_call f x (w : Page) : click_frame w (call f x w).
Proof. destruct f; [apply click_frame_emit|apply click_frame_refl]. Qed.

Lemma click_frame_update this (f : Widget → Widget) (w : Page) :
  (∀ a, element (f a) = element a ∧ options (f a) = options a) →
  click_frame w (update this f w).
Proof.
  intros Hf. apply click_frame_nodes; try done. intros r a Ha. unfold update. simpl.
  destruct (decide (r = this)) as [->|Hne].
  - exists (f a). rewrite lookup_alter_eq, Ha. split; [done|apply Hf].
  - exists a. by rewrite lookup_alter_ne.
Qed.

Lemma click_frame_close this p (w : Page) : click_frame w (close this p w).
Proof.
  unfold close. destruct (heap w !! this) as [a|]; [|apply click_frame_refl].
  destruct (hasAnimation (options a)); [apply click_frame_emit|apply click_frame_setDisplay].
Qed.

Lemma click_frame_run_focus_listener type (w : Page) x :
  click_frame w (run_focus_listener type w x).
Proof.
  unfold run_focus_listener. destruct x as [t [| | |]]; try apply click_frame_refl.
  destruct (negb _); [apply click_frame_refl|].
  destruct (name =? _); [by apply click_frame_update|].
  destruct (name =? _); [by apply click_frame_update|apply click_frame_refl].
Qed.

Lemma click_frame_deliver n type (w : Page) : click_frame w (deliver n type w).
Proof.
  unfold deliver. destruct (nodes w !! n) as [e|]; [|apply click_frame_refl].
  generalize (listeners e). intros ls. revert w.
  induction ls as [|x ls IH]; intros w; simpl; [apply click_frame_refl|].
  eapply click_frame_trans; [apply click_frame_run_focus_listener|apply IH].
Qed.

Lemma click_frame_focusNode n (w : Page) : click_frame w (focusNode n w).
Proof.
  unfold focusNode. case_decide; [apply click_frame_refl|].
  eapply click_frame_trans; [|apply click_frame_deliver].
  destruct (activeElement w) as [old|].
  - apply (click_frame_trans _ (deliver old "blur" w)); [apply click_frame_deliver|].
    apply click_frame_nodes; [done..|]. intros r a Ha. by exists a.
  - apply click_frame_nodes; [done..|]. intros r a Ha. by exists a.
Qed.

Lemma click_frame_open this p (w : Page) : click_frame w (open this p w).
Proof.
  unfold open. destruct (heap w !! this) as [a|]; [|apply click_frame_refl].
  eapply click_frame_trans; [by apply (click_frame_update this (with_activePanel (Some p)))|].
  destruct (_ && _); [apply click_frame_emit|].
  eapply click_frame_trans; [apply click_frame_setDisplay|].
  destruct (_ !! 0); [apply click_frame_focusNode|apply click_frame_refl].
Qed.

Lemma click_frame_collapseOther this oc t' lab (w : Page) p :
  click_frame w (collapseOther this oc t' lab w p).
Proof.
  unfold collapseOther. destruct t' as [t'|]; [|apply click_frame_refl].
  destruct (_ && _); [|apply click_frame_refl].
  eapply click_frame_trans; [apply click_frame_expanded|].
  destruct (negb _); [|apply click_frame_refl].
  eapply click_frame_trans; [apply click_frame_close|apply click_frame_call].
Qed.

Lemma click_frame_collapse this oc t' lab ps (w : Page) :
  click_frame w (foldl (collapseOther this oc t' lab) w ps).
Proof.
  revert w. induction ps as [|p ps IH]; intros w; simpl; [apply click_frame_refl|].
  eapply click_frame_trans; [apply click_frame_collapseOther|apply IH].
Qed.

Lemma click_frame_click this trigger (w : Page) :
  click_frame w (_handleButtonClick this trigger w).
Proof.
  unfold _handleButtonClick. destruct (heap w !! this) as [a|]; [|apply click_frame_refl].
  destruct (negb _); [apply click_frame_refl|].
  destruct (getElementById _ w) as [panel|]; [|apply click_frame_refl].
  destruct (_ && _).
  - eapply click_frame_trans; [apply click_frame_expanded|].
    eapply click_frame_trans; [apply click_frame_close|apply click_frame_call].
  - eapply click_frame_trans; [|apply click_frame_call].
    eapply click_frame_trans; [|apply click_frame_open].
    eapply click_frame_trans; [|apply click_frame_expanded].
    destruct (_ && _); [apply click_frame_collapse|apply click_frame_refl].
Qed.

Lemma wired_frame this el o (w w' : Page) :
  click_frame w w' → wired this el o w → wired this el o w'.
Proof.
  intros [Hattr Hlen Hsel Hheap] [(a & Ha & He & Ho) Hnd Hn Hids Hlab].
  assert (Hid : ∀ s, getElementById s w' = getElementById s w).
  { intros s. apply getElementById_ids. intros n. by apply Hattr. }
  split; rewrite ?Hsel, ?Hlen; try done.
  - destruct (Hheap this a Ha) as (a' & Ha' & E1 & E2). exists a'.
    split_and!; congruence.
  - intros p Hp. apply (unique_id_kept p w); [|by apply Hids].
    intros n. by apply Hattr.
  - intros t pid panel Hc Hp. rewrite Hattr in Hc by done. rewrite Hid in Hp.
    destruct (Hlab t pid panel Hc Hp) as (tid & t' & H1 & H2 & H3 & H4).
    exists tid, t'. rewrite !Hattr by done. by rewrite Hid.
Qed.

Lemma isClosed_setAttribute n k v q (w : Page) :
  isClosed q (setAttribute n k v w) = isClosed q w.
Proof. unfold isClosed. by rewrite getComputedDisplay_setAttribute. Qed.

Lemma isClosed_hidden p q (w : Page) :
  isClosed q (setDisplay p "none" w)
  = if decide (p = q ∧ p < length (nodes w)) then true else isClosed q w.
Proof.
  unfold isClosed. rewrite getComputedDisplay_setDisplay. by case_decide.
Qed.

Lemma isClosed_shown p q (w : Page) :
  isClosed q (setDisplay p "block" w)
  = if decide (p = q ∧ p < length (nodes w)) then false else isClosed q w.
Proof.
  unfold isClosed. rewrite getComputedDisplay_setDisplay. by case_decide.
Qed.

Lemma isClosed_call f x q (w : Page) : isClosed q (call f x w) = isClosed q w.
Proof. apply isClosed_nodes. by destruct f. Qed.

(** Without animation [close] hides the panel at once, and hides
    nothing else. *)
Lemma isClosed_close this a p q (w : Page) :
  heap w !! this = Some a → hasAnimation (options a) = false →
  isClosed q (close this p w)
  = if decide (p = q ∧ p < length (nodes w)) then true else isClosed q w.
Proof. intros Ha Hn. unfold close. rewrite Ha, Hn. apply isClosed_hidden. Qed.

(** Without animation [open] shows the panel at once, and shows nothing
    else. *)
Lemma isClosed_open this a p q (w : Page) :
  heap w !! this = Some a → hasAnimation (options a) = false →
  isClosed q (open this p w)
  = if decide (p = q ∧ p < length (nodes w)) then false else isClosed q w.
Proof.
  intros Ha Hn. unfold open. rewrite Ha, Hn. cbn [andb].
  rewrite <- (isClosed_shown p q w).
  destruct (_ !! 0) as [f|]; [|done].
  apply isClosed_nodes. by destruct (focusNode_frame f
    (setDisplay p "block" (update this (with_activePanel (Some p)) w))) as (-> & _).
Qed.

(** One round of the [forEach]: what was closed stays closed, and a
    panel with another id than the one the label controls is closed. *)
Lemma collapseOther_closes this a oc t' lab p (w : Page) :
  heap w !! this = Some a → hasAnimation (options a) = false →
  let w1 := collapseOther this oc (Some t') lab w p in
  (∀ q, isClosed q w = true → isClosed q w1 = true)
  ∧ (Some (idOf p w) ≠ getAttribute t' "aria-controls" w →
     Js.truthy lab = true → p < length (nodes w) → isClosed p w1 = true).
Proof.
  intros Ha Hn. simpl. unfold collapseOther.
  destruct (bool_decide _ && Js.truthy lab) eqn:Hcond.
  - apply andb_prop in Hcond as [_ Hlab].
    set (w2 := setAttribute t' "aria-expanded" "false" w).
    assert (Hc2 : ∀ q, isClosed q w2 = isClosed q w)
      by (intros q; apply isClosed_setAttribute).
    rewrite Hc2. destruct (isClosed p w) eqn:Hp; cbn [negb].
    + split; [intros q; by rewrite Hc2|]. intros _ _ _. by rewrite Hc2.
    + assert (Hcl : ∀ q, isClosed q
                (call oc (λ f, CallOnClose f p) (close this p w2))
                = if decide (p = q ∧ p < length (nodes w)) then true else isClosed q w).
      { intros q. rewrite isClosed_call, (isClosed_close this a p q w2 Ha Hn).
        rewrite Hc2. unfold w2. simpl. by rewrite length_alter. }
      split.
      * intros q Hq. rewrite Hcl. by destruct (decide _).
      * intros _ _ Hlt. rewrite Hcl. by rewrite decide_True.
  - split; [done|]. intros Hne Hlab _. exfalso.
    rewrite Hlab, andb_true_r in Hcond. apply bool_decide_eq_false in Hcond. done.
Qed.

Lemma collapse_closes this oc t' lab ps :
  ∀ (w : Page) a,
    heap w !! this = Some a → hasAnimation (options a) = false →
    Js.truthy lab = true →
    let w' := foldl (collapseOther this oc (Some t') lab) w ps in
    (∀ q, isClosed q w = true → isClosed q w' = true)
    ∧ (∀ p, p ∈ ps → Some (idOf p w) ≠ getAttribute t' "aria-controls" w →
            p < length (nodes w) → isClosed p w' = true).
Proof.
  induction ps as [|p ps IH]; intros w a Ha Hn Hlab; cbn [foldl].
  - split; [done|]. intros p Hp. by apply elem_of_nil in Hp.
  - set (w1 := collapseOther this oc (Some t') lab w p).
    destruct (collapseOther_closes this a oc t' lab p w Ha Hn) as [Hs Hp]. fold w1 in Hs, Hp.
    destruct (click_frame_collapseOther this oc (Some t') lab w p) as [Hattr Hlen _ Hheap].
    fold w1 in Hattr, Hlen, Hheap.
    destruct (Hheap this a Ha) as (a1 & Ha1 & _ & Ho1).
    destruct (IH w1 a1 Ha1) as [Hs' Hp']; [by rewrite Ho1|done|].
    split; [intros q Hq; by apply Hs', Hs|].
    intros q Hq Hne Hlt. apply elem_of_cons in Hq as [->|Hq].
    + apply Hs'. by apply Hp.
    + apply Hp'; [done| |by rewrite Hlen].
      unfold idOf. by rewrite !Hattr.
Qed.

(** A click either opens nothing, or closes every panel of the group
    but the one it opens. *)
Lemma click_closes_or_opens_one this el o trigger (w : Page) :
  wired this el o w → allowMultiple o = false → hasAnimation o = false →
  let w' := _handleButtonClick this trigger w in
  (∀ q, isClosed q w = true → isClosed q w' = true)
  ∨ (∃ panel, ∀ q, q ∈ select w el (panelSelector o) → q ≠ panel →
                   isClosed q w' = true).
Proof.
  intros [(a & Ha & <- & <-) Hnd Hn Hids Hlab] Hm Han. simpl.
  unfold _handleButtonClick. rewrite Ha.
  destruct (Js.truthy (getAttribute trigger "aria-controls" w)) eqn:Ht; [|by left].
  destruct (getAttribute trigger "aria-controls" w) as [pid|] eqn:Hc; [|done].
  assert (Hpid : pid ≠ "").
  { simpl in Ht. apply negb_true_iff in Ht. by apply String.eqb_neq. }
  cbn [negb]. change (default "" (Some pid)) with pid.
  destruct (getElementById pid w) as [panel|] eqn:Hp; [|by left].
  destruct (bool_decide _ && _).
  - left. intros q Hq.
    rewrite isClosed_call,
      (isClosed_close this a panel q (setAttribute trigger "aria-expanded" "false" w) Ha Han),
      isClosed_setAttribute.
    by destruct (decide _).
  - right. exists panel. intros q Hq Hne.
    destruct (Hlab trigger pid panel Hc Hp) as (tid & t' & Hl1 & Hl2 & Hl3 & Hl4).
    rewrite Hm, Hl1. cbn [negb andb].
    assert (Htid : Js.truthy (Some tid) = true).
    { simpl. apply negb_true_iff. by apply String.eqb_neq. }
    rewrite Htid. change (default "" (Some tid)) with tid. rewrite Hl3.
    set (wk := foldl _ w _).
    destruct (collapse_closes this (onClose (options a)) t' (Some tid)
                (select w (element a) (panelSelector (options a))) w a Ha Han Htid)
      as [_ Hcl].
    fold wk in Hcl.
    destruct (click_frame_collapse this (onClose (options a)) (Some t') (Some tid)
                (select w (element a) (panelSelector (options a))) w)
      as [_ Hlen _ Hheap].
    fold wk in Hlen, Hheap.
    destruct (Hheap this a Ha) as (ak & Hak & _ & Hok).
    assert (Hq' : isClosed q wk = true).
    { apply Hcl; [done| |by apply Hn]. rewrite Hl4. intros [= Hid].
      assert (Hqid : getAttribute q "id" w = Some pid).
      { unfold idOf in Hid. destruct (getAttribute q "id" w); simpl in Hid; congruence. }
      apply (Hids q Hq pid Hqid panel); [done|]. by apply getElementById_Some. }
    rewrite isClosed_call,
      (isClosed_open this ak panel q (setAttribute trigger "aria-expanded" "true" wk) Hak)
      by by rewrite Hok.
    rewrite decide_False by (intros [? _]; done).
    by rewrite isClosed_setAttribute.
Qed.

(** [open], [close] and the callbacks write no attribute. *)
Lemma getAttribute_close this p n name (w : Page) :
  getAttribute n name (close this p w) = getAttribute n name w.
Proof.
  unfold close. destruct (heap w !! this) as [a|]; [|done].
  destruct (hasAnimation (options a)); [done|]. apply getAttribute_setDisplay.
Qed.

Lemma getAttribute_open this p n name (w : Page) :
  getAttribute n name (open this p w) = getAttribute n name w.
Proof.
  unfold open. destruct (heap w !! this) as [a|]; [|done].
  destruct (_ && _); [done|].
  set (w2 := setDisplay p "block" (update this (with_activePanel (Some p)) w)).
  assert (H2 : getAttribute n name w2 = getAttribute n name w)
    by (unfold w2; by rewrite getAttribute_setDisplay).
  destruct (_ !! 0) as [f|]; [|done].
  rewrite <- H2. apply getAttribute_nodes. by destruct (focusNode_frame f w2) as (-> & _).
Qed.

Lemma getAttribute_call f x n name (w : Page) :
  getAttribute n name (call f x w) = getAttribute n name w.
Proof. by destruct f. Qed.

(** [open] and [close] change the display of the panel they are given
    and of no other element, with or without animation. *)
Lemma isClosed_close_other this p q (w : Page) :
  q ≠ p → isClosed q (close this p w) = isClosed q w.
Proof.
  intros Hne. unfold close. destruct (heap w !! this) as [a|]; [|done].
  destruct (hasAnimation (options a)); [done|].
  rewrite isClosed_hidden. by rewrite decide_False by (intros [? _]; congruence).
Qed.

Lemma isClosed_open_other this p q (w : Page) :
  q ≠ p → isClosed q (open this p w) = isClosed q w.
Proof.
  intros Hne. unfold open. destruct (heap w !! this) as [a|]; [|done].
  destruct (_ && _); [done|].
  set (w2 := setDisplay p "block" (update this (with_activePanel (Some p)) w)).
  assert (H2 : isClosed q w2 = isClosed q w).
  { unfold w2. rewrite isClosed_shown.
    by rewrite decide_False by (intros [? _]; congruence). }
  destruct (_ !! 0) as [f|]; [|done].
  rewrite <- H2. apply isClosed_nodes. by destruct (focusNode_frame f w2) as (-> & _).
Qed.

(** The [forEach] of the click handler writes [aria-expanded] on the
    element that labels the clicked panel and on no other. *)
Lemma expanded_collapseOther this oc t' lab p n (w : Page) :
  n ≠ t' →
  getAttribute n "aria-expanded" (collapseOther this oc (Some t') lab w p)
  = getAttribute n "aria-expanded" w.
Proof.
  intros Hne. unfold collapseOther. destruct (_ && _); [|done].
  destruct (negb _).
  - rewrite getAttribute_call, getAttribute_close, getAttribute_setAttribute.
    by rewrite decide_False by (intros [? _]; congruence).
  - rewrite getAttribute_setAttribute.
    by rewrite decide_False by (intros [? _]; congruence).
Qed.

Lemma expanded_collapse this oc t' lab ps n :
  ∀ w : Page,
    (∀ t, t' = Some t → n ≠ t) →
    getAttribute n "aria-expanded" (foldl (collapseOther this oc t' lab) w ps)
    = getAttribute n "aria-expanded" w.
Proof.
  destruct t' as [t|]; [|intros w _; by rewrite collapse_no_label].
  induction ps as [|p ps IH]; intros w Hne; cbn [foldl]; [done|].
  rewrite IH by done. apply expanded_collapseOther. by apply Hne.
Qed.

(** The branch of the click handler that opens, in a group that shows
    one panel at a time: every other panel of the group is closed, the
    panel of the trigger is displayed and the trigger is expanded. *)
Lemma click_opens this el o trigger pid panel (w : Page) :
  wired this el o w → allowMultiple o = false → hasAnimation o = false →
  getAttribute trigger "aria-controls" w = Some pid → pid ≠ "" →
  getElementById pid w = Some panel →
  forceExpand o = true ∨ getAttribute trigger "aria-expanded" w ≠ Some "true" →
  let w' := _handleButtonClick this trigger w in
  (∀ q, q ∈ select w el (panelSelector o) → q ≠ panel → isClosed q w' = true)
  ∧ isClosed panel w' = false
  ∧ getAttribute trigger "aria-expanded" w' = Some "true".
Proof.
  intros [(a & Ha & <- & <-) Hnd Hn Hids Hlab] Hm Han Hc Hpid Hp Hbranch. simpl.
  unfold _handleButtonClick. rewrite Ha, Hc.
  assert (Ht : Js.truthy (Some pid) = true).
  { simpl. apply negb_true_iff. by apply String.eqb_neq. }
  rewrite Ht. cbn [negb]. change (default "" (Some pid)) with pid. rewrite Hp.
  destruct (bool_decide _ && _) eqn:Hcond.
  { exfalso. apply andb_prop in Hcond as [H1 H2].
    rewrite Hm, andb_false_r in H2. cbn [andb] in H2. rewrite orb_false_r in H2.
    apply negb_true_iff in H2. apply bool_decide_eq_true in H1.
    destruct Hbranch; congruence. }
  rewrite Hm.
  destruct (Hlab trigger pid panel Hc Hp) as (tid & t' & Hl1 & Hl2 & Hl3 & Hl4).
  rewrite Hl1. cbn [negb andb].
  assert (Htid : Js.truthy (Some tid) = true).
  { simpl. apply negb_true_iff. by apply String.eqb_neq. }
  rewrite Htid. change (default "" (Some tid)) with tid. rewrite Hl3.
  set (wk := foldl _ w _).
  destruct (collapse_closes this (onClose (options a)) t' (Some tid)
              (select w (element a) (panelSelector (options a))) w a Ha Han Htid)
    as [_ Hcl].
  fold wk in Hcl.
  destruct (click_frame_collapse this (onClose (options a)) (Some t') (Some tid)
              (select w (element a) (panelSelector (options a))) w)
    as [_ Hlen _ Hheap].
  fold wk in Hlen, Hheap.
  destruct (Hheap this a Ha) as (ak & Hak & _ & Hok).
  set (w2 := setAttribute trigger "aria-expanded" "true" wk).
  assert (Hlen2 : length (nodes w2) = length (nodes w)).
  { unfold w2. simpl. by rewrite length_alter. }
  assert (Hplt : panel < length (nodes w)) by by eapply getElementById_lt.
  split_and!.
  - intros q Hq Hne.
    assert (Hq' : isClosed q wk = true).
    { apply Hcl; [done| |by apply Hn]. rewrite Hl4. intros [= Hid].
      assert (Hqid : getAttribute q "id" w = Some pid).
      { unfold idOf in Hid. destruct (getAttribute q "id" w); simpl in Hid; congruence. }
      apply (Hids q Hq pid Hqid panel); [done|]. by apply getElementById_Some. }
    rewrite isClosed_call, isClosed_open_other by done.
    unfold w2. by rewrite isClosed_setAttribute.
  - rewrite isClosed_call, (isClosed_open this ak panel panel w2 Hak) by by rewrite Hok.
    rewrite decide_True; [done|]. split; [done|]. by rewrite Hlen2.
  - rewrite getAttribute_call, getAttribute_open. unfold w2.
    rewrite getAttribute_setAttribute. rewrite decide_True; [done|].
    split_and!; [done..|]. rewrite Hlen.
    unfold getAttribute in Hc. destruct (nodes w !! trigger) eqn:E; [|done].
    by apply lookup_lt_Some in E.
Qed.

(** A click writes [aria-expanded] on the clicked trigger and on the
    element that labels the panel it controls, and on no other. *)
Lemma expanded_click this trigger n (w : Page) :
  n ≠ trigger →
  (∀ pid panel tid, getAttribute trigger "aria-controls" w = Some pid →
     getElementById pid w = Some panel →
     getAttribute panel "aria-labelledby" w = Some tid →
     getElementById tid w ≠ Some n) →
  getAttribute n "aria-expanded" (_handleButtonClick this trigger w)
  = getAttribute n "aria-expanded" w.
Proof.
  intros Hne Hlab. unfold _handleButtonClick.
  destruct (heap w !! this) as [a|]; [|done].
  destruct (getAttribute trigger "aria-controls" w) as [pid|] eqn:Hc; [|done].
  destruct (negb _); [done|]. change (default "" (Some pid)) with pid.
  destruct (getElementById pid w) as [panel|] eqn:Hp; [|done].
  destruct (bool_decide _ && _).
  - rewrite getAttribute_call, getAttribute_close, getAttribute_setAttribute.
    by rewrite decide_False by (intros [? _]; congruence).
  - rewrite getAttribute_call, getAttribute_open, getAttribute_setAttribute.
    rewrite decide_False by (intros [? _]; congruence).
    destruct (getAttribute panel "aria-labelledby" w) as [tid|] eqn:Hl.
    + destruct (negb _ && _); [|done].
      apply expanded_collapse. intros t Ht -> .
      by apply (Hlab pid panel tid).
    + by rewrite andb_false_r.
Qed.

Lemma filter_none {A} (P : A → Prop) `{∀ x, Decision (P x)} (l : list A) :
  (∀ x, x ∈ l → ¬ P x) → filter P l = [].
Proof.
  induction l as [|x l IH]; intros Hl; [done|].
  rewrite filter_cons_False by (apply Hl; by left).
  apply IH. intros y Hy. apply Hl. by right.
Qed.

Lemma filter_only {A} `{EqDecision A} (P : A → Prop) `{∀ x, Decision (P x)}
    (l : list A) y :
  NoDup l → y ∈ l → P y → (∀ x, x ∈ l → x ≠ y → ¬ P x) → filter P l = [y].
Proof.
  intros Hnd. induction Hnd as [|x l Hx Hnd IH]; intros Hy HP Hothers.
  - by apply elem_of_nil in Hy.
  - destruct (decide (x = y)) as [->|Hne].
    + rewrite filter_cons_True by done. f_equal. apply filter_none.
      intros z Hz. apply Hothers; [by right|]. intros ->. done.
    + rewrite filter_cons_False by (apply Hothers; [by left|done]).
      apply IH; [|done|].
      * apply elem_of_cons in Hy as [->|Hy]; done.
      * intros z Hz. apply Hothers. by right.
Qed.

Lemma length_filter_mono {A} (P Q : A → Prop) `{∀ x, Decision (P x), ∀ x, Decision (Q x)}
    (l : list A) :
  (∀ x, x ∈ l → P x → Q x) → (length (filter P l) ≤ length (filter Q l))%nat.
Proof.
  induction l as [|x l IH]; intros HPQ; [done|].
  assert (IH' : (length (filter P l) ≤ length (filter Q l))%nat).
  { apply IH. intros y Hy. apply HPQ. by right. }
  destruct (decide (P x)) as [HP|HP].
  - rewrite (filter_cons_True P) by done.
    rewrite (filter_cons_True Q) by (apply HPQ; [by left|done]). simpl. lia.
  - rewrite (filter_cons_False P) by done.
    destruct (decide (Q x)).
    + rewrite (filter_cons_True Q) by done. simpl. lia.
    + by rewrite (filter_cons_False Q).
Qed.

Lemma length_filter_one {A} `{EqDecision A} (P : A → Prop) `{∀ x, Decision (P x)}
  (l : list A) y :
  NoDup l → (∀ x, x ∈ l → x ≠ y → ¬ P x) → (length (filter P l) ≤ 1)%nat.
Proof.
  intros Hnd Hy. apply (submseteq_length _ [y]).
  apply NoDup_submseteq; [by apply NoDup_filter|].
  intros x Hx. apply list_elem_of_filter in Hx as [HP Hin].
  destruct (decide (x = y)) as [->|Hne]; [by left|].
  exfalso. by apply (Hy x).
Qed.

Lemma openPanels_wired this el o (w : Page) :
  wired this el o w →
  openPanels this w = filter (λ p, isClosed p w = false) (select w el (panelSelector o)).
Proof. intros [(a & Ha & <- & <-) _ _ _ _]. unfold openPanels. by rewrite Ha. Qed.

Lemma click_keeps_one_panel this el o trigger (w : Page) :
  wired this el o w → allowMultiple o = false → hasAnimation o = false →
  (length (openPanels this w) ≤ 1)%nat →
  (length (openPanels this (_handleButtonClick this trigger w)) ≤ 1)%nat.
Proof.
  intros Hw Hm Han Hone.
  pose proof (click_frame_click this trigger w) as Hf.
  pose proof (wired_frame _ _ _ _ _ Hf Hw) as Hw'.
  rewrite (openPanels_wired _ _ _ _ Hw'). rewrite (openPanels_wired _ _ _ _ Hw) in Hone.
  rewrite (cf_select _ _ Hf).
  destruct (click_closes_or_opens_one this el o trigger w Hw Hm Han) as [Hc|[panel Hc]].
  - etrans; [|exact Hone]. apply length_filter_mono. intros q _ Hq.
    destruct (isClosed q w) eqn:E; [|done]. apply Hc in E. congruence.
  - apply (length_filter_one _ _ panel); [apply Hw|].
    intros q Hq Hne. rewrite (Hc q Hq Hne). done.
Qed.

Lemma clicks_keep_one_panel this el o triggers (w : Page) :
  wired this el o w → allowMultiple o = false → hasAnimation o = false →
  (length (openPanels this w) ≤ 1)%nat →
  (length (openPanels this (clicks this triggers w)) ≤ 1)%nat.
Proof.
  intros Hw Hm Han. revert w Hw. unfold clicks.
  induction triggers as [|t ts IH]; intros w Hw Hone; [done|]. simpl.
  apply IH.
  - eapply wired_frame; [apply click_frame_click|done].
  - by eapply click_keeps_one_panel.
Qed.

Lemma getAttribute_outside n name (w : Page) :
  (length (nodes w) ≤ n)%nat → getAttribute n name w = None.
Proof. intros Hn. unfold getAttribute. by rewrite lookup_ge_None_2. Qed.

Lemma unique_idb_sound n (w : Page) : unique_idb n w = true → unique_id n w.
Proof.
  unfold unique_idb. rewrite forallb_forall. intros Hall s Hs m Hne Hm.
  destruct (decide (m < length (nodes w))) as [Hlt|Hge].
  - specialize (Hall m). rewrite Hm, Hs in Hall.
    rewrite bool_decide_eq_false_2, bool_decide_eq_true_2 in Hall by done.
    discriminate Hall. apply in_seq. lia.
  - rewrite getAttribute_outside in Hm by lia. done.
Qed.

Lemma labelled_sound (w : Page) t pid panel :
  labelled t w = true →
  getAttribute t "aria-controls" w = Some pid →
  getElementById pid w = Some panel →
  ∃ tid t', getAttribute panel "aria-labelledby" w = Some tid
            ∧ tid ≠ ""
            ∧ getElementById tid w = Some t'
            ∧ getAttribute t' "aria-controls" w = Some pid.
Proof.
  unfold labelled. intros Hl Hc Hp. rewrite Hc, Hp in Hl.
  destruct (getAttribute panel "aria-labelledby" w) as [tid|]; [|done].
  apply andb_true_iff in Hl as [Hne Hl].
  destruct (getElementById tid w) as [t'|] eqn:Ht'; [|done].
  exists tid, t'. split_and!; try done.
  - apply negb_true_iff in Hne. by apply String.eqb_neq.
  - by apply bool_decide_eq_true in Hl.
Qed.

Lemma wired_check this el o (w : Page) a :
  heap w !! this = Some a → element a = el → options a = o →
  NoDup (select w el (panelSelector o)) →
  forallb (λ p, bool_decide (p < length (nodes w)) && unique_idb p w)
          (select w el (panelSelector o)) = true →
  forallb (λ t, labelled t w) (seq 0 (length (nodes w))) = true →
  wired this el o w.
Proof.
  intros Ha He Ho Hnd Hps Hts. rewrite forallb_forall in Hps, Hts.
  assert (Hp : ∀ p, p ∈ select w el (panelSelector o) →
                    p < length (nodes w) ∧ unique_id p w).
  { intros p Hin. apply list_elem_of_In, Hps, andb_true_iff in Hin as [H1 H2].
    split; [by apply bool_decide_eq_true in H1|by apply unique_idb_sound]. }
  split.
  - by exists a.
  - done.
  - intros p Hin. by apply Hp.
  - intros p Hin. by apply Hp.
  - intros t pid panel Hc Hpid.
    destruct (decide (t < length (nodes w))) as [Hlt|Hge].
    + apply (labelled_sound w t); [|done..]. apply Hts, in_seq. lia.
    + rewrite getAttribute_outside in Hc by lia. done.
Qed.

(** *** [init], loop by loop *)

Lemma options_initialised a width :
  options (initialised a width)
  = if closedDefault (options a) then with_forceExpand false (options a) else options a.
Proof.
  unfold initialised. by destruct (reachAtInit _ _), (closedDefault _).
Qed.

Lemma element_initialised a width : element (initialised a width) = element a.
Proof. unfold initialised. by destruct (reachAtInit _ _), (closedDefault _). Qed.

(** [init] is its prologue, which writes [data-id] on the root and
    fields of the instance, and then its two loops. *)
Lemma init_unfold this id (w : Page) a :
  heap w !! this = Some a →
  ∃ w5 : Page,
    nodes w5 = nodes (setAttribute (element a) "data-id" id w)
    ∧ select w5 = select w
    ∧ heap w5 !! this = Some (initialised a (innerWidth w))
    ∧ init this id w
      = ('(_, w6) ← init_triggers this (prefixId (options a)) id
                      (select w (element a) (triggerSelector (options a))) 0 w5;
         '(_, w7) ← init_panels this (prefixId (options a)) id (closedDefault (options a))
                      (select w (element a) (triggerSelector (options a)))
                      (select w (element a) (panelSelector (options a))) 0 w6;
         Ok w7).
Proof.
  intros Ha. unfold init. rewrite Ha.
  match goal with
  | |- context [init_triggers _ _ _ _ _ ?x] => exists x
  end.
  split_and!; [| | |done].
  - destruct (onInit (options a)), (active a); simpl;
      destruct (reachAtInit _ _); by destruct (closedDefault _).
  - destruct (onInit (options a)), (active a); simpl;
      destruct (reachAtInit _ _); by destruct (closedDefault _).
  - destruct (onInit (options a)) as [f|], (active a) eqn:Hact,
      (closedDefault (options a)) eqn:Hclosed; simpl.
    all: destruct (reachAtInit _ _) as [r|] eqn:Hr; simpl.
    all: unfold update; simpl; rewrite ?lookup_alter_eq, Ha; simpl.
    all: unfold initialised; simpl; by rewrite ?Hr, ?Hclosed.
Qed.

(** From its second round on, the first loop writes ["false"] and nothing
    else into [aria-expanded]. *)
Lemma init_triggers_collapsed this prefixId id triggers :
  ∀ index (w : Page) k w',
    init_triggers this prefixId id triggers index w = Ok (k, w') →
    (0 < index)%nat →
    (∀ n, getAttribute n "aria-expanded" w = Some "false" →
          getAttribute n "aria-expanded" w' = Some "false")
    ∧ (∀ t, t ∈ triggers → t < length (nodes w) →
            getAttribute t "aria-expanded" w' = Some "false").
Proof.
  induction triggers as [|t rest IH]; intros index w k w'; cbn [init_triggers].
  - intros [= _ <-] _. split; [done|]. intros t Ht. by apply elem_of_nil in Ht.
  - destruct (probe _ _ _ _) as [i|]; [|done].
    intros Hrec Hidx. rewrite decide_False in Hrec by lia.
    destruct (IH _ _ _ _ Hrec) as [Hkeep Hnew]; [lia|].
    match type of Hrec with
    | init_triggers _ _ _ _ _ ?u = _ => set (w2 := u) in *
    end.
    assert (H2 : ∀ n, getAttribute n "aria-expanded" w2
                      = if decide (t = n ∧ t < length (nodes w)) then Some "false"
                        else getAttribute n "aria-expanded" w).
    { intros n. unfold w2. rewrite !getAttribute_addEventListener.
      rewrite getAttribute_setAttribute.
      rewrite !getAttribute_setAttribute_other by done.
      assert (Hl : length (nodes (setAttribute t "aria-controls" (panelId prefixId id i)
                                    (setAttribute t "id" (triggerId prefixId id i) w)))
                   = length (nodes w)) by (simpl; by rewrite !length_alter).
      rewrite Hl. repeat case_decide; try done; exfalso; tauto. }
    assert (Hl2 : length (nodes w2) = length (nodes w)).
    { unfold w2. simpl. by rewrite !length_alter. }
    split.
    + intros n Hn. apply Hkeep. rewrite H2. by destruct (decide _).
    + intros t' Ht' Hlt. apply elem_of_cons in Ht' as [->|Ht'].
      * apply Hkeep. rewrite H2. by rewrite decide_True.
      * apply Hnew; [done|]. by rewrite Hl2.
Qed.

(** After the first loop every trigger but the first is collapsed. *)
Lemma init_triggers_first_expanded this prefixId id t rest (w : Page) k w' :
  init_triggers this prefixId id (t :: rest) 0 w = Ok (k, w') →
  ∀ t', t' ∈ rest → t' < length (nodes w) →
        getAttribute t' "aria-expanded" w' = Some "false".
Proof.
  cbn [init_triggers]. destruct (probe _ _ _ _) as [i|]; [|done].
  intros Hrec t' Ht' Hlt.
  destruct (init_triggers_collapsed _ _ _ _ _ _ _ _ Hrec) as [_ Hnew]; [lia|].
  apply Hnew; [done|]. simpl. by rewrite !length_alter.
Qed.

(** The second loop when it is to close the panels, without animation:
    it writes ["false"] and nothing else into [aria-expanded], and on the
    first trigger whenever there is a panel; it hides every panel and
    shows nothing. *)
Lemma init_panels_closed this prefixId id triggers t0 panels :
  ∀ (w : Page) k w' a,
    heap w !! this = Some a → hasAnimation (options a) = false →
    triggers !! 0 = Some t0 →
    init_panels this prefixId id true triggers panels 0 w = Ok (k, w') →
    (∀ n, getAttribute n "aria-expanded" w = Some "false" →
          getAttribute n "aria-expanded" w' = Some "false")
    ∧ (∀ q, isClosed q w = true → isClosed q w' = true)
    ∧ (∀ q, q ∈ panels → q < length (nodes w) → isClosed q w' = true)
    ∧ (panels ≠ [] → t0 < length (nodes w) →
       getAttribute t0 "aria-expanded" w' = Some "false").
Proof.
  induction panels as [|p rest IH]; intros w k w' a Ha Han Ht0; cbn [init_panels].
  - intros [= _ <-]. split_and!; [done..| |done]. intros q Hq. by apply elem_of_nil in Hq.
  - destruct (probe _ _ _ _) as [i|]; [|done].
    rewrite decide_False by (intros H; by apply H). rewrite Ht0.
    cbn [mbind result_bind]. intros Hrec.
    match type of Hrec with
    | init_panels _ _ _ _ _ _ _ ?u = _ => set (w2 := u) in *
    end.
    set (w1 := setAttribute p "aria-labelledby" (triggerId prefixId id i)
                 (setAttribute p "id" (panelId prefixId id i) w)) in *.
    assert (Hl1 : length (nodes w1) = length (nodes w))
      by (unfold w1; simpl; by rewrite !length_alter).
    assert (Ha1 : heap (setAttribute t0 "aria-expanded" "false" w1) !! this = Some a)
      by done.
    assert (H2e : ∀ n, getAttribute n "aria-expanded" w2
                       = if decide (t0 = n ∧ t0 < length (nodes w)) then Some "false"
                         else getAttribute n "aria-expanded" w).
    { intros n. unfold w2. rewrite getAttribute_close, getAttribute_setAttribute.
      unfold w1. rewrite !getAttribute_setAttribute_other by done.
      fold w1. rewrite Hl1. repeat case_decide; try done; exfalso; tauto. }
    assert (H2c : ∀ q, isClosed q w2
                       = if decide (p = q ∧ p < length (nodes w)) then true
                         else isClosed q w).
    { intros q. unfold w2.
      rewrite (isClosed_close this a p q _ Ha1 Han), isClosed_setAttribute.
      unfold w1. rewrite !isClosed_setAttribute.
      replace (length (nodes (setAttribute t0 "aria-expanded" "false"
                                (setAttribute p "aria-labelledby" (triggerId prefixId id i)
                                   (setAttribute p "id" (panelId prefixId id i) w)))))
        with (length (nodes w)) by (simpl; by rewrite !length_alter).
      done. }
    assert (Hl2 : length (nodes w2) = length (nodes w)).
    { unfold w2. rewrite <- Hl1.
      pose proof (same_page_close this p (setAttribute t0 "aria-expanded" "false" w1))
        as Hsp.
      rewrite (sp_length _ _ Hsp). simpl. by rewrite length_alter. }
    assert (Ha2 : heap w2 !! this = Some a).
    { unfold w2.
      pose proof (same_page_close this p (setAttribute t0 "aria-expanded" "false" w1))
        as Hsp.
      by rewrite (sp_heap _ _ Hsp). }
    destruct (IH w2 k w' a Ha2 Han Ht0 Hrec) as (Hke & Hkc & Hnc & Hne).
    split_and!.
    + intros n Hn. apply Hke. rewrite H2e. by destruct (decide _).
    + intros q Hq. apply Hkc. rewrite H2c. by destruct (decide _).
    + intros q Hq Hlt. apply elem_of_cons in Hq as [->|Hq].
      * apply Hkc. rewrite H2c. by rewrite decide_True.
      * apply Hnc; [done|]. by rewrite Hl2.
    + intros _ Hlt. apply Hke. rewrite H2e. by rewrite decide_True.
Qed.

(** *** The numbers [init] gives *)

Lemma pretty_N_go_not_p x s s' :
  s ≠ String "p" s' → pretty_N_go x s ≠ String "p" s'.
Proof.
  revert s. induction (N.lt_wf_0 x) as [x _ IH]; intros s Hs.
  destruct (decide (x = 0)%N) as [->|Hx]; [by rewrite pretty_N_go_0|].
  rewrite pretty_N_go_step by lia. apply IH; [apply N.div_lt; lia|].
  unfold pretty_N_char. by repeat case_match.
Qed.

Lemma pretty_nat_not_p (i : nat) s : pretty i ≠ String "p" s.
Proof.
  unfold pretty, pretty_nat, pretty, pretty_N. case_decide; [done|].
  by apply pretty_N_go_not_p.
Qed.

(** An id of a trigger is never an id of a panel. *)
Lemma triggerId_not_panelId prefixId id i j :
  triggerId prefixId id i ≠ panelId prefixId id j.
Proof.
  unfold triggerId, panelId. intros H.
  repeat apply String.app_inj in H. simpl in H. injection H as H.
  by apply pretty_nat_not_p in H.
Qed.

Lemma getElementById_is_Some s n (w : Page) :
  s ≠ "" → getAttribute n "id" w = Some s → is_Some (getElementById s w).
Proof.
  intros Hs Hn. destruct (getElementById s w) eqn:E; [eauto|].
  rewrite getElementById_None in E by done. by destruct (E n).
Qed.

Lemma probe_skip cand (w : Page) d :
  ∀ fuel i,
    (∀ k, k < d → is_Some (getElementById (cand (i + k)) w)) →
    getElementById (cand (i + d)) w = None →
    d < fuel →
    probe fuel cand i w = Some (i + d).
Proof.
  induction d as [|d IH]; intros fuel i Htaken Hfree Hfuel.
  - destruct fuel as [|fuel]; [lia|]. simpl.
    rewrite Nat.add_0_r in Hfree. rewrite Hfree. f_equal. lia.
  - destruct fuel as [|fuel]; [lia|]. simpl.
    destruct (Htaken 0) as [n Hn]; [lia|]. rewrite Nat.add_0_r in Hn. rewrite Hn.
    replace (i + S d) with (S i + d) by lia. apply IH; [| |lia].
    + intros k Hk. replace (S i + k) with (i + S k) by lia. apply Htaken. lia.
    + by replace (S i + d) with (i + S d) by lia.
Qed.

Lemma length_NoDup_bounded (l : list nat) N :
  NoDup l → Forall (λ n, n < N) l → (length l ≤ N)%nat.
Proof.
  intros Hnd Hall. trans (length (seq 0 N)); [|by rewrite length_seq].
  apply submseteq_length.
  apply NoDup_submseteq; [done|]. intros n Hn. rewrite Forall_forall in Hall.
  apply elem_of_seq. specialize (Hall n Hn). lia.
Qed.

Lemma numbered_nil_fresh cand (w : Page) :
  (∀ n i, getAttribute n "id" w ≠ Some (cand i)) → numbered cand [] w.
Proof. intros H n i. split; [by intros ?%H|by intros [_ ?]]. Qed.

(** With the numbers given in order, the id with number [k + 1] names
    the element at position [k], and the next number is free. *)
Lemma numbered_lookup cand done (w : Page) k n :
  (∀ i, cand i ≠ "") →
  numbered cand done w → NoDup done → done !! k = Some n →
  getAttribute n "id" w = Some (cand (k + 1))
  ∧ getElementById (cand (k + 1)) w = Some n.
Proof.
  intros Hcand Hnum Hnd Hk.
  assert (Hid : getAttribute n "id" w = Some (cand (k + 1))).
  { apply Hnum. split; [lia|]. by replace (k + 1 - 1) with k by lia. }
  split; [done|]. apply getElementById_Some_iff; [done|]. split; [done|].
  intros j Hj Hjid. apply Hnum in Hjid as [_ Hjk].
  replace (k + 1 - 1) with k in Hjk by lia. rewrite Hk in Hjk. injection Hjk as ->. lia.
Qed.

Lemma numbered_next_free cand done (w : Page) :
  (∀ i, cand i ≠ "") →
  numbered cand done w → getElementById (cand (length done + 1)) w = None.
Proof.
  intros Hcand Hnum. apply getElementById_None; [done|]. intros n Hn.
  apply Hnum in Hn as [_ Hn]. replace (length done + 1 - 1) with (length done) in Hn by lia.
  apply lookup_lt_Some in Hn. lia.
Qed.

(** Giving the next number to an element that has none yet. *)
Lemma numbered_snoc cand done t (w w2 : Page) :
  Inj (=) (=) cand →
  numbered cand done w → t ∉ done →
  (∀ n, getAttribute n "id" w2
        = if decide (n = t) then Some (cand (length done + 1)) else getAttribute n "id" w) →
  numbered cand (done ++ [t]) w2.
Proof.
  intros Hinj Hnum Hnotin H2 n i. rewrite H2. destruct (decide (n = t)) as [->|Hne].
  - split.
    + intros [= Hc]. apply Hinj in Hc. subst i. split; [lia|].
      replace (length done + 1 - 1) with (length done) by lia.
      by rewrite lookup_app_r, Nat.sub_diag by lia.
    + intros [Hi Hl]. destruct (decide (i - 1 < length done)) as [Hlt|Hge].
      * rewrite lookup_app_l in Hl by done. exfalso. apply Hnotin.
        by eapply list_elem_of_lookup_2.
      * rewrite lookup_app_r in Hl by lia.
        destruct (i - 1 - length done) as [|m] eqn:E; [|done].
        do 2 f_equal. lia.
  - rewrite (Hnum n i). split; intros [Hi Hl]; (split; [done|]).
    + rewrite lookup_app_l; [done|]. by eapply lookup_lt_Some.
    + destruct (decide (i - 1 < length done)) as [Hlt|Hge].
      * by rewrite lookup_app_l in Hl.
      * rewrite lookup_app_r in Hl by lia.
        destruct (i - 1 - length done) as [|m] eqn:E; simpl in Hl; [|done].
        congruence.
Qed.

(** The first loop numbers the triggers in their order, from the number
    after the ones already given, and writes on no other element. *)
Lemma init_triggers_numbered this prefixId id rest :
  ∀ done (w : Page) k' w',
    init_triggers this prefixId id rest (length done) w = Ok (k', w') →
    NoDup (done ++ rest) →
    Forall (λ t, t < length (nodes w)) rest →
    numbered (triggerId prefixId id) done w →
    numbered (triggerId prefixId id) (done ++ rest) w'
    ∧ (∀ j t, rest !! j = Some t →
              getAttribute t "aria-controls" w'
              = Some (panelId prefixId id (length done + j + 1)))
    ∧ (∀ n name, n ∉ rest → getAttribute n name w' = getAttribute n name w).
Proof.
  induction rest as [|t rest IH]; intros done w k' w'; cbn [init_triggers].
  - intros [= _ <-] _ _ Hnum. rewrite app_nil_r. split_and!; [done| |done].
    intros j t Hj. by rewrite lookup_nil in Hj.
  - intros Hrec Hnd Hall Hnum.
    rewrite (probe_skip _ w 0 (probe_fuel w) (length done + 1)) in Hrec;
      [|intros k Hk; lia
       |rewrite Nat.add_0_r; apply numbered_next_free;
          [apply triggerId_nonempty|done]
       |unfold probe_fuel; lia].
    rewrite Nat.add_0_r in Hrec.
    match type of Hrec with
    | init_triggers _ _ _ _ _ ?u = _ => set (w2 := u) in *
    end.
    apply Forall_cons in Hall as [Hlt Hall].
    assert (Hnotin : t ∉ done).
    { apply NoDup_app in Hnd as (_ & Hdis & _). intros Hin. apply (Hdis t Hin). by left. }
    assert (Hnotrest : t ∉ rest).
    { apply NoDup_app in Hnd as (_ & _ & Hr). by apply NoDup_cons in Hr as [? _]. }
    assert (H2 : ∀ n name, getAttribute n name w2
              = if decide (n = t) then
                  if decide (name = "aria-expanded")
                  then Some (if decide (length done = 0) then "true" else "false")
                  else if decide (name = "aria-controls")
                  then Some (panelId prefixId id (length done + 1))
                  else if decide (name = "id")
                  then Some (triggerId prefixId id (length done + 1))
                  else getAttribute n name w
                else getAttribute n name w).
    { intros n name. unfold w2. rewrite !getAttribute_addEventListener.
      rewrite !getAttribute_setAttribute. simpl. rewrite !length_alter.
      repeat case_decide; try done; exfalso; naive_solver. }
    assert (Hl2 : length (nodes w2) = length (nodes w)).
    { unfold w2. simpl. by rewrite !length_alter. }
    replace (length done + 1) with (length (done ++ [t])) in Hrec
      by (rewrite length_app; simpl; lia).
    destruct (IH (done ++ [t]) w2 k' w' Hrec) as (Hnum' & Hctl & Hframe).
    + by rewrite <- app_assoc.
    + by rewrite Hl2.
    + apply (numbered_snoc _ _ _ w); [apply triggerId_inj|done..|].
      intros n. rewrite H2. by repeat case_decide.
    + rewrite <- app_assoc in Hnum'. split_and!; [done| |].
      * intros [|j] t' Hj; simpl in Hj.
        -- injection Hj as <-. rewrite Hframe by done. rewrite H2.
           rewrite decide_True by done. rewrite decide_False by done.
           rewrite decide_True by done. do 2 f_equal. lia.
        -- rewrite (Hctl j t' Hj). rewrite length_app. simpl. do 2 f_equal. lia.
      * intros n name Hn. apply not_elem_of_cons in Hn as [Hne Hn].
        rewrite Hframe by done. rewrite H2. by rewrite decide_False.
Qed.

(** The second loop numbers the panels in their order: every round
    starts probing at 1 and runs past the numbers already given. *)
Lemma init_panels_numbered this prefixId id closedDefault triggers rest :
  ∀ done (w : Page) k' w',
    init_panels this prefixId id closedDefault triggers rest 0 w = Ok (k', w') →
    NoDup (done ++ rest) →
    Forall (λ p, p < length (nodes w)) (done ++ rest) →
    numbered (panelId prefixId id) done w →
    numbered (panelId prefixId id) (done ++ rest) w'
    ∧ (∀ j p, rest !! j = Some p →
              getAttribute p "aria-labelledby" w'
              = Some (triggerId prefixId id (length done + j + 1)))
    ∧ (∀ n name, n ∉ rest → name ≠ "aria-expanded" →
                 getAttribute n name w' = getAttribute n name w).
Proof.
  induction rest as [|p rest IH]; intros done w k' w'; cbn [init_panels].
  - intros [= _ <-] _ _ Hnum. rewrite app_nil_r. split_and!; [done| |done].
    intros j t Hj. by rewrite lookup_nil in Hj.
  - intros Hrec Hnd Hall Hnum.
    assert (Hdone : (length done ≤ length (nodes w))%nat).
    { apply length_NoDup_bounded; [by apply NoDup_app in Hnd as (? & _)|].
      by apply Forall_app in Hall as [? _]. }
    rewrite (probe_skip _ w (length done) (probe_fuel w) (0 + 1)) in Hrec;
      [| |replace (0 + 1 + length done) with (length done + 1) by lia;
          apply numbered_next_free; [apply panelId_nonempty|done]
       |unfold probe_fuel; lia].
    2:{ intros k Hk. destruct (lookup_lt_is_Some_2 done k Hk) as [n Hn].
        apply (getElementById_is_Some _ n); [apply panelId_nonempty|].
        apply Hnum. split; [lia|].
        by replace (0 + 1 + k - 1) with k by lia. }
    replace (0 + 1 + length done) with (length done + 1) in Hrec by lia.
    rewrite decide_False in Hrec by (intros H; by apply H).
    set (w1 := setAttribute p "aria-labelledby" (triggerId prefixId id (length done + 1))
                 (setAttribute p "id" (panelId prefixId id (length done + 1)) w)) in *.
    apply Forall_app in Hall as [Hall1 Hall2].
    apply Forall_cons in Hall2 as [Hlt Hall2].
    assert (Hnotin : p ∉ done).
    { apply NoDup_app in Hnd as (_ & Hdis & _). intros Hin. apply (Hdis p Hin). by left. }
    assert (Hnotrest : p ∉ rest).
    { apply NoDup_app in Hnd as (_ & _ & Hr). by apply NoDup_cons in Hr as [? _]. }
    assert (H1 : ∀ n name, name ≠ "aria-expanded" → getAttribute n name w1
              = if decide (n = p) then
                  if decide (name = "aria-labelledby")
                  then Some (triggerId prefixId id (length done + 1))
                  else if decide (name = "id")
                  then Some (panelId prefixId id (length done + 1))
                  else getAttribute n name w
                else getAttribute n name w).
    { intros n name Hname. unfold w1. rewrite !getAttribute_setAttribute. simpl.
      rewrite !length_alter.
      repeat case_decide; try done; exfalso; naive_solver. }
    assert (Hl1 : length (nodes w1) = length (nodes w)).
    { unfold w1. simpl. by rewrite !length_alter. }
    assert (Hstep : ∃ w2 : Page,
              init_panels this prefixId id closedDefault triggers rest 0 w2 = Ok (k', w')
              ∧ length (nodes w2) = length (nodes w)
              ∧ ∀ n name, name ≠ "aria-expanded" →
                          getAttribute n name w2 = getAttribute n name w1).
    { destruct closedDefault.
      - destruct (triggers !! 0) as [t0|]; [|done]. cbn [mbind result_bind] in Hrec.
        eexists. split; [exact Hrec|]. split.
        + rewrite (sp_length _ _ (same_page_close _ _ _)). simpl.
          by rewrite length_alter.
        + intros n name Hname.
          by rewrite getAttribute_close, getAttribute_setAttribute_other.
      - cbn [mbind result_bind] in Hrec. by exists w1. }
    destruct Hstep as (w2 & Hrec2 & Hl2 & H2).
    destruct (IH (done ++ [p]) w2 k' w' Hrec2) as (Hnum' & Hlab & Hframe).
    + by rewrite <- app_assoc.
    + rewrite Hl2, <- app_assoc. apply Forall_app. split; [done|].
      by apply Forall_cons.
    + apply (numbered_snoc _ _ _ w); [apply panelId_inj|done..|].
      intros n. rewrite H2, H1 by done. by repeat case_decide.
    + rewrite <- app_assoc in Hnum'. split_and!; [done| |].
      * intros [|j] q Hj; simpl in Hj.
        -- injection Hj as <-. rewrite Hframe, H2, H1 by done.
           rewrite decide_True by done. rewrite decide_True by done.
           do 2 f_equal. lia.
        -- rewrite (Hlab j q Hj). rewrite length_app. simpl. do 2 f_equal. lia.
      * intros n name Hn Hname. apply not_elem_of_cons in Hn as [Hne Hn].
        rewrite Hframe, H2, H1 by done. by rewrite decide_False.
Qed.

(** *** What [destroy] takes away *)

Lemma getAttribute_destroy_trigger this t n name (w : Page) :
  getAttribute n name (destroy_trigger this w t)
  = if decide (n = t ∧ name ∈ ["id"; "aria-controls"; "aria-expanded"]) then None
    else getAttribute n name w.
Proof.
  unfold destroy_trigger.
  rewrite !getAttribute_removeEventListener, !getAttribute_removeAttribute.
  repeat case_decide; try done; exfalso; set_solver.
Qed.

Lemma getAttribute_destroy_triggers this ts n name :
  ∀ w : Page,
    getAttribute n name (foldl (destroy_trigger this) w ts)
    = if decide (n ∈ ts ∧ name ∈ ["id"; "aria-controls"; "aria-expanded"]) then None
      else getAttribute n name w.
Proof.
  induction ts as [|t ts IH]; intros w; cbn [foldl].
  - rewrite decide_False; [done|]. intros [H _]. by apply elem_of_nil in H.
  - rewrite IH, getAttribute_destroy_trigger.
    repeat case_decide; try done; exfalso; set_solver.
Qed.

Lemma getAttribute_destroy_panel p n name (w : Page) :
  getAttribute n name (destroy_panel w p)
  = if decide (n = p ∧ name ∈ ["id"; "aria-labelledby"]) then None
    else getAttribute n name w.
Proof.
  unfold destroy_panel.
  rewrite getAttribute_removeStyle, !getAttribute_removeAttribute.
  repeat case_decide; try done; exfalso; set_solver.
Qed.

Lemma getAttribute_destroy_panels ps n name :
  ∀ w : Page,
    getAttribute n name (foldl destroy_panel w ps)
    = if decide (n ∈ ps ∧ name ∈ ["id"; "aria-labelledby"]) then None
      else getAttribute n name w.
Proof.
  induction ps as [|p ps IH]; intros w; cbn [foldl].
  - rewrite decide_False; [done|]. intros [H _]. by apply elem_of_nil in H.
  - rewrite IH, getAttribute_destroy_panel.
    repeat case_decide; try done; exfalso; set_solver.
Qed.

Lemma inlineDisplay_alter_keep n m (g : Element → Element) (w : Page) :
  (∀ e, style_display (g e) = style_display e) →
  inlineDisplay m (with_nodes (alter g n) w) = inlineDisplay m w.
Proof.
  intros Hg. unfold inlineDisplay. simpl. destruct (decide (n = m)) as [->|Hne].
  - rewrite list_lookup_alter_eq. destruct (nodes w !! m); simpl; [by rewrite Hg|done].
  - by rewrite list_lookup_alter_ne.
Qed.

Lemma inlineDisplay_removeStyle n m (w : Page) :
  inlineDisplay m (removeStyle n w) = if decide (m = n) then None else inlineDisplay m w.
Proof.
  unfold inlineDisplay, removeStyle. simpl. case_decide as H.
  - subst. rewrite list_lookup_alter_eq. by destruct (nodes w !! n).
  - by rewrite list_lookup_alter_ne.
Qed.

Lemma inlineDisplay_destroy_triggers this ts n :
  ∀ w : Page, inlineDisplay n (foldl (destroy_trigger this) w ts) = inlineDisplay n w.
Proof.
  induction ts as [|t ts IH]; intros w; cbn [foldl]; [done|].
  rewrite IH. unfold destroy_trigger, removeEventListener, removeAttribute.
  by rewrite !inlineDisplay_alter_keep.
Qed.

Lemma inlineDisplay_destroy_panels ps n :
  ∀ w : Page,
    inlineDisplay n (foldl destroy_panel w ps)
    = if decide (n ∈ ps) then None else inlineDisplay n w.
Proof.
  induction ps as [|p ps IH]; intros w; cbn [foldl].
  - rewrite decide_False; [done|]. apply not_elem_of_nil.
  - rewrite IH. unfold destroy_panel. rewrite inlineDisplay_removeStyle.
    unfold removeAttribute. rewrite !inlineDisplay_alter_keep by done.
    repeat case_decide; try done; exfalso; set_solver.
Qed.

Lemma listenersOf_alter_keep n m (g : Element → Element) (w : Page) :
  (∀ e, listeners (g e) = listeners e) →
  listenersOf m (with_nodes (alter g n) w) = listenersOf m w.
Proof.
  intros Hg. unfold listenersOf. simpl. destruct (decide (n = m)) as [->|Hne].
  - rewrite list_lookup_alter_eq. destruct (nodes w !! m); simpl; [by rewrite Hg|done].
  - by rewrite list_lookup_alter_ne.
Qed.

Lemma listenersOf_removeEventListener n m type l x (w : Page) :
  x ∈ listenersOf m (removeEventListener n type l w)
  ↔ x ∈ listenersOf m w ∧ ¬ (m = n ∧ x = (type, l)).
Proof.
  unfold listenersOf, removeEventListener. simpl. destruct (decide (n = m)) as [->|Hne].
  - rewrite list_lookup_alter_eq. destruct (nodes w !! m) as [e|]; simpl.
    + unfold remove_listener. rewrite list_elem_of_filter. tauto.
    + split; [by intros ?%elem_of_nil|by intros [?%elem_of_nil _]].
  - rewrite list_lookup_alter_ne by done. split; [|tauto].
    intros H. split; [done|]. intros [-> _]. done.
Qed.

Lemma listenersOf_destroy_trigger this t n x (w : Page) :
  x ∈ listenersOf n (destroy_trigger this w t)
  ↔ x ∈ listenersOf n w ∧ ¬ (n = t ∧ x ∈ triggerListeners this).
Proof.
  unfold destroy_trigger. rewrite !listenersOf_removeEventListener.
  unfold removeAttribute. rewrite !listenersOf_alter_keep by done.
  unfold triggerListeners. set_solver.
Qed.

Lemma listenersOf_destroy_triggers this ts n x :
  ∀ w : Page,
    x ∈ listenersOf n (foldl (destroy_trigger this) w ts)
    ↔ x ∈ listenersOf n w ∧ ¬ (n ∈ ts ∧ x ∈ triggerListeners this).
Proof.
  induction ts as [|t ts IH]; intros w; cbn [foldl].
  - set_solver.
  - rewrite IH, listenersOf_destroy_trigger. set_solver.
Qed.

Lemma listenersOf_destroy_panels ps n :
  ∀ w : Page, listenersOf n (foldl destroy_panel w ps) = listenersOf n w.
Proof.
  induction ps as [|p ps IH]; intros w; cbn [foldl]; [done|].
  rewrite IH. unfold destroy_panel, removeStyle, removeAttribute.
  by rewrite !listenersOf_alter_keep.
Qed.

(** The elements of the page after [destroy] on a node that has an
    instance. *)
Lemma nodes_destroy el this a (w : Page) :
  registry w !! el = Some this → heap w !! this = Some a →
  nodes (destroy el w)
  = nodes (foldl destroy_panel
             (foldl (destroy_trigger this) w
                (select w (element a) (triggerSelector (options a))))
             (select w (element a) (panelSelector (options a)))).
Proof.
  intros Hr Ha. unfold destroy, AbstractDomElement.getInstance. rewrite Hr, Ha.
  cbn [nodes AbstractDomElement.destroy with_registry with_documentListeners].
  set (w2 := update this (with_activePanel None) (update this (with_active false) w)).
  change (select w2) with (select w).
  assert (Hgen : ∀ (ps ts : list Node) (u v : Page), nodes u = nodes v →
            nodes (foldl destroy_panel (foldl (destroy_trigger this) u ts) ps)
            = nodes (foldl destroy_panel (foldl (destroy_trigger this) v ts) ps)).
  { assert (Ht : ∀ (ts : list Node) (u v : Page), nodes u = nodes v →
              nodes (foldl (destroy_trigger this) u ts)
              = nodes (foldl (destroy_trigger this) v ts)).
    { induction ts as [|t ts IH]; intros u v Huv; cbn [foldl]; [done|].
      apply IH. unfold destroy_trigger, removeEventListener, removeAttribute. simpl.
      by rewrite Huv. }
    induction ps as [|p ps IH]; intros ts u v Huv; cbn [foldl]; [by apply Ht|].
    specialize (Ht ts u v Huv).
    assert (Hp : ∀ (ps : list Node) (u v : Page), nodes u = nodes v →
                nodes (foldl destroy_panel u ps) = nodes (foldl destroy_panel v ps)).
    { clear. induction ps as [|p ps IH]; intros u v Huv; cbn [foldl]; [done|].
      apply IH. unfold destroy_panel, removeStyle, removeAttribute. simpl.
      by rewrite Huv. }
    apply Hp. unfold destroy_panel, removeStyle, removeAttribute. simpl. by rewrite Ht. }
  by apply Hgen.
Qed.

Lemma heap_destroy el this a (w : Page) :
  registry w !! el = Some this → heap w !! this = Some a →
  heap (destroy el w) = <[this := with_activePanel None (with_active false a)]> (heap w).
Proof.
  intros Hr Ha. unfold destroy, AbstractDomElement.getInstance. rewrite Hr, Ha.
  cbn [heap AbstractDomElement.destroy with_registry with_documentListeners].
  rewrite !(foldl_preserves heap).
  - unfold update. simpl. apply map_eq. intros r.
    destruct (decide (r = this)) as [->|Hne].
    + by rewrite lookup_insert_eq, !lookup_alter_eq, Ha.
    + by rewrite lookup_insert_ne, !lookup_alter_ne.
  - done.
  - done.
Qed.

Lemma registry_destroy el (w : Page) :
  registry (destroy el w) = delete el (registry w).
Proof.
  unfold destroy, AbstractDomElement.destroy. simpl.
  destruct (AbstractDomElement.getInstance el w) as [r|]; [|done].
  destruct (heap w !! r) as [a|]; [|done]. simpl.
  by rewrite !(foldl_preserves registry).
Qed.

Lemma windowListeners_destroy el (w : Page) :
  windowListeners (destroy el w) = windowListeners w.
Proof.
  unfold destroy, AbstractDomElement.destroy. simpl.
  destruct (AbstractDomElement.getInstance el w) as [r|]; [|done].
  destruct (heap w !! r) as [a|]; [|done]. simpl.
  by rewrite !(foldl_preserves windowListeners).
Qed.

(** What [destroy] leaves of the attributes. *)
Lemma getAttribute_destroy el this a n name (w : Page) :
  registry w !! el = Some this → heap w !! this = Some a →
  getAttribute n name (destroy el w)
  = if decide ((n ∈ select w (element a) (triggerSelector (options a))
                ∧ name ∈ ["id"; "aria-controls"; "aria-expanded"])
               ∨ (n ∈ select w (element a) (panelSelector (options a))
                  ∧ name ∈ ["id"; "aria-labelledby"]))
    then None else getAttribute n name w.
Proof.
  intros Hr Ha.
  rewrite (getAttribute_nodes _ _ _ _ (nodes_destroy el this a w Hr Ha)).
  rewrite getAttribute_destroy_panels, getAttribute_destroy_triggers.
  repeat case_decide; try done; exfalso; tauto.
Qed.

Lemma select_destroy el (w : Page) : select (destroy el w) = select w.
Proof.
  unfold destroy, AbstractDomElement.destroy. simpl.
  destruct (AbstractDomElement.getInstance el w) as [r|]; [|done].
  destruct (heap w !! r) as [a|]; [|done]. simpl.
  by rewrite !(foldl_preserves select).
Qed.

Lemma length_destroy el (w : Page) : length (nodes (destroy el w)) = length (nodes w).
Proof.
  unfold destroy, AbstractDomElement.destroy. simpl.
  destruct (AbstractDomElement.getInstance el w) as [r|]; [|done].
  destruct (heap w !! r) as [a|]; [|done]. simpl.
  rewrite !(foldl_preserves (λ u : Page, length (nodes u))); [done| |].
  - intros u p. unfold destroy_panel, removeStyle, removeAttribute. simpl.
    by rewrite !length_alter.
  - intros u t. unfold destroy_trigger, removeEventListener, removeAttribute. simpl.
    by rewrite !length_alter.
Qed.

Lemma active_initialised a width : active (initialised a width) = true.
Proof.
  unfold initialised. destruct (reachAtInit _ _), (closedDefault _); done.
Qed.

(** *** The keyboard handler on its instance *)

Lemma indexOf_lookup (l : list Node) i t :
  NoDup l → l !! i = Some t → indexOf l t = Z.of_nat i.
Proof.
  intros Hnd Hi. unfold indexOf.
  destruct (list_find (λ x, x = t) l) as [[j y]|] eqn:Hf.
  - apply list_find_Some in Hf as (Hj & -> & _).
    by rewrite (NoDup_lookup _ _ _ _ Hnd Hj Hi).
  - apply list_find_None in Hf. rewrite Forall_lookup in Hf.
    by destruct (Hf i t Hi).
Qed.

Lemma item_of_nat (l : list Node) k : item l (Z.of_nat k) = l !! k.
Proof.
  unfold item. rewrite (proj2 (Z.ltb_ge _ _)) by lia.
  by rewrite Nat2Z.id.
Qed.

Lemma focusItem_lookup (l : list Node) k (w : Page) :
  k < length l →
  nodes (focusItem (l !! k) w) = nodes w
  ∧ log (focusItem (l !! k) w) = log w
  ∧ activeElement (focusItem (l !! k) w) = l !! k.
Proof.
  intros Hk. destruct (lookup_lt_is_Some_2 l k Hk) as [t Ht]. rewrite Ht. simpl.
  by destruct (focusNode_frame t w) as (-> & -> & -> & _).
Qed.

(** Run on its instance, with the focus on the trigger at index [i], the
    handler suppresses the default action of the four keys and moves the
    focus as the keys say, wrapping around; it touches no element and
    calls nothing. *)
Lemma bound_handleKeydown_roves r a (w : Page) triggers i t key :
  heap w !! r = Some a →
  focus a = true →
  select w (element a) (triggerSelector (options a)) = triggers →
  NoDup triggers →
  triggers !! i = Some t →
  activeElement w = Some t →
  classList_contains t (Js.substring1 (triggerSelector (options a))) w = true →
  key ∈ ["ArrowUp"; "ArrowDown"; "Home"; "End"] →
  let r' := _handleKeydown (ThisInstance r) (mkKeyboardEvent key false) w in
  defaultPrevented r'.1 = true
  ∧ nodes r'.2 = nodes w
  ∧ log r'.2 = log w
  ∧ activeElement r'.2 = triggers !! rove key i (length triggers).
Proof.
  intros Ha Hfoc Hsel Hnd Hi Hact Hcls Hkey. simpl.
  pose proof (lookup_lt_Some _ _ _ Hi) as Hlt.
  pose proof (indexOf_lookup _ _ _ Hnd Hi) as Hidx.
  unfold _handleKeydown. rewrite Ha, Hfoc. cbn [negb code].
  set_unfold in Hkey.
  destruct Hkey as [->|[->|[->|[->|[]]]]]; cbn [String.eqb Ascii.eqb Bool.eqb fst snd];
    (split; [done|]).
  - unfold _focusPreviousTab. rewrite Ha, Hact, Hsel, Hcls, Hidx.
    replace (if (Z.of_nat i =? 0)%Z then (Z.of_nat (length triggers) - 1)%Z
             else (Z.of_nat i - 1)%Z)
      with (Z.of_nat (rove "ArrowUp" i (length triggers))).
    + rewrite item_of_nat. apply focusItem_lookup. unfold rove. simpl.
      apply Nat.mod_upper_bound. lia.
    + unfold rove. simpl. destruct i as [|i].
      * rewrite Z.eqb_refl. rewrite Nat.mod_small by lia. lia.
      * replace (S i + length triggers - 1) with (i + 1 * length triggers) by lia.
        rewrite Nat.Div0.mod_add, Nat.mod_small by lia.
        rewrite (proj2 (Z.eqb_neq _ _)) by lia. lia.
  - unfold _focusNextTab. rewrite Ha, Hact, Hsel, Hcls, Hidx.
    replace (if (Z.of_nat i =? Z.of_nat (length triggers) - 1)%Z then 0%Z
             else (Z.of_nat i + 1)%Z)
      with (Z.of_nat (rove "ArrowDown" i (length triggers))).
    + rewrite item_of_nat. apply focusItem_lookup. unfold rove. simpl.
      apply Nat.mod_upper_bound. lia.
    + unfold rove. simpl. destruct (decide (i = length triggers - 1)) as [E|E].
      * replace (i + 1) with (length triggers) by lia. rewrite Nat.Div0.mod_same.
        by rewrite (proj2 (Z.eqb_eq _ _)) by lia.
      * rewrite Nat.mod_small by lia.
        rewrite (proj2 (Z.eqb_neq _ _)) by lia. lia.
  - unfold _focusFirstTab. rewrite Ha, Hsel.
    change 0%Z with (Z.of_nat 0). rewrite item_of_nat.
    change (rove "Home" i (length triggers)) with 0.
    apply focusItem_lookup. lia.
  - unfold _focusLastTab. rewrite Ha, Hsel.
    replace (Z.of_nat (length triggers) - 1)%Z with (Z.of_nat (length triggers - 1)) by lia.
    rewrite item_of_nat.
    change (rove "End" i (length triggers)) with (length triggers - 1).
    apply focusItem_lookup. lia.
Qed.

(** *** The focus flag *)

Lemma with_focus_same a : with_focus (focus a) a = a.
Proof. by destruct a. Qed.

Lemma focus_only_refl (w : Page) : focus_only w w.
Proof. intros r a Ha. exists (focus a). by rewrite with_focus_same. Qed.

Lemma focus_only_trans (w1 w2 w3 : Page) :
  focus_only w1 w2 → focus_only w2 w3 → focus_only w1 w3.
Proof.
  intros H1 H2 r a Ha. destruct (H1 r a Ha) as [b Hb].
  destruct (H2 r _ Hb) as [c Hc]. exists c. by rewrite Hc.
Qed.

Lemma focus_only_heap (w w' : Page) : heap w' = heap w → focus_only w w'.
Proof. intros H r a Ha. exists (focus a). by rewrite H, with_focus_same. Qed.

Lemma focus_only_update this b (w : Page) : focus_only w (update this (with_focus b) w).
Proof.
  intros r a Ha. unfold update. simpl. destruct (decide (r = this)) as [->|Hne].
  - exists b. by rewrite lookup_alter_eq, Ha.
  - exists (focus a). by rewrite lookup_alter_ne, with_focus_same.
Qed.

Lemma focus_only_run_focus_listener type (w : Page) x :
  focus_only w (run_focus_listener type w x).
Proof.
  unfold run_focus_listener. destruct x as [t [| | |]]; try apply focus_only_refl.
  destruct (negb _); [apply focus_only_refl|].
  destruct (name =? _); [apply focus_only_update|].
  destruct (name =? _); [apply focus_only_update|apply focus_only_refl].
Qed.

Lemma focus_only_deliver n type (w : Page) : focus_only w (deliver n type w).
Proof.
  unfold deliver. destruct (nodes w !! n) as [e|]; [|apply focus_only_refl].
  generalize (listeners e). intros ls. revert w.
  induction ls as [|x ls IH]; intros w; simpl; [apply focus_only_refl|].
  eapply focus_only_trans; [apply focus_only_run_focus_listener|apply IH].
Qed.

Lemma focus_only_focusNode n (w : Page) : focus_only w (focusNode n w).
Proof.
  unfold focusNode. case_decide; [apply focus_only_refl|].
  eapply focus_only_trans; [|apply focus_only_deliver].
  destruct (activeElement w) as [old|].
  - apply (focus_only_trans _ (deliver old "blur" w)); [apply focus_only_deliver|].
    by apply focus_only_heap.
  - by apply focus_only_heap.
Qed.

(** The listeners of an element that takes the focus, run in their
    order: when the focus listener of the instance is among them, and its
    blur listener is not registered for [focus], the flag ends up set. *)
Lemma focus_kept r ls :
  ∀ (w : Page) a,
    heap w !! r = Some a → focus a = true →
    ("focus", BoundMethod r "handleButtonBlur") ∉ ls →
    ∃ a', heap (foldl (run_focus_listener "focus") w ls) !! r = Some a' ∧ focus a' = true.
Proof.
  induction ls as [|x ls IH]; intros w a Ha Hf Hno; cbn [foldl]; [eauto|].
  apply not_elem_of_cons in Hno as [Hx Hno].
  assert (Hstep : ∃ a1, heap (run_focus_listener "focus" w x) !! r = Some a1
                        ∧ focus a1 = true).
  { unfold run_focus_listener. destruct x as [type' [| this name | |]]; eauto.
    destruct (negb (type' =? "focus")) eqn:Ht; [eauto|].
    apply negb_false_iff, String.eqb_eq in Ht. subst type'.
    destruct (name =? "handleButtonBlur") eqn:Hn.
    - apply String.eqb_eq in Hn. subst name.
      destruct (decide (this = r)) as [->|Hne]; [done|].
      exists a. unfold _handleButtonBlur, update. simpl.
      by rewrite lookup_alter_ne.
    - destruct (name =? "handleButtonFocus"); [|eauto].
      unfold _handleButtonFocus, update. simpl.
      destruct (decide (this = r)) as [->|Hne].
      + exists (with_focus true a). by rewrite lookup_alter_eq, Ha.
      + exists a. by rewrite lookup_alter_ne. }
  destruct Hstep as (a1 & Ha1 & Hf1). by apply (IH _ a1).
Qed.

Lemma focus_set r ls :
  ∀ (w : Page) a,
    heap w !! r = Some a →
    ("focus", BoundMethod r "handleButtonFocus") ∈ ls →
    ("focus", BoundMethod r "handleButtonBlur") ∉ ls →
    ∃ a', heap (foldl (run_focus_listener "focus") w ls) !! r = Some a' ∧ focus a' = true.
Proof.
  induction ls as [|x ls IH]; intros w a Ha Hin Hno; cbn [foldl].
  - by apply elem_of_nil in Hin.
  - apply not_elem_of_cons in Hno as [Hx Hno].
    destruct (focus_only_run_focus_listener "focus" w x r a Ha) as [b Hb].
    apply elem_of_cons in Hin as [<-|Hin].
    + apply (focus_kept r ls _ (with_focus true a)); [|done..].
      simpl. unfold _handleButtonFocus, update. simpl.
      by rewrite lookup_alter_eq, Ha.
    + by apply (IH _ _ Hb).
Qed.

(** The handler on its instance, as the move of the focus it makes. *)
Lemma bound_handleKeydown_moves r a (w : Page) triggers i t key :
  heap w !! r = Some a →
  focus a = true →
  select w (element a) (triggerSelector (options a)) = triggers →
  NoDup triggers →
  triggers !! i = Some t →
  activeElement w = Some t →
  classList_contains t (Js.substring1 (triggerSelector (options a))) w = true →
  key ∈ ["ArrowUp"; "ArrowDown"; "Home"; "End"] →
  ∃ t', triggers !! rove key i (length triggers) = Some t'
        ∧ (_handleKeydown (ThisInstance r) (mkKeyboardEvent key false) w).2 = focusNode t' w.
Proof.
  intros Ha Hfoc Hsel Hnd Hi Hact Hcls Hkey.
  pose proof (lookup_lt_Some _ _ _ Hi) as Hlt.
  pose proof (indexOf_lookup _ _ _ Hnd Hi) as Hidx.
  assert (Hj : rove key i (length triggers) < length triggers).
  { unfold rove. repeat destruct (_ =? _); try apply Nat.mod_upper_bound; lia. }
  destruct (lookup_lt_is_Some_2 _ _ Hj) as [t' Ht']. exists t'. split; [done|].
  unfold _handleKeydown. rewrite Ha, Hfoc. cbn [negb code].
  set_unfold in Hkey.
  destruct Hkey as [->|[->|[->|[->|[]]]]]; cbn [String.eqb Ascii.eqb Bool.eqb fst snd].
  - unfold _focusPreviousTab. rewrite Ha, Hact, Hsel, Hcls, Hidx.
    replace (if (Z.of_nat i =? 0)%Z then (Z.of_nat (length triggers) - 1)%Z
             else (Z.of_nat i - 1)%Z)
      with (Z.of_nat (rove "ArrowUp" i (length triggers))).
    + by rewrite item_of_nat, Ht'.
    + unfold rove. simpl. destruct i as [|i].
      * rewrite Z.eqb_refl. rewrite Nat.mod_small by lia. lia.
      * replace (S i + length triggers - 1) with (i + 1 * length triggers) by lia.
        rewrite Nat.Div0.mod_add, Nat.mod_small by lia.
        rewrite (proj2 (Z.eqb_neq _ _)) by lia. lia.
  - unfold _focusNextTab. rewrite Ha, Hact, Hsel, Hcls, Hidx.
    replace (if (Z.of_nat i =? Z.of_nat (length triggers) - 1)%Z then 0%Z
             else (Z.of_nat i + 1)%Z)
      with (Z.of_nat (rove "ArrowDown" i (length triggers))).
    + by rewrite item_of_nat, Ht'.
    + unfold rove. simpl. destruct (decide (i = length triggers - 1)) as [E|E].
      * replace (i + 1) with (length triggers) by lia. rewrite Nat.Div0.mod_same.
        by rewrite (proj2 (Z.eqb_eq _ _)) by lia.
      * rewrite Nat.mod_small by lia.
        rewrite (proj2 (Z.eqb_neq _ _)) by lia. lia.
  - unfold _focusFirstTab. rewrite Ha, Hsel.
    change 0%Z with (Z.of_nat 0). rewrite item_of_nat.
    change (rove "Home" i (length triggers)) with 0 in Ht'. by rewrite Ht'.
  - unfold _focusLastTab. rewrite Ha, Hsel.
    replace (Z.of_nat (length triggers) - 1)%Z with (Z.of_nat (length triggers - 1)) by lia.
    rewrite item_of_nat.
    change (rove "End" i (length triggers)) with (length triggers - 1) in Ht'.
    by rewrite Ht'.
Qed.

(** The focus moves to a trigger that carries the focus listener of the
    instance: the flag of the instance is set afterwards. *)
Lemma focusNode_sets_focus r a n (w : Page) :
  heap w !! r = Some a →
  focus a = true ∨ activeElement w ≠ Some n →
  ("focus", BoundMethod r "handleButtonFocus") ∈ listenersOf n w →
  ("focus", BoundMethod r "handleButtonBlur") ∉ listenersOf n w →
  heap (focusNode n w) !! r = Some (with_focus true a).
Proof.
  intros Ha Hcase Hin Hno.
  destruct (focus_only_focusNode n w r a Ha) as [b Hb]. rewrite Hb.
  assert (Hfoc : ∃ a', heap (focusNode n w) !! r = Some a' ∧ focus a' = true).
  { unfold focusNode. case_decide as Hact.
    - exists a. split; [done|]. by destruct Hcase.
    - set (w1 := match activeElement w with
                 | Some old => deliver old "blur" w
                 | None => w
                 end).
      assert (H1 : focus_only w w1).
      { unfold w1. destruct (activeElement w); [apply focus_only_deliver|].
        apply focus_only_refl. }
      assert (Hn1 : nodes w1 = nodes w).
      { unfold w1. destruct (activeElement w) as [old|]; [|done].
        by destruct (deliver_frame old "blur" w) as (-> & _). }
      destruct (H1 r a Ha) as [b1 Hb1].
      unfold deliver. cbn [nodes with_activeElement]. rewrite Hn1.
      unfold listenersOf in Hin, Hno. destruct (nodes w !! n) as [e|].
      + by apply (focus_set r (listeners e) _ (with_focus b1 a)).
      + by apply elem_of_nil in Hin. }
  destruct Hfoc as (a' & Ha' & Hf'). rewrite Hb in Ha'. injection Ha' as <-.
  simpl in Hf'. by subst b.
Qed.

(** *** The constructor *)

Lemma crossed_new el o width : crossed (newWidget el o) width = Ok false.
Proof.
  unfold crossed. simpl. destruct (mediaQuery o); simpl; [|done].
  by rewrite andb_false_r.
Qed.

Lemma construct_old el o id (w : Page) r :
  registry w !! el = Some r → construct el o id w = Ok (r, w).
Proof.
  intros H. unfold construct, AbstractDomElement.construct, AbstractDomElement.getInstance.
  by rewrite H.
Qed.

Lemma heap_registered el o (w : Page) :
  heap (registered el o w) !! fresh (dom (heap w)) = Some (newWidget el o).
Proof. unfold registered. simpl. by rewrite lookup_insert_eq. Qed.

Lemma construct_new el o id (w : Page) :
  registry w !! el = None →
  let m := mergeOptions defaults o in
  construct el o id w
  = if mqMatches (mediaQuery m) (innerWidth w) || bool_decide (mediaQuery m = None)
    then w' ← init (fresh (dom (heap w))) id (registered el m w);
         Ok (fresh (dom (heap w)), w')
    else Ok (fresh (dom (heap w)), registered el m w).
Proof.
  intros H m. unfold construct, AbstractDomElement.construct, AbstractDomElement.getInstance.
  rewrite H. cbn [negb]. fold m. fold (registered el m w).
  unfold _handleResize. rewrite heap_registered, crossed_new.
  cbn [mbind result_bind]. simpl.
  by destruct (mqMatches _ _ || bool_decide _).
Qed.

Lemma construct_returned el o id (w : Page) r :
  fst <$> returned (construct el o id w) = Some r →
  construct el o id w = Ok (r, constructed el o id w).
Proof.
  unfold constructed. destruct (construct el o id w) as [[r' w']| |]; simpl; [|done..].
  by intros [= ->].
Qed.

Lemma init_returned this id (w : Page) :
  (returned (init this id w) ≫= λ _, Some ()) = Some () →
  init this id w = Ok (initialisedPage this id w).
Proof.
  unfold initialisedPage. by destruct (init this id w).
Qed.

(** A construction that returns leaves the instance it returns
    registered for the node. *)
Lemma construct_registers el o id (w w' : Page) r :
  construct el o id w = Ok (r, w') → registry w' !! el = Some r.
Proof.
  destruct (registry w !! el) as [r0|] eqn:Hreg.
  - rewrite (construct_old _ _ _ _ _ Hreg). by intros [= <- <-].
  - rewrite construct_new by done. cbv zeta.
    destruct (_ || _).
    + destruct (init _ _ _) as [w1| |] eqn:E; [|done..].
      cbn [mbind result_bind]. intros [= <- <-].
      pose proof (init_ok _ _ _ _ (λ _, False) (heap_registered _ _ _) _ E)
        as (Hp & _); [tauto|].
      rewrite (ip_registry _ _ _ _ Hp). unfold registered. simpl.
      by rewrite lookup_insert_eq.
    + intros [= <- <-]. unfold registered. simpl. by rewrite lookup_insert_eq.
Qed.

(** *** Resizing *)

Lemma log_destroy el (w : Page) : log (destroy el w) = log w.
Proof.
  unfold destroy, AbstractDomElement.destroy. simpl.
  destruct (AbstractDomElement.getInstance el w) as [r|]; [|done].
  destruct (heap w !! r) as [a|]; [|done]. simpl.
  by rewrite !(foldl_preserves log).
Qed.

(** [destroy] takes no listener off the document, and puts the bound
    handler of the instance it destroys on it. *)
Lemma destroy_documentListeners el (w : Page) :
  documentListeners (destroy el w)
  = match AbstractDomElement.getInstance el w with
    | Some r =>
        match heap w !! r with
        | Some _ =>
            add_listener "keydown" (BoundMethod r "handleKeydown") (documentListeners w)
        | None => documentListeners w
        end
    | None => documentListeners w
    end.
Proof.
  unfold destroy, AbstractDomElement.destroy. simpl.
  destruct (AbstractDomElement.getInstance el w) as [r|]; [|done].
  destruct (heap w !! r) as [a|]; [|done]. simpl.
  by rewrite !(foldl_preserves documentListeners).
Qed.

Lemma add_listener_elem type l ls x :
  x ∈ add_listener type l ls ↔ x ∈ ls ∨ x = (type, l).
Proof.
  unfold add_listener. case_decide as H.
  - split; [tauto|]. by intros [?| ->].
  - rewrite elem_of_app, list_elem_of_singleton. tauto.
Qed.

Lemma destroy_removes_no_document_listener el (w : Page) x :
  x ∈ documentListeners w → x ∈ documentListeners (destroy el w).
Proof.
  rewrite destroy_documentListeners. intros Hx.
  destruct (AbstractDomElement.getInstance el w) as [r|]; [|done].
  destruct (heap w !! r); [|done]. apply add_listener_elem. by left.
Qed.

(** A resize on the side of the breakpoint the group already is on, with
    the group active: nothing but the width changes. *)
Lemma resize_above r width id (w : Page) a :
  heap w !! r = Some a →
  active a = true →
  hasReachBreakpoint a = Some above →
  mediaQuery (options a) = Some minWidth768 →
  (768 < width)%Z →
  resize r width id w = Ok (with_innerWidth width w).
Proof.
  intros Ha Hact Hr Hmq Hw. unfold resize, _handleResize. simpl. rewrite Ha.
  unfold crossed. rewrite Hmq, Hr, Hact. simpl.
  change (Js.parseInt "768") with 768%Z.
  replace (width <=? 768)%Z with false by lia.
  rewrite !andb_false_r. simpl.
  replace (768 <=? width)%Z with true by lia. done.
Qed.

(** A resize that takes the active group below the breakpoint: the
    callback runs once, with [matches = false], and the group is
    destroyed. *)
Lemma resize_below r width id (w : Page) a f :
  heap w !! r = Some a →
  active a = true →
  hasReachBreakpoint a = Some above →
  mediaQuery (options a) = Some minWidth768 →
  onReachBreakpoint (options a) = Some f →
  (width < 768)%Z →
  resize r width id w
  = Ok (destroy (element a)
          (emit (CallOnReachBreakpoint f false)
             (update r (with_hasReachBreakpoint (Some below)) (with_innerWidth width w)))).
Proof.
  intros Ha Hact Hr Hmq Hf Hw. unfold resize, _handleResize. simpl. rewrite Ha.
  unfold crossed. rewrite Hmq, Hr, Hact, Hf. simpl.
  change (Js.parseInt "768") with 768%Z.
  replace (width <=? 768)%Z with true by lia. simpl.
  replace (768 <=? width)%Z with false by lia. done.
Qed.

(** *** Crossing the breakpoint *)

Lemma match_digits_test s d : Js.match_digits s = Some d → Js.test_digits s = true.
Proof.
  induction s as [|c s IH]; simpl; [done|].
  destruct (Js.is_digit c); [done|]. by intros ?%IH.
Qed.

Lemma match_digits_truthy s d : Js.match_digits s = Some d → Js.truthy (Some d) = true.
Proof.
  induction s as [|c s IH]; simpl; [done|].
  destruct (Js.is_digit c); [|done]. by intros [= <-].
Qed.

Lemma breakpointOf_Ok mq n :
  breakpointOf (Some mq) = Ok n →
  ∃ d, Js.match_digits (media mq) = Some d ∧ n = Js.parseInt d.
Proof.
  unfold breakpointOf. destruct (Js.match_digits (media mq)) as [d|]; [|done].
  intros [= <-]. eauto.
Qed.

(** For a query that names a minimal width, [init] records the side of
    the breakpoint the viewport is on. *)
Lemma reachAtInit_min mq n width :
  Js.includes "min" (media mq) = true →
  Js.includes "max" (media mq) = false →
  breakpointOf (Some mq) = Ok n →
  reachAtInit (Some mq) width = Some (side n width).
Proof.
  intros Hmin Hmax Hn. apply breakpointOf_Ok in Hn as (d & Hd & ->).
  unfold reachAtInit. rewrite (match_digits_test _ _ Hd), Hmin, Hmax, Hd.
  by rewrite (match_digits_truthy _ _ Hd).
Qed.

Lemma hasReachBreakpoint_initialised a width :
  hasReachBreakpoint (initialised a width)
  = match reachAtInit (mediaQuery (options a)) width with
    | Some r => Some r
    | None => hasReachBreakpoint a
    end.
Proof. unfold initialised. by destruct (reachAtInit _ _), (closedDefault _). Qed.

(** [destroy], on whatever node, leaves every instance on its root with
    its options and the side of the breakpoint it has recorded. *)
Lemma destroy_keeps_instance el r a (w : Page) :
  heap w !! r = Some a →
  ∃ a', heap (destroy el w) !! r = Some a'
        ∧ options a' = options a
        ∧ element a' = element a
        ∧ hasReachBreakpoint a' = hasReachBreakpoint a.
Proof.
  intros Ha. destruct (registry w !! el) as [this|] eqn:Hr.
  - destruct (heap w !! this) as [b|] eqn:Hb.
    + rewrite (heap_destroy el this b w Hr Hb).
      destruct (decide (r = this)) as [->|Hne].
      * rewrite lookup_insert_eq. rewrite Ha in Hb. injection Hb as <-. eauto.
      * rewrite lookup_insert_ne by done. eauto.
    + unfold destroy, AbstractDomElement.getInstance. rewrite Hr, Hb. eauto.
  - unfold destroy, AbstractDomElement.getInstance. rewrite Hr. eauto.
Qed.

(** One resize of the window, for an instance that [init] has run on,
    with a query that names a minimal width and with a callback. *)
Lemma resize_step r a mq f n s width id (w : Page) :
  heap w !! r = Some a →
  mediaQuery (options a) = Some mq →
  onReachBreakpoint (options a) = Some f →
  Js.includes "min" (media mq) = true →
  Js.includes "max" (media mq) = false →
  breakpointOf (Some mq) = Ok n →
  hasReachBreakpoint a = Some s →
  closedDefault (options a) = false
  ∨ is_Some (select w (element a) (triggerSelector (options a)) !! 0) →
  ∃ w' a',
    resize r width id w = Ok w'
    ∧ heap w' !! r = Some a'
    ∧ mediaQuery (options a') = Some mq
    ∧ onReachBreakpoint (options a') = Some f
    ∧ closedDefault (options a') = closedDefault (options a)
    ∧ triggerSelector (options a') = triggerSelector (options a)
    ∧ element a' = element a
    ∧ hasReachBreakpoint a' = Some (side n width)
    ∧ select w' = select w
    ∧ reachCalls w'
      = reachCalls w ++ (if decide (side n width = s) then []
                         else [CallOnReachBreakpoint f (matches mq width)]).
Proof.
  intros Ha Hmq Hf Hmin Hmax Hn Hs Hcd.
  pose proof Hn as Hn'. apply breakpointOf_Ok in Hn' as (d & Hd & Hnd).
  unfold resize, _handleResize. cbn [heap with_innerWidth innerWidth]. rewrite Ha.
  set (w0 := with_innerWidth width w).
  assert (Hc : crossed a width = Ok (negb (bool_decide (side n width = s)))).
  { unfold crossed. rewrite Hmq, Hf, Hs, (match_digits_test _ _ Hd), Hd, Hn. simpl.
    rewrite <- Hnd. unfold side. destruct s.
    - rewrite bool_decide_eq_true_2 by done. simpl.
      destruct (Z.leb_spec width n), (Z.ltb_spec n width); try lia; done.
    - rewrite bool_decide_eq_false_2 by done. simpl.
      by destruct (Z.ltb_spec n width). }
  rewrite Hc. cbn [mbind result_bind]. rewrite Hmq.
  match goal with
  | |- context [init r id ?u] => set (w1 := u)
  end.
  assert (H1 : ∃ a1, heap w1 !! r = Some a1
                     ∧ options a1 = options a ∧ element a1 = element a
                     ∧ active a1 = active a
                     ∧ hasReachBreakpoint a1 = Some (side n width)
                     ∧ select w1 = select w
                     ∧ innerWidth w1 = width
                     ∧ reachCalls w1
                       = reachCalls w ++ (if decide (side n width = s) then []
                                          else [CallOnReachBreakpoint f (matches mq width)])).
  { unfold w1. destruct (decide (side n width = s)) as [E|E].
    - rewrite bool_decide_eq_true_2 by done. cbn [negb]. exists a.
      split_and!; try done; [congruence|by rewrite app_nil_r].
    - rewrite bool_decide_eq_false_2 by done. cbn [negb]. rewrite Hf. cbn [call].
      exists (with_hasReachBreakpoint (flipReach (hasReachBreakpoint a)) a).
      split_and!; try done.
      + unfold update. simpl. by rewrite lookup_alter_eq, Ha.
      + simpl. rewrite Hs. unfold flipReach, side in *.
        destruct s, (n <? width)%Z; try done; by case_decide.
      + unfold reachCalls. simpl. rewrite filter_app. f_equal. }
  destruct H1 as (a1 & Ha1 & Ho1 & He1 & Hact1 & Hr1 & Hs1 & Hw1 & Hlog1).
  clearbody w1.
  assert (Hmatch : mqMatches (Some mq) (innerWidth w1) = matches mq width)
    by by rewrite Hw1.
  rewrite Hmatch. rewrite (bool_decide_eq_false_2 (Some mq = None)) by done.
  rewrite orb_false_r. rewrite (bool_decide_eq_true_2 (is_Some (Some mq))) by eauto.
  rewrite andb_true_r.
  destruct (negb (active a) && matches mq width) eqn:Hinit.
  - destruct (init_total r id w1 a1 Ha1) as [w' Hw'].
    { by rewrite Ho1, He1, Hs1. }
    destruct (init_ok r id w1 a1 (λ _, False) Ha1 w' Hw') as (Hpost & _); [done|].
    exists w', (initialised a1 (innerWidth w1)). split_and!.
    + done.
    + apply (ip_this _ _ _ _ Hpost).
    + rewrite options_initialised, Ho1. by destruct (closedDefault _).
    + rewrite options_initialised, Ho1. by destruct (closedDefault _).
    + rewrite options_initialised, Ho1. by destruct (closedDefault (options a)) eqn:E.
    + rewrite options_initialised, Ho1. by destruct (closedDefault _).
    + by rewrite element_initialised.
    + rewrite hasReachBreakpoint_initialised, Ho1, Hmq, Hw1.
      by rewrite (reachAtInit_min mq n width).
    + by rewrite (ip_select _ _ _ _ Hpost).
    + by rewrite (ip_reach _ _ _ _ Hpost).
  - destruct (active a && negb (matches mq width)).
    + destruct (destroy_keeps_instance (element a) r a1 w1 Ha1)
        as (a' & Ha' & Ho' & He' & Hr').
      exists (destroy (element a) w1), a'. split_and!; try congruence.
      * by rewrite select_destroy.
      * unfold reachCalls. by rewrite log_destroy.
    + exists w1, a1. split_and!; congruence.
Qed.

End AccordionFacts.

(** ** Facts about the toggle *)

Module ToggleFacts.
Import Dom Toggle DomFacts ToggleSpec.

Lemma keeps_refl w : keeps w w.
Proof. split; try done. intros r a Ha. by exists a. Qed.

Lemma keeps_trans w1 w2 w3 : keeps w1 w2 → keeps w2 w3 → keeps w1 w3.
Proof.
  intros [] []. split; try congruence.
  intros r a Ha. destruct (k_heap0 r a Ha) as (a' & Ha' & E1 & E2 & E3).
  destruct (k_heap1 r a' Ha') as (a'' & Ha'' & F1 & F2 & F3).
  exists a''. split_and!; congruence.
Qed.

Lemma keeps_nodes (f : Element → Element) n (w : Page) :
  keeps w (with_nodes (alter f n) w).
Proof.
  split; try done; simpl; [by rewrite length_alter|].
  intros r a Ha. by exists a.
Qed.

Lemma keeps_emit x (w : Page) : keeps w (emit x w).
Proof. split; try done. intros r a Ha. by exists a. Qed.

Lemma keeps_window f (w : Page) : keeps w (with_windowListeners f w).
Proof. split; try done. intros r a Ha. by exists a. Qed.

Lemma keeps_update this (f : Widget → Widget) (w : Page) :
  (∀ a, target (f a) = target a ∧ _element (f a) = _element a
        ∧ _settings (f a) = _settings a) →
  keeps w (update this f w).
Proof.
  intros Hf. split; try done. intros r a Ha. unfold update. simpl.
  destruct (decide (r = this)) as [->|Hne].
  - exists (f a). rewrite lookup_alter_eq, Ha. split; [done|apply Hf].
  - exists a. by rewrite lookup_alter_ne.
Qed.

Ltac keeps_step :=
  repeat first
    [ apply keeps_refl
    | eapply keeps_trans; [|apply keeps_nodes]
    | eapply keeps_trans; [|apply keeps_emit]
    | eapply keeps_trans; [|apply keeps_window]
    | eapply keeps_trans; [|by apply keeps_update] ].

Ltac keeps_ops :=
  unfold setAttribute, removeAttribute, removeStyle, addEventListener,
    removeEventListener, _closeOnEscPress, disableBodyScroll;
  repeat case_match; keeps_step.

Lemma open_keeps this (w w' : Page) : open this w = Ok w' → keeps w w'.
Proof.
  unfold open. repeat case_match; try done; intros [= <-]; keeps_ops.
Qed.

Lemma close_keeps this (w w' : Page) : close this w = Ok w' → keeps w w'.
Proof.
  unfold close. repeat case_match; try done; intros [= <-]; keeps_ops.
Qed.

Lemma reset_keeps this (w w' : Page) : reset this w = Ok w' → keeps w w'.
Proof.
  unfold reset. repeat case_match; try done; intros [= <-]; keeps_ops.
Qed.

Lemma handleClick_keeps this (w w' : Page) : handleClick this w = Ok w' → keeps w w'.
Proof.
  unfold handleClick. destruct (heap w !! this) as [a|]; [|done].
  destruct (target a) as [t|]; [|done].
  destruct (Js.truthy _).
  - destruct (bool_decide _); [apply close_keeps|apply open_keeps].
  - intros [= <-]. keeps_ops.
Qed.

Lemma destroy_keeps this (w w' : Page) : destroy this w = Ok w' → keeps w w'.
Proof.
  unfold destroy. destruct (heap w !! this) as [a|]; [|done].
  destruct (reset this (update this (with_initialized false) w)) as [w1| |] eqn:Hr;
    [|done..].
  cbn [mbind result_bind]. apply reset_keeps in Hr.
  assert (H0 : keeps w (update this (with_initialized false) w)) by by apply keeps_update.
  destruct (onClick (_settings a)); intros [= <-];
    (eapply keeps_trans; [exact H0|]); (eapply keeps_trans; [exact Hr|]); keeps_ops.
Qed.

Lemma init_keeps this id (w w' : Page) b : init this id w = Ok (b, w') → keeps w w'.
Proof.
  unfold init. destruct (heap w !! this) as [a|]; [|done].
  destruct (target a) as [t|].
  - match goal with
    | |- (mbind _ (if _ then open _ ?x else _)) = _ → _ => set (w5 := x)
    end.
    assert (H5 : keeps w w5).
    { unfold w5. keeps_ops. }
    destruct (isOpened (_settings a)).
    + destruct (open this w5) as [w6| |] eqn:Ho; [|done..].
      cbn [mbind result_bind]. intros [= _ <-].
      eapply keeps_trans; [exact H5|]. by eapply open_keeps.
    + cbn [mbind result_bind]. by intros [= _ <-].
  - destruct (onClick (_settings a)); intros [= _ <-]; keeps_ops.
Qed.

Lemma onResize_keeps this id (w w' : Page) : onResize this id w = Ok w' → keeps w w'.
Proof.
  unfold onResize. destruct (heap w !! this) as [a|]; [|done].
  match goal with
  | |- (mbind _ ?m) = _ → _ => destruct m as [[b w1]| |] eqn:H1; [|done..]
  end.
  cbn [mbind result_bind].
  assert (K1 : keeps w w1).
  { destruct (_ && _); [by eapply init_keeps|]. injection H1 as _ <-. apply keeps_refl. }
  destruct (heap w1 !! this) as [a1|]; [|done].
  destruct (mediaQuery (_settings a)) as [mq|]; [|intros [= <-]; exact K1].
  destruct (initialized a1 && _);
    [intros Hd; eapply keeps_trans; [exact K1|exact (destroy_keeps _ _ _ Hd)]|].
  destruct (negb (initialized a1) && matches _ _).
  { destruct (init this id w1) as [[b2 w2]| |] eqn:H2; [|done..].
    cbn [mbind result_bind]. intros [= <-].
    eapply keeps_trans; [exact K1|by eapply init_keeps]. }
  destruct (negb (initialized a1) && negb _); [|intros [= <-]; exact K1].
  destruct (target a1) as [t|]; [|done].
  destruct (nodes w1 !! t) as [e|]; [|intros [= <-]; exact K1].
  destruct (bool_decide (style_display e = Some "none")); intros [= <-]; [|exact K1].
  eapply keeps_trans; [exact K1|]. keeps_ops.
Qed.

Lemma toggle_construct_old el o id (w : Page) r :
  registry w !! el = Some r → construct el o id w = Ok (r, w).
Proof.
  intros H. unfold construct, AbstractDomElement.construct, AbstractDomElement.getInstance.
  by rewrite H.
Qed.

(** A construction that returns leaves the instance it returns
    registered for the node. *)
Lemma toggle_construct_registers el o id (w w' : Page) r :
  construct el o id w = Ok (r, w') → registry w' !! el = Some r.
Proof.
  unfold construct, AbstractDomElement.construct, AbstractDomElement.getInstance.
  destruct (registry w !! el) as [r0|] eqn:Hreg.
  - cbn [negb]. by intros [= <- <-].
  - cbn [negb].
    match goal with
    | |- (mbind _ ?m) = _ → _ => destruct m as [t| |]; [|done..]
    end.
    cbn [mbind result_bind].
    match goal with
    | |- (mbind _ (onResize _ _ ?x)) = _ → _ => set (w1 := x)
    end.
    destruct (onResize (fresh (dom (heap w))) id w1) as [w2| |] eqn:Hr; [|done..].
    cbn [mbind result_bind]. intros [= <- <-].
    apply onResize_keeps in Hr. rewrite (k_registry _ _ Hr).
    unfold w1. simpl. by rewrite lookup_insert_eq.
Qed.

(** *** The blur timer *)

(** The function of the timer touches the elements only. *)
Lemma blurTimeout_keeps (w : Page) r : keeps w (blurTimeout w r).
Proof. unfold blurTimeout. keeps_ops. Qed.

Lemma foldl_blurTimeout_keeps rs (w : Page) : keeps w (foldl blurTimeout w rs).
Proof.
  revert w. induction rs as [|r rs IH]; intros w; simpl; [apply keeps_refl|].
  eapply keeps_trans; [apply blurTimeout_keeps|apply IH].
Qed.

Lemma blurTimeout_closedState t el (w : Page) r :
  closedState t el w → closedState t el (blurTimeout w r).
Proof.
  intros [H1 H2]. unfold blurTimeout, closedState.
  destruct (heap w !! r) as [a|]; [|done]. destruct (target a) as [t'|]; [|done].
  rewrite !getAttribute_setAttribute.
  repeat case_decide; destruct_and?; simplify_eq; done.
Qed.

Lemma blurTimeout_closes this a t (w : Page) :
  heap w !! this = Some a → target a = Some t →
  t < length (nodes w) → _element a < length (nodes w) →
  closedState t (_element a) (blurTimeout w this).
Proof.
  intros Ha Ht Hlt Hle. unfold blurTimeout, closedState. rewrite Ha, Ht.
  rewrite !getAttribute_setAttribute.
  assert (Hlen : length (nodes (setAttribute t "aria-hidden" "true" w)) = length (nodes w)).
  { simpl. by rewrite length_alter. }
  rewrite Hlen. split.
  - rewrite decide_False by (intros (_ & ? & _); done). by rewrite decide_True.
  - by rewrite decide_True.
Qed.

Lemma foldl_blurTimeout_closedState t el rs (w : Page) :
  closedState t el w → closedState t el (foldl blurTimeout w rs).
Proof.
  revert w. induction rs as [|r rs IH]; intros w H; simpl; [done|].
  by apply IH, blurTimeout_closedState.
Qed.

(** *** The listeners [init] attaches *)

Lemma listener_kept (g : Element → Element) n m x (w : Page) :
  (∀ e, x ∈ listeners e → x ∈ listeners (g e)) →
  x ∈ elementListeners n w → x ∈ elementListeners n (with_nodes (alter g m) w).
Proof.
  intros Hg. unfold elementListeners. simpl.
  destruct (decide (m = n)) as [->|Hne].
  - rewrite list_lookup_alter_eq. destruct (nodes w !! n); simpl; [apply Hg|done].
  - by rewrite list_lookup_alter_ne.
Qed.

Lemma listener_added n type l (w : Page) :
  n < length (nodes w) → (type, l) ∈ elementListeners n (addEventListener n type l w).
Proof.
  intros Hn. unfold elementListeners, addEventListener. simpl.
  rewrite list_lookup_alter_eq.
  destruct (lookup_lt_is_Some_2 _ _ Hn) as [e ->]. simpl.
  apply AccordionFacts.add_listener_elem. by right.
Qed.

Lemma listener_kept_setAttribute n m k v x (w : Page) :
  x ∈ elementListeners n w → x ∈ elementListeners n (setAttribute m k v w).
Proof. by apply listener_kept. Qed.

Lemma listener_kept_addEventListener n m type l x (w : Page) :
  x ∈ elementListeners n w → x ∈ elementListeners n (addEventListener m type l w).
Proof.
  apply listener_kept. intros e He. simpl. apply AccordionFacts.add_listener_elem. by left.
Qed.

Lemma listener_kept_open this n x (w w' : Page) :
  open this w = Ok w' → x ∈ elementListeners n w → x ∈ elementListeners n w'.
Proof.
  unfold open. destruct (heap w !! this) as [a|]; [|done].
  destruct (target a) as [t|]; [|done]. intros [= <-] Hx.
  assert (H2 : x ∈ elementListeners n
                 (setAttribute (_element a) "aria-expanded" "true"
                    (setAttribute t "aria-hidden" "false" w)))
    by by do 2 apply listener_kept_setAttribute.
  unfold disableBodyScroll. by repeat case_match.
Qed.

(** With [closeOnBlur] set and a target, [init] leaves [handleBlur] on
    the trigger as a [blur] listener. *)
Lemma init_attaches_handleBlur this id (w w' : Page) a t b :
  heap w !! this = Some a →
  target a = Some t →
  closeOnBlur (_settings a) = true →
  _element a < length (nodes w) →
  init this id w = Ok (b, w') →
  ("blur", BoundMethod this "handleBlur") ∈ elementListeners (_element a) w'.
Proof.
  intros Ha Ht Hb Hlt. unfold init. rewrite Ha, Ht, Hb.
  match goal with
  | |- (mbind _ (if _ then open _ ?x else _)) = _ → _ => set (w7 := x)
  end.
  assert (H7 : ("blur", BoundMethod this "handleBlur") ∈ elementListeners (_element a) w7).
  { unfold w7, _closeOnEscPress.
    destruct (closeOnEscPress (_settings a)), (negb (hasAttribute t "aria-hidden" _));
      try apply listener_kept_setAttribute.
    all: change (elementListeners ?n (with_windowListeners ?f ?w))
           with (elementListeners n w).
    all: apply listener_added.
    all: destruct (onClick (_settings a)), (negb (Js.truthy _)); simpl;
      by rewrite ?length_alter. }
  destruct (isOpened (_settings a)).
  - destruct (open this w7) as [w8| |] eqn:Ho; [|done..].
    cbn [mbind result_bind]. intros [= _ <-]. by eapply listener_kept_open.
  - cbn [mbind result_bind]. by intros [= _ <-].
Qed.

(** [destroy] leaves the listeners of the window alone. *)
Lemma destroy_windowListeners this (w w' : Page) :
  destroy this w = Ok w' → windowListeners w' = windowListeners w.
Proof.
  unfold destroy, reset. destruct (heap w !! this) as [a|]; [|done].
  unfold update at 1. simpl.
  destruct (alter (with_initialized false) this (heap w) !! this) as [a1|]; [|done].
  destruct (target a1) as [t|]; [|done]. cbn [mbind result_bind].
  destruct (hasAnimation (_settings a1)), (onClick (_settings a)); by intros [= <-].
Qed.

(** A blur only starts timers. *)
Lemma handleBlur_pending this t el T r (w : Page) :
  pending this t el T w → pending this t el T (handleBlur r w).
Proof.
  intros [H1 H2 H3 H4]. split; try done. simpl. apply elem_of_app. by left.
Qed.

Lemma run_blur_listener_frame (w : Page) x :
  clock (run_blur_listener w x) = clock w
  ∧ nodes (run_blur_listener w x) = nodes w
  ∧ heap (run_blur_listener w x) = heap w
  ∧ ∀ y, y ∈ timers w → y ∈ timers (run_blur_listener w x).
Proof.
  unfold run_blur_listener. destruct x as [type [| | |]]; try done.
  destruct (_ && _); [|done]. split_and!; try done.
  intros y Hy. simpl. apply elem_of_app. by left.
Qed.

Lemma foldl_blur_frame ls (w : Page) :
  clock (foldl run_blur_listener w ls) = clock w
  ∧ nodes (foldl run_blur_listener w ls) = nodes w
  ∧ heap (foldl run_blur_listener w ls) = heap w
  ∧ ∀ y, y ∈ timers w → y ∈ timers (foldl run_blur_listener w ls).
Proof.
  revert w. induction ls as [|x ls IH]; intros w; simpl; [done|].
  destruct (run_blur_listener_frame w x) as (E1 & E2 & E3 & E4).
  destruct (IH (run_blur_listener w x)) as (F1 & F2 & F3 & F4).
  split_and!; try congruence. intros y Hy. by apply F4, E4.
Qed.

Lemma blur_pending this t el T n (w : Page) :
  pending this t el T w →
  pending this t el T (blur n w) ∧ clock (blur n w) = clock w.
Proof.
  intros [H1 H2 H3 H4]. unfold blur.
  destruct (foldl_blur_frame (elementListeners n w) w) as (E1 & E2 & E3 & E4).
  split; [|done]. split; rewrite ?E2, ?E3; try done. by apply E4.
Qed.

(** The blur of an element that carries the handler of [this] starts
    the timer of [this]. *)
Lemma blur_starts_timer this n (w : Page) :
  ("blur", BoundMethod this "handleBlur") ∈ elementListeners n w →
  ((clock w + blurDelay)%Z, this) ∈ timers (blur n w).
Proof.
  unfold blur. generalize (elementListeners n w). intros ls. revert w.
  induction ls as [|x ls IH]; intros w Hin; [by apply elem_of_nil in Hin|].
  apply elem_of_cons in Hin as [<-|Hin]; cbn [foldl].
  - apply foldl_blur_frame. simpl. apply elem_of_app. right.
    by apply list_elem_of_singleton.
  - destruct (run_blur_listener_frame w x) as (E1 & _). rewrite <- E1. by apply IH.
Qed.

(** Once the timer of [this] is among those that run, the target is
    hidden and the trigger collapsed, whatever the other timers do. *)
Lemma foldl_blurTimeout_closes this t el rs :
  ∀ (w : Page) a,
    this ∈ rs →
    heap w !! this = Some a → target a = Some t → _element a = el →
    t < length (nodes w) → el < length (nodes w) →
    closedState t el (foldl blurTimeout w rs).
Proof.
  induction rs as [|r rs IH]; intros w a Hin Ha Ht He Hlt Hle; simpl.
  - by apply elem_of_nil in Hin.
  - apply elem_of_cons in Hin as [<-|Hin].
    + apply foldl_blurTimeout_closedState. subst el. by eapply blurTimeout_closes.
    + destruct (blurTimeout_keeps w r) as [_ _ _ Hlen Hheap].
      destruct (Hheap this a Ha) as (a' & Ha' & Et & Ee & _).
      apply (IH _ a'); try done; rewrite ?Hlen; congruence.
Qed.

Lemma pending_keeps this t el T (w w' : Page) :
  keeps w w' → pending this t el T w → pending this t el T w'.
Proof.
  intros [_ _ Ht Hl Hh] [H1 (a & Ha & Hta & Hel) H3 H4].
  split; rewrite ?Ht, ?Hl; try done.
  destruct (Hh this a Ha) as (a' & Ha' & E1 & E2 & _).
  exists a'. split_and!; congruence.
Qed.

Lemma pending_orElse_from this t el T (w w0 : Page) m :
  keeps w w0 →
  (∀ w', m = Ok w' → keeps w w') →
  pending this t el T w →
  pending this t el T (orElse w0 m) ∧ clock (orElse w0 m) = clock w.
Proof.
  intros H0 Hm Hp. destruct m as [w'| |]; simpl.
  - specialize (Hm w' eq_refl).
    split; [by eapply pending_keeps|apply (k_clock _ _ Hm)].
  - split; [by eapply pending_keeps|apply (k_clock _ _ H0)].
  - split; [by eapply pending_keeps|apply (k_clock _ _ H0)].
Qed.

Lemma pending_orElse this t el T (w : Page) m :
  (∀ w', m = Ok w' → keeps w w') →
  pending this t el T w →
  pending this t el T (orElse w m) ∧ clock (orElse w m) = clock w.
Proof. apply pending_orElse_from, keeps_refl. Qed.

Lemma pending_advance this t el T dt (w : Page) :
  (clock w + dt < T)%Z →
  pending this t el T w →
  pending this t el T (advance dt w) ∧ clock (advance dt w) = (clock w + dt)%Z.
Proof.
  intros Hlt [H1 H2 H3 H4]. unfold advance.
  match goal with
  | |- context [foldl blurTimeout ?x ?l] =>
      pose proof (foldl_blurTimeout_keeps l x) as K; set (w' := foldl blurTimeout x l) in *
  end.
  split; [|by rewrite (k_clock _ _ K)].
  eapply pending_keeps; [exact K|]. split; try done. simpl.
  apply list_elem_of_filter. simpl. split; [lia|done].
Qed.

(** While the timer is pending, nothing that happens to the toggle
    removes it. *)
Lemma run_pending this t el T evs :
  ∀ (w : Page),
    Forall (λ ev, (0 ≤ duration ev)%Z) evs →
    (clock w + elapsed evs < T)%Z →
    pending this t el T w →
    pending this t el T (run this evs w)
    ∧ clock (run this evs w) = (clock w + elapsed evs)%Z.
Proof.
  induction evs as [|ev evs IH]; intros w Hnn Hlt Hp.
  - simpl. split; [done|lia].
  - apply Forall_cons in Hnn as [Hev Hnn]. cbn [elapsed foldr] in Hlt.
    fold (elapsed evs) in Hlt.
    assert (Hstep : pending this t el T (step this w ev)
                    ∧ clock (step this w ev) = (clock w + duration ev)%Z).
    { assert (Hnn' : Forall (λ ev, (0 ≤ duration ev)%Z) evs) by done.
      assert (He : (0 ≤ elapsed evs)%Z).
      { clear -Hnn'. induction Hnn' as [|x l Hx _ IHl]; simpl; [done|].
        fold (elapsed l). lia. }
      destruct ev; simpl in *; rewrite ?Z.add_0_r.
      - apply pending_orElse; [apply open_keeps|done].
      - apply pending_orElse; [apply close_keeps|done].
      - apply pending_orElse; [apply handleClick_keeps|done].
      - destruct (heap w !! this) as [a0|]; [by apply blur_pending|done].
      - split; [|done]. by destruct Hp.
      - apply pending_orElse_from; [by apply keeps_update|apply destroy_keeps|done].
      - apply pending_advance; [lia|done]. }
    destruct Hstep as [Hp' Hc']. unfold run. cbn [foldl]. fold (run this evs (step this w ev)).
    destruct (IH (step this w ev)) as [Hp'' Hc'']; [done|lia|done|].
    split; [done|]. cbn [elapsed foldr]. fold (elapsed evs). lia.
Qed.

Lemma toggle_construct_returned el o id (w : Page) r :
  fst <$> returned (construct el o id w) = Some r →
  construct el o id w = Ok (r, constructed el o id w).
Proof.
  unfold constructed. destruct (construct el o id w) as [[r' w']| |]; simpl; [|done..].
  by intros [= ->].
Qed.

(** *** [open], [close], [init] and [destroy], exactly *)

(** The calls [open] makes to the ports. *)
Lemma open_Ok this a t (w : Page) :
  heap w !! this = Some a → target a = Some t →
  ∃ w1,
    open this w = Ok w1
    ∧ nodes w1 = nodes (setAttribute (_element a) "aria-expanded" "true"
                          (setAttribute t "aria-hidden" "false" w))
    ∧ heap w1 = heap w
    ∧ windowListeners w1 = windowListeners w
    ∧ innerWidth w1 = innerWidth w
    ∧ log w1
      = log w
        ++ (if hasAnimation (_settings a) then [SlideDown t] else [])
        ++ (if bodyScrollLock (_settings a)
            then match bodyScrollLockMediaQuery (_settings a) with
                 | Some mq => if matches mq (innerWidth w) then [DisableBodyScroll t] else []
                 | None => [DisableBodyScroll t]
                 end
            else []).
Proof.
  intros Ha Ht. unfold open. rewrite Ha, Ht. eexists. split; [done|].
  unfold disableBodyScroll.
  destruct (hasAnimation (_settings a)), (bodyScrollLock (_settings a)),
    (bodyScrollLockMediaQuery (_settings a)) as [mq|]; simpl;
    try destruct (matches mq (innerWidth w)); simpl;
    rewrite <- ?app_assoc, ?app_nil_r; done.
Qed.

Lemma close_Ok this a t (w : Page) :
  heap w !! this = Some a → target a = Some t →
  ∃ w1,
    close this w = Ok w1
    ∧ nodes w1 = nodes (setAttribute (_element a) "aria-expanded" "false"
                          (setAttribute t "aria-hidden" "true" w))
    ∧ heap w1 = heap w
    ∧ windowListeners w1 = windowListeners w
    ∧ innerWidth w1 = innerWidth w
    ∧ log w1
      = log w
        ++ (if hasAnimation (_settings a) then [SlideUp t] else [])
        ++ (if bodyScrollLock (_settings a) then [EnableBodyScroll t] else []).
Proof.
  intros Ha Ht. unfold close. rewrite Ha, Ht. eexists. split; [done|].
  destruct (hasAnimation (_settings a)), (bodyScrollLock (_settings a)); simpl;
    rewrite <- ?app_assoc, ?app_nil_r; done.
Qed.

(** The attributes after [open] and after [close]. *)
Lemma getAttribute_opened a t n name (w w1 : Page) :
  nodes w1 = nodes (setAttribute (_element a) "aria-expanded" "true"
                      (setAttribute t "aria-hidden" "false" w)) →
  getAttribute n name w1
  = if decide (_element a = n ∧ "aria-expanded" = name ∧ _element a < length (nodes w))
    then Some "true"
    else if decide (t = n ∧ "aria-hidden" = name ∧ t < length (nodes w))
    then Some "false"
    else getAttribute n name w.
Proof.
  intros Hn. rewrite (getAttribute_nodes _ _ _ _ Hn), !getAttribute_setAttribute.
  simpl. by rewrite length_alter.
Qed.

Lemma getAttribute_closed a t n name (w w1 : Page) :
  nodes w1 = nodes (setAttribute (_element a) "aria-expanded" "false"
                      (setAttribute t "aria-hidden" "true" w)) →
  getAttribute n name w1
  = if decide (_element a = n ∧ "aria-expanded" = name ∧ _element a < length (nodes w))
    then Some "false"
    else if decide (t = n ∧ "aria-hidden" = name ∧ t < length (nodes w))
    then Some "true"
    else getAttribute n name w.
Proof.
  intros Hn. rewrite (getAttribute_nodes _ _ _ _ Hn), !getAttribute_setAttribute.
  simpl. by rewrite length_alter.
Qed.

(** [init] and [destroy] write the field [initialized] and no other
    field of any instance. *)
Lemma init_heap this id (w w' : Page) b :
  init this id w = Ok (b, w') → heap w' = alter (with_initialized true) this (heap w).
Proof.
  unfold init. destruct (heap w !! this) as [a|] eqn:Ha; [|done].
  destruct (target a) as [t|] eqn:Ht.
  - match goal with
    | |- (mbind _ (if _ then open _ ?x else _)) = _ → _ => set (w5 := x)
    end.
    assert (H5 : heap w5 = alter (with_initialized true) this (heap w)).
    { unfold w5, _closeOnEscPress. by repeat case_match. }
    destruct (isOpened (_settings a)).
    + assert (Ha5 : heap w5 !! this = Some (with_initialized true a))
        by by rewrite H5, lookup_alter_eq, Ha.
      destruct (open_Ok this _ t w5 Ha5) as (w6 & -> & _ & Hh & _); [done|].
      cbn [mbind result_bind]. intros [= _ <-]. by rewrite Hh.
    + cbn [mbind result_bind]. by intros [= _ <-].
  - destruct (onClick (_settings a)); by intros [= _ <-].
Qed.

Lemma destroy_heap this (w w' : Page) :
  destroy this w = Ok w' → heap w' = alter (with_initialized false) this (heap w).
Proof.
  unfold destroy, reset. destruct (heap w !! this) as [a|]; [|done].
  unfold update at 1. simpl.
  destruct (alter (with_initialized false) this (heap w) !! this) as [a1|]; [|done].
  destruct (target a1) as [t|]; [|done]. cbn [mbind result_bind].
  destruct (hasAnimation (_settings a1)), (onClick (_settings a)); by intros [= <-].
Qed.

(** [init] returns whenever the instance exists. *)
Lemma toggle_init_total this id (w : Page) a :
  heap w !! this = Some a →
  ∃ w', init this id w = Ok (bool_decide (is_Some (target a)), w').
Proof.
  intros Ha. unfold init. rewrite Ha. destruct (target a) as [t|] eqn:Ht.
  - rewrite bool_decide_eq_true_2 by eauto.
    match goal with
    | |- ∃ w', (mbind _ (if _ then open _ ?x else _)) = _ => set (w5 := x)
    end.
    destruct (isOpened (_settings a)); [|cbn [mbind result_bind]; eauto].
    assert (Ha5 : heap w5 !! this = Some (with_initialized true a)).
    { assert (H5 : heap w5 = alter (with_initialized true) this (heap w)).
      { unfold w5, _closeOnEscPress. by repeat case_match. }
      by rewrite H5, lookup_alter_eq, Ha. }
    destruct (open_Ok this _ t w5 Ha5) as (w6 & -> & _); [done|].
    cbn [mbind result_bind]. eauto.
  - rewrite bool_decide_eq_false_2 by (intros [? ?]; done).
    destruct (onClick (_settings a)); eauto.
Qed.

(** [init] puts one more listener on the window when it is to close on
    Escape and has a target, and none otherwise. *)
Lemma init_windowListeners this id (w w' : Page) a b :
  heap w !! this = Some a →
  init this id w = Ok (b, w') →
  windowListeners w'
  = if closeOnEscPress (_settings a) && bool_decide (is_Some (target a))
    then add_new_listener "keydown" "_closeOnEscPress" (windowListeners w)
    else windowListeners w.
Proof.
  intros Ha. unfold init. rewrite Ha. destruct (target a) as [t|] eqn:Ht.
  - rewrite bool_decide_eq_true_2 by eauto. rewrite andb_true_r.
    match goal with
    | |- (mbind _ (if _ then open _ ?x else _)) = _ → _ => set (w5 := x)
    end.
    assert (H5 : windowListeners w5
                 = (if closeOnEscPress (_settings a)
                    then add_new_listener "keydown" "_closeOnEscPress" (windowListeners w)
                    else windowListeners w)
                 ∧ heap w5 !! this = Some (with_initialized true a)).
    { unfold w5, _closeOnEscPress. split.
      - by repeat case_match.
      - assert (H : ∀ u : Page, heap u = alter (with_initialized true) this (heap w) →
                      heap u !! this = Some (with_initialized true a))
          by (intros u ->; by rewrite lookup_alter_eq, Ha).
        apply H. by repeat case_match. }
    destruct H5 as [H5 Ha5].
    destruct (isOpened (_settings a)).
    + destruct (open_Ok this _ t w5 Ha5) as (w6 & -> & _ & _ & Hw & _); [done|].
      cbn [mbind result_bind]. intros [= _ <-]. by rewrite Hw.
    + cbn [mbind result_bind]. by intros [= _ <-].
  - rewrite bool_decide_eq_false_2 by (intros [? ?]; done). rewrite andb_false_r.
    destruct (onClick (_settings a)); by intros [= _ <-].
Qed.

End ToggleFacts.

(** ** The claims about the accordion *)

Module AccordionClaims.
Import Dom Accordion DomFacts AccordionSpec AccordionFacts.

Lemma unique_id_nodes n (w w' : Page) :
  nodes w' = nodes w → unique_id n w → unique_id n w'.
Proof.
  intros Hn. apply unique_id_kept. intros m. unfold getAttribute. by rewrite Hn.
Qed.

(** C8.  Two accordion groups constructed one after the other on the same
    page, whatever their options, their prefixes and the random ids they
    draw (the same ones included): both constructions return, every
    trigger and panel of either group then has an id, and no other
    element of the document carries that id. *)
Theorem generated_ids_unique (w : Page) (el1 el2 : Node) (o1 o2 : PartialOptions)
    (id1 id2 : string) :
  let m1 := mergeOptions defaults o1 in
  let m2 := mergeOptions defaults o2 in
  registry w !! el1 = None →
  registry w !! el2 = None →
  el1 ≠ el2 →
  mediaQuery m1 = None →
  mediaQuery m2 = None →
  closedDefault m1 = false ∨ is_Some (select w el1 (triggerSelector m1) !! 0) →
  closedDefault m2 = false ∨ is_Some (select w el2 (triggerSelector m2) !! 0) →
  ∃ r1 w1 r2 w2,
    construct el1 o1 id1 w = Ok (r1, w1)
    ∧ construct el2 o2 id2 w1 = Ok (r2, w2)
    ∧ ∀ n, n ∈ group w el1 m1 ++ group w el2 m2 →
           unique_id n w2
           ∧ (n < length (nodes w) → is_Some (getAttribute n "id" w2)).
Proof.
  intros m1 m2 Hr1 Hr2 Hne Hq1 Hq2 Hc1 Hc2.
  set (r1 := fresh (dom (heap w))).
  set (wa := registered el1 m1 w).
  destruct (init_total r1 id1 wa (newWidget el1 m1)) as [w1 E1].
  { apply heap_registered. }
  { exact Hc1. }
  pose proof (init_ok r1 id1 wa (newWidget el1 m1) (λ _, False)
                (heap_registered _ _ _) w1 E1) as (Hp1 & Hu1 & Hh1); [tauto|].
  assert (Hreg1 : registry w1 !! el2 = None).
  { rewrite (ip_registry _ _ _ _ Hp1). unfold wa, registered. simpl.
    by rewrite lookup_insert_ne. }
  assert (Hsel1 : select w1 = select w) by apply (ip_select _ _ _ _ Hp1).
  set (r2 := fresh (dom (heap w1))).
  set (wb := registered el2 m2 w1).
  destruct (init_total r2 id2 wb (newWidget el2 m2)) as [w2 E2].
  { apply heap_registered. }
  { unfold wb, registered. simpl. by rewrite Hsel1. }
  pose proof (init_ok r2 id2 wb (newWidget el2 m2) (λ n, n ∈ group w el1 m1)
                (heap_registered _ _ _) w2 E2) as (Hp2 & Hu2 & Hh2).
  { intros n Hn. apply (unique_id_nodes n w1); [done|]. apply Hu1. right.
    by apply elem_of_app in Hn. }
  exists r1, w1, r2, w2. split_and!.
  - rewrite construct_new by done. fold m1. rewrite Hq1. simpl. fold r1 wa.
    by rewrite E1.
  - rewrite construct_new by done. fold m2. rewrite Hq2. simpl. fold r2 wb.
    by rewrite E2.
  - intros n Hn. split.
    + apply Hu2. apply elem_of_app in Hn as [Hn|Hn]; [by left|right].
      apply elem_of_app in Hn. unfold wb, registered. simpl. by rewrite Hsel1.
    + intros Hlt. apply Hh2.
      assert (Hlen : length (nodes wb) = length (nodes w)).
      { unfold wb, registered. simpl. by rewrite (ip_length _ _ _ _ Hp1). }
      apply elem_of_app in Hn as [Hn|Hn].
      * left. unfold getAttribute, wb, registered. simpl.
        apply Hh1. right. split; [|done]. by apply elem_of_app in Hn.
      * right. rewrite Hlen. split; [|done]. unfold wb, registered. simpl.
        rewrite Hsel1. by apply elem_of_app in Hn.
Qed.

Lemma generated_ids_unique_witness :
  ∃ r1 w1 r2 w2,
    construct 0 noOptions "k3x" Example.page = Ok (r1, w1)
    ∧ construct 10 noOptions "k3x" w1 = Ok (r2, w2)
    ∧ ∀ n, n ∈ group Example.page 0 (mergeOptions defaults noOptions)
               ++ group Example.page 10 (mergeOptions defaults noOptions) →
           unique_id n w2
           ∧ (n < length (nodes (Example.page (I:=Widget))) →
              is_Some (getAttribute n "id" w2)).
Proof.
  apply (generated_ids_unique Example.page 0 10 noOptions noOptions "k3x" "k3x").
  - reflexivity.
  - reflexivity.
  - lia.
  - reflexivity.
  - reflexivity.
  - left. reflexivity.
  - left. reflexivity.
Defined.

(** The two runs of resizes that the specification gives as examples,
    on any page: a group with the query [(min-width: 768px)] and an
    [onReachBreakpoint] callback, constructed in a viewport 800 wide.
    Resizing to 900 and then to 1000 calls the callback zero times;
    resizing from 800 to 700 calls it exactly once, with [matches =
    false]. *)
Theorem breakpoint_callback_once_per_crossing (w : Page) (el : Node) (o : PartialOptions)
    (id id1 id2 f : string) :
  let m := mergeOptions defaults o in
  registry w !! el = None →
  innerWidth w = 800%Z →
  mediaQuery m = Some minWidth768 →
  onReachBreakpoint m = Some f →
  closedDefault m = false ∨ is_Some (select w el (triggerSelector m) !! 0) →
  ∃ r w0,
    construct el o id w = Ok (r, w0)
    ∧ reachCalls w0 = reachCalls w
    ∧ (∃ w1 w2,
         resize r 900 id1 w0 = Ok w1
         ∧ resize r 1000 id2 w1 = Ok w2
         ∧ reachCalls w1 = reachCalls w
         ∧ reachCalls w2 = reachCalls w)
    ∧ (∃ w1,
         resize r 700 id1 w0 = Ok w1
         ∧ reachCalls w1 = reachCalls w ++ [CallOnReachBreakpoint f false]).
Proof.
  intros m Hreg Hwidth Hmq Hf Hcd.
  pose proof (construct_new el o id w Hreg) as Hnew. cbv zeta in Hnew.
  fold m in Hnew. rewrite Hmq, Hwidth in Hnew. simpl in Hnew. clearbody m.
  set (r := fresh (dom (heap w))) in *.
  set (wa := registered el m w) in *.
  destruct (init_total r id wa (newWidget el m)) as [w0 E0];
    [apply heap_registered|exact Hcd|].
  pose proof (init_ok r id wa (newWidget el m) (λ _, False)
                (heap_registered _ _ _) w0 E0) as (Hp & _ & _); [tauto|].
  destruct Hp as [Hthis _ _ _ _ _ _ _ _ Hreach].
  set (a := initialised (newWidget el m) (innerWidth wa)) in Hthis.
  assert (Hact : active a = true).
  { unfold a, initialised. simpl. by destruct (closedDefault m), (reachAtInit _ _). }
  assert (Hr : hasReachBreakpoint a = Some above).
  { unfold a, initialised. simpl. rewrite Hmq, Hwidth.
    by destruct (closedDefault m). }
  assert (Ho : mediaQuery (options a) = Some minWidth768
               ∧ onReachBreakpoint (options a) = Some f ∧ element a = el).
  { unfold a, initialised. simpl. by destruct (closedDefault m), (reachAtInit _ _). }
  destruct Ho as (Hmq' & Hf' & Hel).
  exists r, w0. split_and!.
  - by rewrite Hnew, E0.
  - exact Hreach.
  - exists (with_innerWidth 900 w0), (with_innerWidth 1000 (with_innerWidth 900 w0)).
    split_and!.
    + by apply (resize_above _ _ _ _ a).
    + by apply (resize_above _ _ _ _ a).
    + exact Hreach.
    + exact Hreach.
  - eexists. split; [by apply (resize_below _ _ _ _ a f)|].
    unfold reachCalls. rewrite log_destroy. simpl.
    rewrite filter_app. fold (reachCalls w0). rewrite Hreach.
    by rewrite filter_cons_True.
Qed.

Lemma breakpoint_callback_once_per_crossing_witness :
  ∃ r w0,
    construct 0
      (mkPartialOptions None None None None (Some (Some minWidth768)) None
         (Some (Some "onReach")) None None None None None) "k3x" Example.page
    = Ok (r, w0)
    ∧ reachCalls w0 = reachCalls Example.page
    ∧ (∃ w1 w2,
         resize r 900 "a" w0 = Ok w1
         ∧ resize r 1000 "b" w1 = Ok w2
         ∧ reachCalls w1 = reachCalls Example.page
         ∧ reachCalls w2 = reachCalls Example.page)
    ∧ (∃ w1,
         resize r 700 "a" w0 = Ok w1
         ∧ reachCalls w1
           = reachCalls Example.page ++ [CallOnReachBreakpoint "onReach" false]).
Proof.
  apply (breakpoint_callback_once_per_crossing Example.page 0
           (mkPartialOptions None None None None (Some (Some minWidth768)) None
              (Some (Some "onReach")) None None None None None) "k3x" "a" "b" "onReach").
  - reflexivity.
  - reflexivity.
  - reflexivity.
  - reflexivity.
  - left. reflexivity.
Defined.

Ltac evaluate := vm_compute; reflexivity.

(** C6.  The callback is not called once for each crossing of the
    breakpoint.  The first group of the example page with the query
    [(min-width: 768px)] and an [onReachBreakpoint] callback:

    - constructed 800 wide and resized to 768, where the query matches
      as it did at 800, the callback is called, with [matches = true];
      resized on to 767, where the query stops matching, it is not
      called: [init] and [_handleResize] count a width of exactly 768 as
      below the breakpoint;
    - constructed 700 wide, where the query does not match, and resized
      to 800, where it does, the callback is not called:
      [hasReachBreakpoint] is not set before [init] has run, and the
      constructor runs [init] only when the query matches.

    The two runs the specification names behave as it says: from 800,
    resizing to 900 and 1000 calls nothing, and resizing to 700 calls the
    callback once with [matches = false]; resizing back to 800 calls it
    once more, with [matches = true]. *)
Theorem breakpoint_callback_misses_crossings :
  reachCalls afterInitResponsive = []
  ∧ reachCallsAfter 0 [(900, "a"); (1000, "b")]%Z afterInitResponsive = Some []
  ∧ reachCallsAfter 0 [(700, "a")]%Z afterInitResponsive
    = Some [CallOnReachBreakpoint "onReach" false]
  ∧ reachCallsAfter 0 [(700, "a"); (800, "b")]%Z afterInitResponsive
    = Some [CallOnReachBreakpoint "onReach" false; CallOnReachBreakpoint "onReach" true]
  ∧ (matches minWidth768 800 = true ∧ matches minWidth768 768 = true
     ∧ reachCallsAfter 0 [(768, "a")]%Z afterInitResponsive
       = Some [CallOnReachBreakpoint "onReach" true])
  ∧ (matches minWidth768 767 = false
     ∧ reachCallsAfter 0 [(768, "a"); (767, "b")]%Z afterInitResponsive
       = Some [CallOnReachBreakpoint "onReach" true])
  ∧ (matches minWidth768 700 = false
     ∧ reachCalls builtNarrow = []
     ∧ (hasReachBreakpoint <$> heap builtNarrow !! 0) = Some None
     ∧ reachCallsAfter 0 [(800, "a")]%Z builtNarrow = Some []).
Proof.
  split_and!; evaluate.
Qed.

Ltac returns := apply construct_returned; evaluate.

(** C1.  The first group of the example page, constructed with the
    default options ([allowMultiple] is false) and not clicked at all:
    [init] has hidden none of its four panels.  After a click on the
    first trigger with [forceExpand] off, three are still displayed. *)
Theorem all_panels_displayed_after_init :
  ∃ r w,
    construct 0 noOptions "k3x" Example.page = Ok (r, w)
    ∧ (allowMultiple ∘ options) <$> heap w !! r = Some false
    ∧ openPanels r (clicks r [] w) = [2; 4; 6; 8]
    ∧ ∃ r' w',
        construct 0
          (mkPartialOptions None None (Some false) None None None None None None None None None)
          "k3x" Example.page = Ok (r', w')
        ∧ (allowMultiple ∘ options) <$> heap w' !! r' = Some false
        ∧ openPanels r' (clicks r' [1] w') = [4; 6; 8].
Proof.
  exists 0, (constructed 0 noOptions "k3x" Example.page).
  split; [returns|]. split; [evaluate|]. split; [evaluate|].
  exists 0, (constructed 0
               (mkPartialOptions None None (Some false) None None None None None None None
                  None None) "k3x" Example.page).
  split; [returns|]. split; evaluate.
Qed.

(** C4.  The layout [init] leaves on the first group of the example
    page: the first trigger is expanded and the others are not, but the
    second, third and fourth panel are still displayed. *)
Theorem init_layout_keeps_later_panels_displayed :
  ∃ r w,
    construct 0 noOptions "k3x" Example.page = Ok (r, w)
    ∧ expandedStates r w = [Some "true"; Some "false"; Some "false"; Some "false"]
    ∧ isClosed 4 w = false ∧ isClosed 6 w = false ∧ isClosed 8 w = false.
Proof.
  exists 0, (constructed 0 noOptions "k3x" Example.page).
  split; [returns|]. split_and!; evaluate.
Qed.

(** C3.  [init(); destroy(); init()] on the first group of the example
    page leaves two [keydown] listeners on the document: the unbound
    method that [init] adds, and the bound handler that [destroy] adds
    where it was to remove one. *)
Theorem init_destroy_init_two_keydown_listeners :
  ∃ r w1 w3,
    construct 0 noOptions "k3x" Example.page = Ok (r, w1)
    ∧ keydownListeners w1 = [PrototypeMethod "_handleKeydown"]
    ∧ keydownListeners (destroy 0 w1)
      = [PrototypeMethod "_handleKeydown"; BoundMethod r "handleKeydown"]
    ∧ init r "p7q" (destroy 0 w1) = Ok w3
    ∧ keydownListeners w3
      = [PrototypeMethod "_handleKeydown"; BoundMethod r "handleKeydown"].
Proof.
  exists 0, (constructed 0 noOptions "k3x" Example.page),
    (initialisedPage 0 "p7q" (destroy 0 (constructed 0 noOptions "k3x" Example.page))).
  split; [returns|]. split; [evaluate|]. split; [evaluate|].
  split; [|evaluate].
  apply init_returned. evaluate.
Qed.

(** C7.  The first group of the example page, active, with the keyboard
    focus on its third trigger (node 5) and [this.focus] set by the focus
    listener.  ArrowDown reaches only the unbound method, which runs on
    the document and returns at once: the focus stays where it is and
    the default action of the key is not suppressed. *)
Theorem keydown_on_active_group_does_nothing :
  ∃ r w,
    construct 0 noOptions "k3x" Example.page = Ok (r, w)
    ∧ active <$> heap (focusNode 5 w) !! r = Some true
    ∧ focus <$> heap (focusNode 5 w) !! r = Some true
    ∧ activeElement (focusNode 5 w) = Some 5
    ∧ activeElement (keydown "ArrowDown" (focusNode 5 w)).2 = Some 5
    ∧ defaultPrevented (keydown "ArrowDown" (focusNode 5 w)).1 = false.
Proof.
  exists 0, (constructed 0 noOptions "k3x" Example.page).
  split; [returns|]. split_and!; evaluate.
Qed.

(** The keyboard handler run on its instance, in the same state: the
    four keys move the focus among the four triggers (nodes 1, 3, 5, 7),
    wrapping around, suppress the default action, and leave the triggers
    and the panels as they are.  It is the registration that fails, not
    the handler. *)
Lemma bound_handler_on_four_triggers :
  let w := constructed 0 noOptions "k3x" Example.page in
  let press key from :=
    _handleKeydown (ThisInstance 0) (mkKeyboardEvent key false) (focusNode from w) in
  activeElement (press "ArrowDown" 5).2 = Some 7
  ∧ activeElement (press "ArrowDown" 7).2 = Some 1
  ∧ activeElement (press "ArrowUp" 1).2 = Some 7
  ∧ activeElement (press "Home" 5).2 = Some 1
  ∧ activeElement (press "End" 3).2 = Some 7
  ∧ Forall (λ key, defaultPrevented (press key 5).1 = true
                   ∧ expandedStates 0 (press key 5).2 = expandedStates 0 w
                   ∧ openPanels 0 (press key 5).2 = openPanels 0 w)
      ["ArrowDown"; "ArrowUp"; "Home"; "End"].
Proof.
  cbv zeta. split_and!; try evaluate.
  repeat constructor; evaluate.
Qed.

(** After [init(); destroy(); init()] the bound handler is on the
    document (put there by [destroy]), and the same key press moves the
    focus. *)
Lemma keydown_after_destroy_and_init :
  let w := initialisedPage 0 "p7q" (destroy 0 (constructed 0 noOptions "k3x" Example.page)) in
  activeElement (keydown "ArrowDown" (focusNode 5 w)).2 = Some 7
  ∧ defaultPrevented (keydown "ArrowDown" (focusNode 5 w)).1 = true.
Proof.
  cbv zeta. split; evaluate.
Qed.

Lemma firstOpen_single_open : single_open 0 firstOpenWidget 1 2 firstOpen.
Proof.
  split.
  - evaluate.
  - reflexivity.
  - reflexivity.
  - exists "accordion-k3x-panel-1". split_and!; [evaluate|done|evaluate].
  - intros tid t H1 H2. vm_compute in H1. injection H1 as <-.
    vm_compute in H2. by injection H2.
  - evaluate.
  - evaluate.
  - refine (bool_decide_unpack _ _). vm_compute. exact I.
Qed.

Lemma firstOpen_wired : wired 0 0 (mergeOptions defaults withOnOpen) firstOpen.
Proof.
  apply (wired_check 0 0 _ firstOpen firstOpenWidget).
  - evaluate.
  - reflexivity.
  - reflexivity.
  - refine (bool_decide_unpack _ _). vm_compute. exact I.
  - evaluate.
  - evaluate.
Qed.

(** Once a single panel is displayed, no run of clicks on the group
    displays two: what shows several panels is [init] alone. *)
Lemma clicks_on_firstOpen_keep_one_panel triggers :
  (length (openPanels 0 (clicks 0 triggers firstOpen)) ≤ 1)%nat.
Proof.
  apply (clicks_keep_one_panel 0 0 (mergeOptions defaults withOnOpen)).
  - apply firstOpen_wired.
  - reflexivity.
  - reflexivity.
  - vm_compute. lia.
Qed.

(** C2, the claim as it stands fails: in the state [firstOpen] the first
    trigger is the one open trigger of a group with [forceExpand] and
    without [allowMultiple], and a click on it is not a no-op: it calls
    [onOpen] and moves the focus into the panel. *)
Lemma click_on_open_trigger_not_noop :
  single_open 0 firstOpenWidget 1 2 firstOpen
  ∧ log (_handleButtonClick 0 1 firstOpen) = log firstOpen ++ [CallOnOpen "userOnOpen" 2]
  ∧ activeElement firstOpen = Some 1
  ∧ activeElement (_handleButtonClick 0 1 firstOpen) = Some 9
  ∧ ¬ noop_click 0 1 firstOpen.
Proof.
  split; [apply firstOpen_single_open|].
  split; [evaluate|]. split; [evaluate|]. split; [evaluate|].
  intros (_ & _ & _ & Hlog).
  assert (Hlen : length (log (_handleButtonClick 0 1 firstOpen)) = length (log firstOpen))
    by by rewrite Hlog.
  vm_compute in Hlen. discriminate.
Qed.

(** C2, as amended.  In a group with [forceExpand] and without
    [allowMultiple], a click on the one expanded trigger, whose panel is
    the only panel of the group that is displayed, leaves every
    attribute of every element but [style] (the [aria-expanded] of every
    trigger among them) and the visibility of every panel as they were,
    and calls no [onClose].  But it opens the panel again: it writes
    [display: block] into the inline style of the panel and calls
    [onOpen] once with the panel.  It never calls [focus()] when the
    panel holds no focusable element, and the keyboard focus then stays
    where it is; when the panel holds one, the handler calls [focus()]
    on the first. *)
Theorem click_on_single_open_trigger (this : Ref) (a : Widget) (trigger panel : Node)
    (w : Page) :
  single_open this a trigger panel w →
  let w' := _handleButtonClick this trigger w in
  (∀ n name, name ≠ "style" → getAttribute n name w' = getAttribute n name w)
  ∧ (∀ p, isClosed p w' = isClosed p w)
  ∧ inlineDisplay panel w' = Some "block"
  ∧ log w' = log w ++ match onOpen (options a) with
                      | Some f => [CallOnOpen f panel]
                      | None => []
                      end
  ∧ (select w panel FOCUSABLE_ELEMENTS !! 0 = None → activeElement w' = activeElement w).
Proof.
  intros [Ha Hf Hm (pid & Hc & Hne & Hp) Hl He Hd Ho]. simpl.
  pose proof (getElementById_lt _ _ _ Hp) as Hlt.
  unfold _handleButtonClick. rewrite Ha, Hc.
  assert (Htruthy : Js.truthy (Some pid) = true).
  { simpl. apply negb_true_iff. by apply String.eqb_neq. }
  rewrite Htruthy. cbn [negb]. change (default "" (Some pid)) with pid.
  rewrite Hp, He, Hf, Hm.
  rewrite bool_decide_eq_true_2 by done. cbn [negb andb orb].
  match goal with
  | |- context [setAttribute trigger "aria-expanded" "true" ?x] => set (wk := x)
  end.
  assert (Hwk : wk = w ∨ wk = setAttribute trigger "aria-expanded" "false" w).
  { unfold wk. destruct (Js.truthy (getAttribute panel "aria-labelledby" w)) eqn:Ht;
      [|by left].
    destruct (getAttribute panel "aria-labelledby" w) as [tid|] eqn:Hlab; [|done].
    change (default "" (Some tid)) with tid.
    destruct (getElementById tid w) as [t|] eqn:Hg;
      [|left; apply collapse_no_label].
    rewrite (Hl tid t eq_refl Hg). by eapply collapse_others_closed. }
  set (w2 := setAttribute trigger "aria-expanded" "true" wk).
  assert (H2 : (∀ n name, getAttribute n name w2 = getAttribute n name w)
               ∧ (∀ p, getComputedDisplay p w2 = getComputedDisplay p w)
               ∧ log w2 = log w ∧ heap w2 = heap w ∧ select w2 = select w
               ∧ activeElement w2 = activeElement w
               ∧ length (nodes w2) = length (nodes w)).
  { unfold w2. destruct Hwk as [->| ->].
    - split_and!; try done.
      + intros n name. rewrite getAttribute_setAttribute. case_decide; [|done].
        by destruct_and!; simplify_eq.
      + intros p. apply getComputedDisplay_setAttribute.
      + simpl. by rewrite length_alter.
    - rewrite setAttribute_twice. split_and!; try done.
      + intros n name. rewrite getAttribute_setAttribute. case_decide; [|done].
        by destruct_and!; simplify_eq.
      + intros p. apply getComputedDisplay_setAttribute.
      + simpl. by rewrite length_alter. }
  destruct H2 as (Hattr & Hdisp & Hlog & Hheap & Hsel & Hact & Hlen).
  assert (Hd2 : isClosed panel w2 = false).
  { unfold isClosed in *. by rewrite Hdisp. }
  destruct (open_displayed this panel w2 a) as (Hn3 & Hl3 & Ha3 & Hs3);
    [by rewrite Hheap|done|].
  destruct (call_frame (onOpen (options a)) (λ f, CallOnOpen f panel) (open this panel w2))
    as (Hn4 & Ha4 & Hl4).
  split_and!.
  - intros n name _. rewrite (getAttribute_nodes _ _ _ _ Hn4),
      (getAttribute_nodes _ _ _ _ Hn3), getAttribute_setDisplay. apply Hattr.
  - intros p. unfold isClosed.
    rewrite (getComputedDisplay_nodes _ _ _ Hn4), (getComputedDisplay_nodes _ _ _ Hn3),
      getComputedDisplay_setDisplay.
    case_decide as Hcase; [|by rewrite Hdisp].
    destruct Hcase as [<- _]. unfold isClosed in Hd.
    rewrite Hd. by apply bool_decide_eq_false_2.
  - unfold inlineDisplay. rewrite Hn4, Hn3.
    assert (Hin : panel < length (nodes w2)) by by rewrite Hlen.
    destruct (lookup_lt_is_Some_2 _ _ Hin) as [e Hnode].
    unfold setDisplay. cbn [nodes with_nodes]. by rewrite list_lookup_alter_eq, Hnode.
  - by rewrite Hl4, Hl3, Hlog.
  - intros Hnone. by rewrite Ha4, Ha3, Hsel, Hnone, Hact.
Qed.

Lemma click_on_single_open_trigger_witness :
  let w' := _handleButtonClick 0 1 firstOpen in
  (∀ n name, name ≠ "style" → getAttribute n name w' = getAttribute n name firstOpen)
  ∧ (∀ p, isClosed p w' = isClosed p firstOpen)
  ∧ inlineDisplay 2 w' = Some "block"
  ∧ log w' = log firstOpen ++ [CallOnOpen "userOnOpen" 2]
  ∧ (select firstOpen 2 FOCUSABLE_ELEMENTS !! 0 = None
     → activeElement w' = activeElement firstOpen).
Proof.
  apply (click_on_single_open_trigger 0 firstOpenWidget 1 2 firstOpen).
  split.
  - vm_compute; reflexivity.
  - reflexivity.
  - reflexivity.
  - exists "accordion-k3x-panel-1". split_and!; [vm_compute; reflexivity|done|vm_compute; reflexivity].
  - intros tid t H1 H2. vm_compute in H1. injection H1 as <-.
    vm_compute in H2. by injection H2.
  - vm_compute; reflexivity.
  - vm_compute; reflexivity.
  - refine (bool_decide_unpack _ _). vm_compute. exact I.
Defined.

End AccordionClaims.

(** ** The claim about the registry *)

Module RegistryClaims.
Import Dom.

(** C5.  A second construction on a node returns the instance the first
    one returned and leaves the whole page, the options of that instance
    with it, as the first construction left it, whatever options the
    second call is given; for the accordion and for the toggle. *)
Theorem second_construction_returns_first_instance
    (wa wa1 : Accordion.Page) (el : Node) (o1 o2 : Accordion.PartialOptions)
    (wt wt1 : Toggle.Page) (el' : Node) (s1 s2 : Toggle.PartialSettings)
    (id1 id2 id1' id2' : string) (r r' : Ref) :
  Accordion.construct el o1 id1 wa = Ok (r, wa1) →
  Toggle.construct el' s1 id1' wt = Ok (r', wt1) →
  Accordion.construct el o2 id2 wa1 = Ok (r, wa1)
  ∧ Toggle.construct el' s2 id2' wt1 = Ok (r', wt1).
Proof.
  intros Ha Ht. split.
  - apply AccordionFacts.construct_old. by eapply AccordionFacts.construct_registers.
  - apply ToggleFacts.toggle_construct_old. by eapply ToggleFacts.toggle_construct_registers.
Qed.

Lemma second_construction_returns_first_instance_witness :
  Accordion.construct 0 AccordionSpec.withOnOpen "p7q"
    (AccordionSpec.constructed 0 Accordion.noOptions "k3x" Example.page)
  = Ok (0, AccordionSpec.constructed 0 Accordion.noOptions "k3x" Example.page)
  ∧ Toggle.construct 1 ToggleSpec.closingWithOnClick "p7q"
      (ToggleSpec.constructed 1 ToggleSpec.closing "k3x" Example.page)
    = Ok (0, ToggleSpec.constructed 1 ToggleSpec.closing "k3x" Example.page).
Proof.
  apply (second_construction_returns_first_instance
           Example.page _ 0 Accordion.noOptions _
           Example.page _ 1 ToggleSpec.closing _ "k3x" _ "k3x" _ 0 0).
  - apply AccordionFacts.construct_returned. vm_compute. reflexivity.
  - apply ToggleFacts.toggle_construct_returned. vm_compute. reflexivity.
Defined.

End RegistryClaims.

(** ** The claims about the toggle *)

Module ToggleClaims.
Import Dom Toggle DomFacts ToggleSpec ToggleFacts.

(** C9.  Three toggles on the example page, each constructed (which runs
    [init]) and then destroyed.  With [closeOnBlur] and
    [closeOnEscPress]: [destroy] removes the click and the blur listener
    of the trigger and clears [aria-hidden] and [aria-expanded], but the
    [keydown] listener that [_closeOnEscPress] put on the window is still
    there, and so are the [aria-controls] of the trigger and the id of
    the target.  With an [onClick] callback as well: the click and blur
    listeners of [init] all stay.  Without a target: [destroy] throws. *)
Theorem destroy_leaves_listeners :
  let w := constructed 1 closing "k3x" Example.page in
  let w' := orElse w (destroy 0 w) in
  let v := constructed 1 closingWithOnClick "k3x" Example.page in
  let v' := orElse v (destroy 0 v) in
  let u := constructed 1 noOptions "k3x" Example.page in
  initialized <$> heap w !! 0 = Some true
  ∧ elementListeners 1 w
    = [("click", BoundMethod 0 "handleClick"); ("blur", BoundMethod 0 "handleBlur")]
  ∧ windowListeners w
    = [("resize", BoundMethod 0 "_onResizeHandler");
       ("keydown", Closure "_closeOnEscPress" 1)]
  ∧ (returned (destroy 0 w) ≫= λ _, Some ()) = Some ()
  ∧ initialized <$> heap w' !! 0 = Some false
  ∧ elementListeners 1 w' = []
  ∧ getAttribute 2 "aria-hidden" w' = None
  ∧ windowListeners w'
    = [("resize", BoundMethod 0 "_onResizeHandler");
       ("keydown", Closure "_closeOnEscPress" 1)]
  ∧ getAttribute 1 "aria-controls" w' = Some "toggle-k3x"
  ∧ getAttribute 2 "id" w' = Some "toggle-k3x"
  ∧ (returned (destroy 0 v) ≫= λ _, Some ()) = Some ()
  ∧ elementListeners 1 v'
    = [("click", BoundMethod 0 "handleClick");
       ("click", Closure "onClick.bind(this)" 1);
       ("blur", BoundMethod 0 "handleBlur")]
  ∧ initialized <$> heap u !! 0 = Some true
  ∧ (returned (destroy 0 u) ≫= λ _, Some ()) = None.
Proof.
  cbv zeta. split_and!; vm_compute; reflexivity.
Qed.

(** C10.  The trigger of a toggle carries [handleBlur] as a [blur]
    listener (what [init] does when [closeOnBlur] is set) and loses the
    focus at time [clock w].  Whatever happens to the toggle in less than
    200 milliseconds (calls of [open], [close] and [destroy], clicks, more
    blurs, the focus moving anywhere, into the target for one) the timer
    is still pending, and when the 200 milliseconds are over the target
    has [aria-hidden] "true" and the trigger [aria-expanded] "false". *)
Theorem blur_closes_after_delay (this : Ref) (a : Widget) (t : Node) (w : Page)
    (evs : list Event) :
  heap w !! this = Some a →
  target a = Some t →
  ("blur", BoundMethod this "handleBlur") ∈ elementListeners (_element a) w →
  t < length (nodes w) →
  Forall (λ ev, (0 ≤ duration ev)%Z) evs →
  (elapsed evs < blurDelay)%Z →
  let w1 := run this evs (blur (_element a) w) in
  let w2 := advance (blurDelay - elapsed evs) w1 in
  ((clock w + blurDelay)%Z, this) ∈ timers w1
  ∧ clock w2 = (clock w + blurDelay)%Z
  ∧ getAttribute t "aria-hidden" w2 = Some "true"
  ∧ getAttribute (_element a) "aria-expanded" w2 = Some "false".
Proof.
  intros Ha Ht Hl Hlt Hnn Hel. cbv zeta.
  set (T := (clock w + blurDelay)%Z).
  assert (Hle : _element a < length (nodes w)).
  { unfold elementListeners in Hl.
    destruct (nodes w !! _element a) as [e|] eqn:He; [|by apply elem_of_nil in Hl].
    by apply lookup_lt_Some in He. }
  destruct (foldl_blur_frame (elementListeners (_element a) w) w) as (Ec & En & Eh & _).
  fold (blur (_element a) w) in Ec, En, Eh.
  assert (Hp0 : pending this t (_element a) T (blur (_element a) w)).
  { split; rewrite ?En, ?Eh; try done.
    - by apply blur_starts_timer.
    - by exists a. }
  destruct (run_pending this t (_element a) T evs (blur (_element a) w))
    as [[Htimer (a' & Ha' & Ht' & He') Hlt' Hle'] Hclock]; [done|rewrite Ec; lia|done|].
  set (w1 := run this evs (blur (_element a) w)) in *.
  rewrite Ec in Hclock.
  split; [done|]. unfold advance.
  replace (clock w1 + (blurDelay - elapsed evs))%Z with T by lia.
  match goal with
  | |- context [foldl blurTimeout ?x ?l] => set (w0 := x); set (due := l)
  end.
  split; [by rewrite (k_clock _ _ (foldl_blurTimeout_keeps due w0))|].
  apply (foldl_blurTimeout_closes this t (_element a) due w0 a'); try done.
  unfold due. apply list_elem_of_fmap. exists (T, this). split; [done|].
  apply list_elem_of_filter. simpl. split; [lia|done].
Qed.

Lemma blur_closes_after_delay_witness :
  let w := constructed 1 closing "k3x" Example.page in
  let w1 := run 0 [Open; Focus 2; Wait 150] (blur 1 w) in
  let w2 := advance (blurDelay - 150) w1 in
  ((clock w + blurDelay)%Z, 0) ∈ timers w1
  ∧ clock w2 = (clock w + blurDelay)%Z
  ∧ getAttribute 2 "aria-hidden" w2 = Some "true"
  ∧ getAttribute 1 "aria-expanded" w2 = Some "false".
Proof.
  apply (blur_closes_after_delay 0
           (mkWidget 1 (mergeSettings defaults closing) (Some 2) true) 2
           (constructed 1 closing "k3x" Example.page) [Open; Focus 2; Wait 150]).
  - vm_compute. reflexivity.
  - reflexivity.
  - vm_compute. apply list_elem_of_In. simpl. tauto.
  - vm_compute. lia.
  - repeat constructor; simpl; lia.
  - vm_compute. reflexivity.
Defined.

End ToggleClaims.

(** ** More about the accordion: clicks *)

Module AccordionClicks.
Import Dom Accordion DomFacts AccordionSpec AccordionFacts.

Lemma afterInit_wired : wired 0 0 (mergeOptions defaults noOptions) afterInit.
Proof.
  apply (wired_check 0 0 _ afterInit afterInitWidget).
  - vm_compute; reflexivity.
  - reflexivity.
  - reflexivity.
  - refine (bool_decide_unpack _ _). vm_compute. exact I.
  - vm_compute; reflexivity.
  - vm_compute; reflexivity.
Qed.

Lemma firstOpen_is_wired : wired 0 0 (mergeOptions defaults withOnOpen) firstOpen.
Proof.
  apply (wired_check 0 0 _ firstOpen firstOpenWidget).
  - vm_compute; reflexivity.
  - reflexivity.
  - reflexivity.
  - refine (bool_decide_unpack _ _). vm_compute. exact I.
  - vm_compute; reflexivity.
  - vm_compute; reflexivity.
Qed.

(** X1.  In a group that shows one panel at a time and does not animate,
    wired as [init] wires it: once at most one panel is displayed, no
    run of clicks on whatever elements displays two. *)
Theorem clicks_never_display_two_panels (this : Ref) (el : Node) (o : AccordionOptions)
    (triggers : list Node) (w : Page) :
  wired this el o w → allowMultiple o = false → hasAnimation o = false →
  (length (openPanels this w) ≤ 1)%nat →
  ∀ k, (length (openPanels this (clicks this (take k triggers) w)) ≤ 1)%nat.
Proof.
  intros Hw Hm Han Hone k.
  by apply (clicks_keep_one_panel this el o).
Qed.

Lemma clicks_never_display_two_panels_witness :
  (length (openPanels 0 (clicks 0 (take 4 [3; 7; 7; 1; 9]) firstOpen)) ≤ 1)%nat.
Proof.
  apply (clicks_never_display_two_panels 0 0 (mergeOptions defaults withOnOpen)).
  - apply firstOpen_is_wired.
  - reflexivity.
  - reflexivity.
  - vm_compute. lia.
Defined.

(** X2.  In such a group with [forceExpand], a click on a trigger that
    controls a panel of the group leaves that panel, and no other panel
    of the group, displayed, however many were displayed before; and the
    trigger is expanded. *)
Theorem click_displays_exactly_its_panel (this : Ref) (el : Node) (o : AccordionOptions)
    (trigger : Node) (pid : string) (panel : Node) (w : Page) :
  wired this el o w → allowMultiple o = false → hasAnimation o = false →
  forceExpand o = true →
  getAttribute trigger "aria-controls" w = Some pid → pid ≠ "" →
  getElementById pid w = Some panel →
  panel ∈ select w el (panelSelector o) →
  let w' := _handleButtonClick this trigger w in
  openPanels this w' = [panel]
  ∧ getAttribute trigger "aria-expanded" w' = Some "true".
Proof.
  intros Hw Hm Han Hfe Hc Hpid Hp Hin. simpl.
  destruct (click_opens this el o trigger pid panel w Hw Hm Han Hc Hpid Hp (or_introl Hfe))
    as (Hothers & Hshown & Hexp).
  split; [|done].
  pose proof (click_frame_click this trigger w) as Hf.
  pose proof (wired_frame _ _ _ _ _ Hf Hw) as Hw'.
  rewrite (openPanels_wired _ _ _ _ Hw'), (cf_select _ _ Hf).
  apply filter_only; [apply Hw|done..|].
  intros q Hq Hne. by rewrite (Hothers q Hq Hne).
Qed.

Lemma click_displays_exactly_its_panel_witness :
  openPanels 0 (_handleButtonClick 0 3 afterInit) = [4]
  ∧ getAttribute 3 "aria-expanded" (_handleButtonClick 0 3 afterInit) = Some "true".
Proof.
  apply (click_displays_exactly_its_panel 0 0 (mergeOptions defaults noOptions) 3
           "accordion-k3x-panel-2" 4 afterInit).
  - apply afterInit_wired.
  - reflexivity.
  - reflexivity.
  - reflexivity.
  - vm_compute; reflexivity.
  - done.
  - vm_compute; reflexivity.
  - vm_compute. set_solver.
Defined.

(** X3.  Whatever the options, a run of clicks writes no attribute
    other than [aria-expanded] and [style] on any element (ids,
    [aria-controls] and [aria-labelledby] stay as [init] set them; the
    [style] attribute is where [open] and [close] write the display of
    a panel), adds and removes no element, and leaves every instance on
    its root with its options. *)
Theorem clicks_write_only_aria_expanded (this : Ref) (triggers : list Node) (w : Page) :
  let w' := clicks this triggers w in
  (∀ n name, name ≠ "aria-expanded" → name ≠ "style" →
             getAttribute n name w' = getAttribute n name w)
  ∧ length (nodes w') = length (nodes w)
  ∧ (∀ s, getElementById s w' = getElementById s w)
  ∧ (∀ r a, heap w !! r = Some a →
            ∃ a', heap w' !! r = Some a' ∧ element a' = element a ∧ options a' = options a).
Proof.
  simpl. assert (Hf : click_frame w (clicks this triggers w)).
  { unfold clicks. revert w. induction triggers as [|t ts IH]; intros w; cbn [foldl].
    - apply click_frame_refl.
    - eapply click_frame_trans; [apply click_frame_click|apply IH]. }
  destruct Hf as [Hattr Hlen _ Hheap]. split_and!; [|done| |done].
  - intros n name Hne _. by apply Hattr.
  - intros s. apply getElementById_ids. intros n. by apply Hattr.
Qed.

(** X4.  With [allowMultiple], a click changes the [aria-expanded] of no
    element but the clicked trigger and the display of no element but
    the panel that trigger controls, with or without animation. *)
Theorem click_with_allowMultiple_touches_one_pair (this : Ref) (a : Widget)
    (trigger : Node) (w : Page) :
  heap w !! this = Some a →
  allowMultiple (options a) = true →
  let w' := _handleButtonClick this trigger w in
  (∀ n, n ≠ trigger →
        getAttribute n "aria-expanded" w' = getAttribute n "aria-expanded" w)
  ∧ (∀ q, getElementById (default "" (getAttribute trigger "aria-controls" w)) w ≠ Some q →
          isClosed q w' = isClosed q w).
Proof.
  intros Ha Hm. simpl. unfold _handleButtonClick. rewrite Ha, Hm.
  destruct (negb _); [done|].
  destruct (getElementById _ w) as [panel|]; [|done].
  cbn [negb andb].
  destruct (bool_decide _ && _).
  - split.
    + intros n Hne. rewrite getAttribute_call, getAttribute_close, getAttribute_setAttribute.
      by rewrite decide_False by (intros [? _]; congruence).
    + intros q Hq. rewrite isClosed_call, isClosed_close_other by congruence.
      apply isClosed_setAttribute.
  - split.
    + intros n Hne. rewrite getAttribute_call, getAttribute_open, getAttribute_setAttribute.
      by rewrite decide_False by (intros [? _]; congruence).
    + intros q Hq. rewrite isClosed_call, isClosed_open_other by congruence.
      apply isClosed_setAttribute.
Qed.

Lemma click_with_allowMultiple_touches_one_pair_witness :
  let w' := _handleButtonClick 0 3 afterInitMultiple in
  (∀ n, n ≠ 3 →
        getAttribute n "aria-expanded" w' = getAttribute n "aria-expanded" afterInitMultiple)
  ∧ (∀ q, getElementById
            (default "" (getAttribute 3 "aria-controls" afterInitMultiple)) afterInitMultiple
          ≠ Some q →
          isClosed q w' = isClosed q afterInitMultiple).
Proof.
  apply (click_with_allowMultiple_touches_one_pair 0 afterInitMultipleWidget 3
           afterInitMultiple).
  - vm_compute; reflexivity.
  - reflexivity.
Defined.





(** X6.  In a group that shows one panel at a time, opening a panel
    closes every other panel of the group but rewrites [aria-expanded] on
    the clicked trigger only: a trigger that was expanded before is still
    [aria-expanded="true"] although its panel is now hidden. *)
Theorem opening_a_panel_leaves_other_triggers_expanded (this : Ref) (el : Node)
    (o : AccordionOptions) (trigger : Node) (pid : string) (panel : Node) (tid : string)
    (other : Node) (w : Page) :
  wired this el o w → allowMultiple o = false → hasAnimation o = false →
  getAttribute trigger "aria-controls" w = Some pid → pid ≠ "" →
  getElementById pid w = Some panel →
  getAttribute panel "aria-labelledby" w = Some tid →
  getElementById tid w = Some trigger →
  forceExpand o = true ∨ getAttribute trigger "aria-expanded" w ≠ Some "true" →
  other ≠ trigger →
  getAttribute other "aria-expanded" w = Some "true" →
  let w' := _handleButtonClick this trigger w in
  getAttribute other "aria-expanded" w' = Some "true"
  ∧ getAttribute trigger "aria-expanded" w' = Some "true"
  ∧ ∀ q, q ∈ select w el (panelSelector o) → q ≠ panel → isClosed q w' = true.
Proof.
  intros Hw Hm Han Hc Hpid Hp Hl Ht Hbranch Hne Hexp. simpl.
  destruct (click_opens this el o trigger pid panel w Hw Hm Han Hc Hpid Hp Hbranch)
    as (Hothers & _ & Htrig).
  split_and!; [|done..].
  rewrite expanded_click; [done..|].
  intros pid' panel' tid' Hc' Hp' Hl'. congruence.
Qed.

Lemma opening_a_panel_leaves_other_triggers_expanded_witness :
  let w' := _handleButtonClick 0 3 afterInit in
  getAttribute 1 "aria-expanded" w' = Some "true"
  ∧ getAttribute 3 "aria-expanded" w' = Some "true"
  ∧ ∀ q, q ∈ select afterInit 0 (panelSelector (mergeOptions defaults noOptions)) →
         q ≠ 4 → isClosed q w' = true.
Proof.
  apply (opening_a_panel_leaves_other_triggers_expanded 0 0 (mergeOptions defaults noOptions)
           3 "accordion-k3x-panel-2" 4 "accordion-k3x-2" 1 afterInit).
  - apply afterInit_wired.
  - reflexivity.
  - reflexivity.
  - vm_compute; reflexivity.
  - done.
  - vm_compute; reflexivity.
  - vm_compute; reflexivity.
  - vm_compute; reflexivity.
  - left. reflexivity.
  - done.
  - vm_compute; reflexivity.
Defined.

End AccordionClicks.

(** ** More about the accordion: [destroy] *)

Module AccordionDestroy.
Import Dom Accordion DomFacts AccordionSpec AccordionFacts.

(** X7.  [Accordion.destroy] on a node that has an instance removes
    [id], [aria-controls] and [aria-expanded] from every trigger of the
    group and [id], [aria-labelledby] and [style] from every panel (the
    panel has no inline style left), and changes no other attribute of
    any element: the [data-id] that [init] wrote on the root is still
    there. *)
Theorem destroy_strips_the_attributes (el : Node) (this : Ref) (a : Widget) (w : Page) :
  registry w !! el = Some this →
  heap w !! this = Some a →
  let triggers := select w (element a) (triggerSelector (options a)) in
  let panels := select w (element a) (panelSelector (options a)) in
  let w' := destroy el w in
  (∀ t name, t ∈ triggers → name ∈ ["id"; "aria-controls"; "aria-expanded"] →
             getAttribute t name w' = None)
  ∧ (∀ p name, p ∈ panels → name ∈ ["id"; "aria-labelledby"] →
               getAttribute p name w' = None)
  ∧ (∀ p, p ∈ panels → inlineDisplay p w' = None)
  ∧ (∀ n name, ¬ (n ∈ triggers ∧ name ∈ ["id"; "aria-controls"; "aria-expanded"]) →
               ¬ (n ∈ panels ∧ name ∈ ["id"; "aria-labelledby"; "style"]) →
               getAttribute n name w' = getAttribute n name w)
  ∧ getAttribute (element a) "data-id" w' = getAttribute (element a) "data-id" w.
Proof.
  intros Hr Ha. cbv zeta. split_and!.
  - intros t name Ht Hn. rewrite (getAttribute_destroy el this a) by done.
    rewrite decide_True; [done|]. by left.
  - intros p name Hp Hn. rewrite (getAttribute_destroy el this a) by done.
    rewrite decide_True; [done|]. by right.
  - intros p Hp. unfold inlineDisplay at 1. rewrite (nodes_destroy el this a w Hr Ha).
    match goal with
    | |- context [nodes ?u !! p] => change (inlineDisplay p u = None)
    end.
    rewrite inlineDisplay_destroy_panels. by rewrite decide_True.
  - intros n name H1 H2. rewrite (getAttribute_destroy el this a) by done.
    rewrite decide_False; [done|]. set_solver.
  - rewrite (getAttribute_destroy el this a) by done.
    rewrite decide_False; [done|]. intros [[_ H]|[_ H]]; set_solver.
Qed.

Lemma destroy_strips_the_attributes_witness :
  let triggers := select afterInit (element afterInitWidget)
                    (triggerSelector (options afterInitWidget)) in
  let panels := select afterInit (element afterInitWidget)
                  (panelSelector (options afterInitWidget)) in
  let w' := destroy 0 afterInit in
  (∀ t name, t ∈ triggers → name ∈ ["id"; "aria-controls"; "aria-expanded"] →
             getAttribute t name w' = None)
  ∧ (∀ p name, p ∈ panels → name ∈ ["id"; "aria-labelledby"] →
               getAttribute p name w' = None)
  ∧ (∀ p, p ∈ panels → inlineDisplay p w' = None)
  ∧ (∀ n name, ¬ (n ∈ triggers ∧ name ∈ ["id"; "aria-controls"; "aria-expanded"]) →
               ¬ (n ∈ panels ∧ name ∈ ["id"; "aria-labelledby"; "style"]) →
               getAttribute n name w' = getAttribute n name afterInit)
  ∧ getAttribute (element afterInitWidget) "data-id" w'
    = getAttribute (element afterInitWidget) "data-id" afterInit.
Proof.
  apply (destroy_strips_the_attributes 0 0 afterInitWidget afterInit).
  - vm_compute; reflexivity.
  - vm_compute; reflexivity.
Defined.

(** X8.  [Accordion.destroy] takes the click, focus and blur listeners of
    the instance off every trigger and no other listener off any
    element, removes the inline style of every panel and of no other
    element, leaves the instance inactive without an active panel, and
    unregisters it; the [resize] subscription of the constructor stays
    on the window. *)
Theorem destroy_detaches_the_triggers (el : Node) (this : Ref) (a : Widget) (w : Page) :
  registry w !! el = Some this →
  heap w !! this = Some a →
  let triggers := select w (element a) (triggerSelector (options a)) in
  let panels := select w (element a) (panelSelector (options a)) in
  let w' := destroy el w in
  (∀ n x, x ∈ listenersOf n w'
          ↔ x ∈ listenersOf n w ∧ ¬ (n ∈ triggers ∧ x ∈ triggerListeners this))
  ∧ (∀ n, inlineDisplay n w' = if decide (n ∈ panels) then None else inlineDisplay n w)
  ∧ heap w' !! this = Some (with_activePanel None (with_active false a))
  ∧ AbstractDomElement.getInstance el w' = None
  ∧ windowListeners w' = windowListeners w.
Proof.
  intros Hr Ha. cbv zeta. split_and!.
  - intros n x. unfold listenersOf at 1. rewrite (nodes_destroy el this a w Hr Ha).
    match goal with
    | |- context [nodes ?u !! n] => change (x ∈ listenersOf n u ↔
        x ∈ listenersOf n w
        ∧ ¬ (n ∈ select w (element a) (triggerSelector (options a))
             ∧ x ∈ triggerListeners this))
    end.
    by rewrite listenersOf_destroy_panels, listenersOf_destroy_triggers.
  - intros n. unfold inlineDisplay at 1. rewrite (nodes_destroy el this a w Hr Ha).
    match goal with
    | |- context [nodes ?u !! n] => change (inlineDisplay n u =
        if decide (n ∈ select w (element a) (panelSelector (options a)))
        then None else inlineDisplay n w)
    end.
    by rewrite inlineDisplay_destroy_panels, inlineDisplay_destroy_triggers.
  - rewrite (heap_destroy el this a) by done. by rewrite lookup_insert_eq.
  - unfold AbstractDomElement.getInstance. rewrite registry_destroy.
    by rewrite lookup_delete_eq.
  - apply windowListeners_destroy.
Qed.

Lemma destroy_detaches_the_triggers_witness :
  let triggers := select afterInit (element afterInitWidget)
                    (triggerSelector (options afterInitWidget)) in
  let panels := select afterInit (element afterInitWidget)
                  (panelSelector (options afterInitWidget)) in
  let w' := destroy 0 afterInit in
  (∀ n x, x ∈ listenersOf n w'
          ↔ x ∈ listenersOf n afterInit ∧ ¬ (n ∈ triggers ∧ x ∈ triggerListeners 0))
  ∧ (∀ n, inlineDisplay n w'
          = if decide (n ∈ panels) then None else inlineDisplay n afterInit)
  ∧ heap w' !! 0 = Some (with_activePanel None (with_active false afterInitWidget))
  ∧ AbstractDomElement.getInstance 0 w' = None
  ∧ windowListeners w' = windowListeners afterInit.
Proof.
  apply (destroy_detaches_the_triggers 0 0 afterInitWidget afterInit).
  - vm_compute; reflexivity.
  - vm_compute; reflexivity.
Defined.

(** X9.  After [Accordion.destroy] the click handler of the instance,
    should anything still call it on a trigger of the group, changes
    nothing at all: the trigger controls no panel any more. *)
Theorem click_after_destroy_changes_nothing (el : Node) (this : Ref) (a : Widget)
    (trigger : Node) (w : Page) :
  registry w !! el = Some this →
  heap w !! this = Some a →
  trigger ∈ select w (element a) (triggerSelector (options a)) →
  _handleButtonClick this trigger (destroy el w) = destroy el w.
Proof.
  intros Hr Ha Ht. unfold _handleButtonClick.
  destruct (heap (destroy el w) !! this) as [a'|]; [|done].
  rewrite (getAttribute_destroy el this a) by done.
  rewrite decide_True; [done|]. left. split; [done|]. set_solver.
Qed.

Lemma click_after_destroy_changes_nothing_witness :
  _handleButtonClick 0 3 (destroy 0 afterInit) = destroy 0 afterInit.
Proof.
  apply (click_after_destroy_changes_nothing 0 0 afterInitWidget 3 afterInit).
  - vm_compute; reflexivity.
  - vm_compute; reflexivity.
  - vm_compute. set_solver.
Defined.

Lemma destroy_without_instance el (w : Page) :
  registry w !! el = None → destroy el w = w.
Proof.
  intros Hr. unfold destroy, AbstractDomElement.getInstance. rewrite Hr.
  unfold AbstractDomElement.destroy, with_registry. rewrite delete_id by done.
  by destruct w.
Qed.

(** X10.  [Accordion.destroy] is idempotent: a second call on the same
    node finds no instance and changes nothing, the bound keydown handler
    that the first call put on the document included. *)
Theorem destroy_twice_is_destroy_once (el : Node) (w : Page) :
  destroy el (destroy el w) = destroy el w.
Proof.
  apply destroy_without_instance. rewrite registry_destroy. by rewrite lookup_delete_eq.
Qed.

(** X11.  [Accordion.destroy] does not undo the [resize] subscription of
    the constructor, so for a group without media query the next resize
    of the window runs [init] on the destroyed instance: it is active
    again and its triggers have ids again, although the node has no
    registered instance any more. *)
Theorem resize_reinitialises_a_destroyed_group (el : Node) (this : Ref) (a : Widget)
    (width : Z) (id : string) (w : Page) :
  registry w !! el = Some this →
  heap w !! this = Some a →
  mediaQuery (options a) = None →
  hasReachBreakpoint a = None →
  closedDefault (options a) = false
  ∨ is_Some (select w (element a) (triggerSelector (options a)) !! 0) →
  ("resize", BoundMethod this "handleResize") ∈ windowListeners w →
  ∃ w',
    ("resize", BoundMethod this "handleResize") ∈ windowListeners (destroy el w)
    ∧ resize this width id (destroy el w) = Ok w'
    ∧ active <$> heap w' !! this = Some true
    ∧ AbstractDomElement.getInstance el w' = None
    ∧ ∀ t, t ∈ select w (element a) (triggerSelector (options a)) →
           t < length (nodes w) → is_Some (getAttribute t "id" w').
Proof.
  intros Hr Ha Hmq Hreach Hcd Hres.
  set (a0 := with_activePanel None (with_active false a)).
  set (w0 := with_innerWidth width (destroy el w)).
  assert (Ha0 : heap w0 !! this = Some a0).
  { unfold w0. cbn [heap with_innerWidth]. rewrite (heap_destroy el this a) by done.
    by rewrite lookup_insert_eq. }
  assert (Hsel : select w0 = select w) by apply select_destroy.
  destruct (init_total this id w0 a0 Ha0) as [w' Hinit].
  { change (options a0) with (options a). change (element a0) with (element a).
    by rewrite Hsel. }
  exists w'. split_and!.
  - by rewrite windowListeners_destroy.
  - unfold resize, _handleResize. fold w0. rewrite Ha0.
    unfold crossed. change (options a0) with (options a). rewrite Hmq.
    change (hasReachBreakpoint a0) with (hasReachBreakpoint a). rewrite Hreach.
    cbn [mbind result_bind bool_decide decide_rel]. done.
  - destruct (init_ok this id w0 a0 (λ _, False) Ha0 w' Hinit) as (Hpost & _); [done|].
    rewrite (ip_this _ _ _ _ Hpost). simpl. by rewrite active_initialised.
  - destruct (init_ok this id w0 a0 (λ _, False) Ha0 w' Hinit) as (Hpost & _); [done|].
    unfold AbstractDomElement.getInstance. rewrite (ip_registry _ _ _ _ Hpost).
    unfold w0. cbn [registry with_innerWidth]. rewrite registry_destroy.
    by rewrite lookup_delete_eq.
  - intros t Ht Hlt.
    destruct (init_ok this id w0 a0 (λ _, False) Ha0 w' Hinit) as (_ & _ & Hids); [done|].
    apply Hids. right. split.
    + left. change (options a0) with (options a). change (element a0) with (element a).
      by rewrite Hsel.
    + unfold w0. cbn [nodes with_innerWidth]. by rewrite length_destroy.
Qed.

Lemma resize_reinitialises_a_destroyed_group_witness :
  ∃ w',
    ("resize", BoundMethod 0 "handleResize") ∈ windowListeners (destroy 0 afterInit)
    ∧ resize 0 640 "p7q" (destroy 0 afterInit) = Ok w'
    ∧ active <$> heap w' !! 0 = Some true
    ∧ AbstractDomElement.getInstance 0 w' = None
    ∧ ∀ t, t ∈ select afterInit (element afterInitWidget)
                 (triggerSelector (options afterInitWidget)) →
           t < length (nodes afterInit) → is_Some (getAttribute t "id" w').
Proof.
  apply (resize_reinitialises_a_destroyed_group 0 0 afterInitWidget 640 "p7q" afterInit).
  - vm_compute; reflexivity.
  - vm_compute; reflexivity.
  - reflexivity.
  - reflexivity.
  - left. reflexivity.
  - vm_compute. set_solver.
Defined.

End AccordionDestroy.

(** ** More about the accordion: [init] *)

Module AccordionInit.
Import Dom Accordion DomFacts AccordionSpec AccordionFacts.

(** X12.  With [closedDefault] and without animation, [init] on a group
    that has a trigger and a panel returns with every trigger collapsed
    and every panel hidden, and has switched [forceExpand] off. *)
Theorem init_closedDefault_closes_everything (this : Ref) (a : Widget) (id : string)
    (w : Page) :
  heap w !! this = Some a →
  closedDefault (options a) = true →
  hasAnimation (options a) = false →
  let triggers := select w (element a) (triggerSelector (options a)) in
  let panels := select w (element a) (panelSelector (options a)) in
  is_Some (triggers !! 0) →
  panels ≠ [] →
  ∃ w',
    init this id w = Ok w'
    ∧ (∀ t, t ∈ triggers → t < length (nodes w) →
            getAttribute t "aria-expanded" w' = Some "false")
    ∧ (∀ p, p ∈ panels → p < length (nodes w) → isClosed p w' = true)
    ∧ (forceExpand ∘ options) <$> heap w' !! this = Some false.
Proof.
  intros Ha Hcd Han triggers panels [t0 Ht0] Hps.
  destruct (init_unfold this id w a Ha) as (w5 & Hn5 & Hs5 & Hh5 & Hinit).
  fold triggers panels in Hinit. rewrite Hcd in Hinit.
  destruct (init_triggers_total this (prefixId (options a)) id triggers 0 w5)
    as (k1 & w6 & E6).
  destruct (init_panels_total this (prefixId (options a)) id true triggers panels 0 w6)
    as (k2 & w7 & E7); [right; eauto|].
  rewrite E6 in Hinit. cbn [mbind result_bind] in Hinit.
  rewrite E7 in Hinit. cbn [mbind result_bind] in Hinit.
  exists w7. split; [done|].
  assert (Hl5 : length (nodes w5) = length (nodes w)).
  { rewrite Hn5. simpl. by rewrite length_alter. }
  destruct (init_triggers_inv _ _ _ _ _ _ _ _ (λ _, False) E6) as (Hsp6 & _); [done|].
  destruct (init_panels_inv _ _ _ _ _ _ _ _ _ _ (λ _, False) E7) as (Hsp7 & _); [done|].
  assert (Hh6 : heap w6 !! this = Some (initialised a (innerWidth w)))
    by by rewrite (sp_heap _ _ Hsp6).
  assert (Hl6 : length (nodes w6) = length (nodes w))
    by by rewrite (sp_length _ _ Hsp6).
  destruct (init_panels_closed this (prefixId (options a)) id triggers t0 panels
              w6 k2 w7 _ Hh6) as (Hke & _ & Hnc & Hne); [|done..|].
  { rewrite options_initialised, Hcd. done. }
  split_and!.
  - intros t Ht Hlt. destruct triggers as [|t0' rest] eqn:Ets; [done|].
    injection Ht0 as ->. apply elem_of_cons in Ht as [->|Ht].
    + apply Hne; [done|]. by rewrite Hl6.
    + apply Hke. apply (init_triggers_first_expanded _ _ _ _ _ _ _ _ E6); [done|].
      by rewrite Hl5.
  - intros p Hp Hlt. apply Hnc; [done|]. by rewrite Hl6.
  - rewrite (sp_heap _ _ Hsp7), Hh6. simpl. by rewrite options_initialised, Hcd.
Qed.

Lemma init_closedDefault_closes_everything_witness :
  ∃ w',
    init 0 "k3x" beforeInitClosed = Ok w'
    ∧ (∀ t, t ∈ select beforeInitClosed 0 ".accordion__trigger" →
            t < length (nodes beforeInitClosed) →
            getAttribute t "aria-expanded" w' = Some "false")
    ∧ (∀ p, p ∈ select beforeInitClosed 0 ".accordion__panel" →
            p < length (nodes beforeInitClosed) → isClosed p w' = true)
    ∧ (forceExpand ∘ options) <$> heap w' !! 0 = Some false.
Proof.
  apply (init_closedDefault_closes_everything 0
           (newWidget 0 (mergeOptions defaults closedByDefault)) "k3x" beforeInitClosed).
  - vm_compute; reflexivity.
  - reflexivity.
  - reflexivity.
  - vm_compute. eauto.
  - vm_compute. discriminate.
Defined.

(** X13.  [init] always returns, its probing loops included, except in
    one case, where it throws a [TypeError]: it is to close the panels
    ([closedDefault]) of a group that has a panel and no trigger, and
    reads [triggers[0]]. *)
Theorem init_throws_only_without_trigger (this : Ref) (a : Widget) (id : string)
    (w : Page) :
  heap w !! this = Some a →
  let triggers := select w (element a) (triggerSelector (options a)) in
  let panels := select w (element a) (panelSelector (options a)) in
  (closedDefault (options a) = true → triggers = [] → panels ≠ [] →
   init this id w = TypeError "triggers[index] is undefined")
  ∧ (closedDefault (options a) = false ∨ triggers ≠ [] ∨ panels = [] →
     ∃ w', init this id w = Ok w').
Proof.
  intros Ha triggers panels.
  destruct (init_unfold this id w a Ha) as (w5 & Hn5 & Hs5 & Hh5 & Hinit).
  fold triggers panels in Hinit. split.
  - intros Hcd Hts Hps. rewrite Hinit, Hts, Hcd. cbn [init_triggers mbind result_bind].
    destruct panels as [|p rest]; [done|]. cbn [init_panels].
    destruct (probe_total (panelId (prefixId (options a)) id) (0 + 1) w5
                (panelId_inj _ _)) as [i ->].
    done.
  - intros Hcase. rewrite Hinit.
    destruct (init_triggers_total this (prefixId (options a)) id triggers 0 w5)
      as (k1 & w6 & ->).
    cbn [mbind result_bind].
    destruct Hcase as [Hcd|[Hts|Hps]].
    + destruct (init_panels_total this (prefixId (options a)) id
                  (closedDefault (options a)) triggers panels 0 w6)
        as (k2 & w7 & ->); [by left|].
      cbn [mbind result_bind]. eauto.
    + destruct (init_panels_total this (prefixId (options a)) id
                  (closedDefault (options a)) triggers panels 0 w6)
        as (k2 & w7 & ->).
      { right. destruct triggers; [done|]. simpl. eauto. }
      cbn [mbind result_bind]. eauto.
    + rewrite Hps. cbn [init_panels mbind result_bind]. eauto.
Qed.

Lemma init_throws_only_without_trigger_witness :
  init 0 "k3x" beforeInitWithoutTrigger = TypeError "triggers[index] is undefined"
  ∧ ∃ w', init 0 "k3x" beforeInitClosed = Ok w'.
Proof.
  split.
  - apply (init_throws_only_without_trigger 0
             (newWidget 0 (mergeOptions defaults closedWithoutTrigger)) "k3x"
             beforeInitWithoutTrigger).
    + vm_compute; reflexivity.
    + reflexivity.
    + reflexivity.
    + vm_compute. discriminate.
  - apply (init_throws_only_without_trigger 0
             (newWidget 0 (mergeOptions defaults closedByDefault)) "k3x"
             beforeInitClosed).
    + vm_compute; reflexivity.
    + right. left. vm_compute. discriminate.
Defined.

(** X14.  On a page where no element carries an id that [init] can
    generate, [init] numbers the triggers and the panels of the group in
    document order: the trigger at position [k] gets the id with number
    [k + 1] and controls the panel id with that number, the panel at
    position [k] gets that panel id and is labelled by that trigger id,
    and either id names its element in the whole document.  So every
    trigger controls the panel at its own position. *)
Theorem init_pairs_triggers_with_panels (this : Ref) (a : Widget) (id : string)
    (w : Page) :
  heap w !! this = Some a →
  let o := options a in
  let triggers := select w (element a) (triggerSelector o) in
  let panels := select w (element a) (panelSelector o) in
  fresh_ids (prefixId o) id w →
  NoDup (triggers ++ panels) →
  Forall (λ n, n < length (nodes w)) (triggers ++ panels) →
  closedDefault o = false ∨ is_Some (triggers !! 0) →
  ∃ w',
    init this id w = Ok w'
    ∧ ∀ k,
        (∀ t, triggers !! k = Some t →
              getAttribute t "id" w' = Some (triggerId (prefixId o) id (k + 1))
              ∧ getAttribute t "aria-controls" w' = Some (panelId (prefixId o) id (k + 1))
              ∧ getElementById (triggerId (prefixId o) id (k + 1)) w' = Some t)
        ∧ (∀ p, panels !! k = Some p →
                getAttribute p "id" w' = Some (panelId (prefixId o) id (k + 1))
                ∧ getAttribute p "aria-labelledby" w'
                  = Some (triggerId (prefixId o) id (k + 1))
                ∧ getElementById (panelId (prefixId o) id (k + 1)) w' = Some p).
Proof.
  intros Ha o triggers panels Hfresh Hnd Hall Hcd.
  destruct (init_unfold this id w a Ha) as (w5 & Hn5 & Hs5 & Hh5 & Hinit).
  fold o triggers panels in Hinit.
  destruct (init_triggers_total this (prefixId o) id triggers 0 w5) as (k1 & w6 & E6).
  destruct (init_panels_total this (prefixId o) id (closedDefault o) triggers panels 0 w6)
    as (k2 & w7 & E7); [done|].
  rewrite E6 in Hinit. cbn [mbind result_bind] in Hinit.
  rewrite E7 in Hinit. cbn [mbind result_bind] in Hinit.
  exists w7. split; [done|].
  pose proof Hnd as Hnd'. apply NoDup_app in Hnd' as (Hndt & Hdis & Hndp).
  pose proof Hall as Hall'. apply Forall_app in Hall' as [Hallt Hallp].
  assert (Hid5 : ∀ n, getAttribute n "id" w5 = getAttribute n "id" w).
  { intros n. rewrite (getAttribute_nodes _ _ _ _ Hn5).
    by rewrite getAttribute_setAttribute_other. }
  assert (Hl5 : length (nodes w5) = length (nodes w)).
  { rewrite Hn5. simpl. by rewrite length_alter. }
  destruct (init_triggers_numbered this (prefixId o) id triggers [] w5 k1 w6 E6)
    as (Hnum6 & Hctl6 & Hframe6); [done|by rewrite Hl5| |].
  { apply numbered_nil_fresh. intros n i. rewrite Hid5. apply Hfresh. }
  simpl in Hnum6, Hctl6.
  destruct (init_triggers_inv _ _ _ _ _ _ _ _ (λ _, False) E6) as (Hsp6 & _); [done|].
  assert (Hl6 : length (nodes w6) = length (nodes w))
    by by rewrite (sp_length _ _ Hsp6).
  destruct (init_panels_numbered this (prefixId o) id (closedDefault o) triggers panels
              [] w6 k2 w7 E7) as (Hnum7 & Hlab7 & Hframe7); [done|by rewrite Hl6| |].
  { apply numbered_nil_fresh. intros n i Hn.
    destruct (decide (n ∈ triggers)) as [Hin|Hout].
    - apply list_elem_of_lookup in Hin as [j Hj].
      destruct (numbered_lookup _ _ _ _ _ (triggerId_nonempty _ _) Hnum6 Hndt Hj) as [Hid _].
      rewrite Hid in Hn. injection Hn as Hn. by apply triggerId_not_panelId in Hn.
    - rewrite Hframe6, Hid5 in Hn by done. by apply (Hfresh n i). }
  simpl in Hnum7, Hlab7.
  assert (Hnumt7 : numbered (triggerId (prefixId o) id) triggers w7).
  { intros n i. destruct (decide (n ∈ panels)) as [Hin|Hout].
    - split.
      + intros Hn. apply list_elem_of_lookup in Hin as [j Hj].
        destruct (numbered_lookup _ _ _ _ _ (panelId_nonempty _ _) Hnum7 Hndp Hj) as [Hid _].
        rewrite Hid in Hn. injection Hn as Hn. symmetry in Hn.
        by apply triggerId_not_panelId in Hn.
      + intros [_ Hl]. exfalso. apply (Hdis n); [|done].
        by eapply list_elem_of_lookup_2.
    - rewrite Hframe7 by done. apply Hnum6. }
  intros k. split.
  - intros t Ht. destruct (numbered_lookup _ _ _ _ _ (triggerId_nonempty _ _) Hnumt7 Hndt Ht) as [Hid Hget].
    split_and!; [done| |done].
    rewrite Hframe7; [by apply Hctl6|..|done].
    intros Hin. apply (Hdis t); [|done]. by eapply list_elem_of_lookup_2.
  - intros p Hp. destruct (numbered_lookup _ _ _ _ _ (panelId_nonempty _ _) Hnum7 Hndp Hp) as [Hid Hget].
    split_and!; [done| |done]. by apply Hlab7.
Qed.

Lemma beforeInit_fresh : fresh_ids "accordion" "k3x" beforeInit.
Proof.
  assert (H : ∀ n, getAttribute n "id" beforeInit = None).
  { intros n. unfold getAttribute.
    destruct (nodes beforeInit !! n) as [e|] eqn:E; [|done]. simpl.
    assert (Hall : Forall (λ e, attrs e !! "id" = None) (nodes beforeInit)).
    { refine (bool_decide_unpack _ _). vm_compute. exact I. }
    rewrite Forall_lookup in Hall. by apply (Hall n e). }
  intros n i. by rewrite H.
Qed.

Lemma init_pairs_triggers_with_panels_witness :
  ∃ w',
    init 0 "k3x" beforeInit = Ok w'
    ∧ ∀ k,
        (∀ t, [1; 3; 5; 7] !! k = Some t →
              getAttribute t "id" w' = Some (triggerId "accordion" "k3x" (k + 1))
              ∧ getAttribute t "aria-controls" w' = Some (panelId "accordion" "k3x" (k + 1))
              ∧ getElementById (triggerId "accordion" "k3x" (k + 1)) w' = Some t)
        ∧ (∀ p, [2; 4; 6; 8] !! k = Some p →
                getAttribute p "id" w' = Some (panelId "accordion" "k3x" (k + 1))
                ∧ getAttribute p "aria-labelledby" w'
                  = Some (triggerId "accordion" "k3x" (k + 1))
                ∧ getElementById (panelId "accordion" "k3x" (k + 1)) w' = Some p).
Proof.
  apply (init_pairs_triggers_with_panels 0 (newWidget 0 (mergeOptions defaults noOptions))
           "k3x" beforeInit).
  - vm_compute; reflexivity.
  - apply beforeInit_fresh.
  - refine (bool_decide_unpack _ _). vm_compute. exact I.
  - refine (bool_decide_unpack _ _). vm_compute. exact I.
  - left. reflexivity.
Defined.

End AccordionInit.

(** ** More about the accordion: panels and keys *)

Module AccordionPanels.
Import Dom Accordion DomFacts AccordionSpec AccordionFacts.

(** X15.  Without animation, [open] shows the panel at once and [close]
    hides it again, and neither changes the display of another element
    or calls a callback or a port.  But [close] does not undo
    [activePanel]: it still names the closed panel.  Neither calls
    [focus()] when the panel holds no focusable element, and the
    keyboard focus then stays where it is. *)
Theorem open_then_close (this : Ref) (a : Widget) (panel : Node) (w : Page) :
  heap w !! this = Some a →
  hasAnimation (options a) = false →
  panel < length (nodes w) →
  let w1 := open this panel w in
  let w2 := close this panel w1 in
  isClosed panel w1 = false
  ∧ isClosed panel w2 = true
  ∧ (∀ q, q ≠ panel → isClosed q w2 = isClosed q w)
  ∧ activePanel <$> heap w2 !! this = Some (Some panel)
  ∧ (select w panel FOCUSABLE_ELEMENTS !! 0 = None → activeElement w2 = activeElement w)
  ∧ log w2 = log w.
Proof.
  intros Ha Han Hlt. cbv zeta.
  assert (H1 : ∃ a1, heap (open this panel w) !! this = Some a1
                     ∧ activePanel a1 = Some panel
                     ∧ options a1 = options a).
  { unfold open. rewrite Ha, Han. cbn [andb].
    set (w0 := setDisplay panel "block" (update this (with_activePanel (Some panel)) w)).
    assert (H0 : heap w0 !! this = Some (with_activePanel (Some panel) a)).
    { unfold w0, update. simpl. by rewrite lookup_alter_eq, Ha. }
    destruct (_ !! 0) as [f|]; [|eauto].
    destruct (focus_only_focusNode f w0 this _ H0) as [b Hb]. eauto. }
  destruct H1 as (a1 & Ha1 & Hap & Ho1).
  assert (Hl1 : length (nodes (open this panel w)) = length (nodes w))
    by apply (cf_length _ _ (click_frame_open this panel w)).
  assert (Hclose : close this panel (open this panel w)
                   = setDisplay panel "none" (open this panel w)).
  { unfold close. by rewrite Ha1, Ho1, Han. }
  split_and!.
  - rewrite (isClosed_open this a) by done. by rewrite decide_True.
  - rewrite (isClosed_close this a1) by by rewrite ?Ho1.
    rewrite decide_True; [done|]. by rewrite Hl1.
  - intros q Hq. by rewrite isClosed_close_other, isClosed_open_other.
  - rewrite Hclose. cbn [heap setDisplay with_nodes]. by rewrite Ha1, <- Hap.
  - intros Hnone. rewrite Hclose. cbn [activeElement setDisplay with_nodes].
    unfold open. rewrite Ha, Han. cbn [andb].
    destruct (_ !! 0) as [f|] eqn:E; [|done].
    assert (E' : select w panel FOCUSABLE_ELEMENTS !! 0 = Some f) by exact E.
    congruence.
  - rewrite Hclose. cbn [log setDisplay with_nodes].
    unfold open. rewrite Ha, Han. cbn [andb].
    destruct (_ !! 0) as [f|]; [|done].
    by destruct (focusNode_frame f
      (setDisplay panel "block" (update this (with_activePanel (Some panel)) w)))
      as (_ & -> & _).
Qed.

Lemma open_then_close_witness :
  let w1 := open 0 4 afterInit in
  let w2 := close 0 4 w1 in
  isClosed 4 w1 = false
  ∧ isClosed 4 w2 = true
  ∧ (∀ q, q ≠ 4 → isClosed q w2 = isClosed q afterInit)
  ∧ activePanel <$> heap w2 !! 0 = Some (Some 4)
  ∧ (select afterInit 4 FOCUSABLE_ELEMENTS !! 0 = None
     → activeElement w2 = activeElement afterInit)
  ∧ log w2 = log afterInit.
Proof.
  apply (open_then_close 0 afterInitWidget 4 afterInit).
  - vm_compute; reflexivity.
  - reflexivity.
  - vm_compute. lia.
Defined.

Lemma keys_step r a (w : Page) triggers i t key :
  heap w !! r = Some a →
  focus a = true →
  select w (element a) (triggerSelector (options a)) = triggers →
  NoDup triggers →
  triggers !! i = Some t →
  activeElement w = Some t →
  Forall (rovable r (Js.substring1 (triggerSelector (options a))) w) triggers →
  key ∈ ["ArrowUp"; "ArrowDown"; "Home"; "End"] →
  ∃ t', let w' := (_handleKeydown (ThisInstance r) (mkKeyboardEvent key false) w).2 in
        triggers !! rove key i (length triggers) = Some t'
        ∧ activeElement w' = Some t'
        ∧ nodes w' = nodes w
        ∧ log w' = log w
        ∧ select w' = select w
        ∧ heap w' !! r = Some a.
Proof.
  intros Ha Hfoc Hsel Hnd Hi Hact Hall Hkey.
  rewrite Forall_forall in Hall.
  destruct (Hall t) as (Hcls & _); [by eapply list_elem_of_lookup_2|].
  destruct (bound_handleKeydown_moves r a w triggers i t key) as (t' & Ht' & ->);
    try done.
  exists t'. cbv zeta.
  destruct (focusNode_frame t' w) as (Hn & Hl & Hae & Hs).
  destruct (Hall t') as (_ & Hin & Hno); [by eapply list_elem_of_lookup_2|].
  split_and!; try done.
  rewrite (focusNode_sets_focus r a t' w) by (try done; by left).
  f_equal. rewrite <- Hfoc. apply with_focus_same.
Qed.

(** X16.  [_handleKeydown] run on its instance (as the bound
    [handleKeydown] runs) while the focus is on a trigger of the group:
    a run of ArrowUp, ArrowDown, Home and End presses moves the focus
    from trigger to trigger as the keys say, wrapping around at either
    end, and touches no element and calls nothing.  Every move passes
    through the blur and focus listeners of the triggers, which leave
    [this.focus] set, so the next key is handled again. *)
Theorem keys_rove_among_the_triggers (r : Ref) (a : Widget) (w : Page)
    (triggers : list Node) (i : nat) (t : Node) (codes : list string) :
  heap w !! r = Some a →
  focus a = true →
  select w (element a) (triggerSelector (options a)) = triggers →
  NoDup triggers →
  triggers !! i = Some t →
  activeElement w = Some t →
  Forall (rovable r (Js.substring1 (triggerSelector (options a))) w) triggers →
  Forall (λ c, c ∈ ["ArrowUp"; "ArrowDown"; "Home"; "End"]) codes →
  activeElement (keys r codes w) = triggers !! roves codes i (length triggers)
  ∧ nodes (keys r codes w) = nodes w
  ∧ log (keys r codes w) = log w
  ∧ heap (keys r codes w) !! r = Some a.
Proof.
  intros Ha Hfoc Hsel Hnd Hi Hact Hall Hcodes. unfold keys, roves.
  revert w i t Ha Hsel Hi Hact Hall.
  induction codes as [|c codes IH]; intros w i t Ha Hsel Hi Hact Hall; cbn [foldl].
  - by rewrite Hact, Hi.
  - apply Forall_cons in Hcodes as [Hc Hcodes].
    destruct (keys_step r a w triggers i t c) as (t' & Ht' & Hae & Hn & Hl & Hs & Ha');
      try done.
    set (w' := (_handleKeydown (ThisInstance r) (mkKeyboardEvent c false) w).2) in *.
    destruct (IH Hcodes w' (rove c i (length triggers)) t') as (H1 & H2 & H3 & H4);
      try done.
    + by rewrite Hs.
    + eapply Forall_impl; [exact Hall|]. intros n (Hc1 & Hc2 & Hc3).
      unfold rovable, classList_contains, listenersOf in *. by rewrite Hn.
    + split_and!; congruence.
Qed.

Lemma keys_rove_among_the_triggers_witness :
  activeElement (keys 0 ["ArrowDown"; "ArrowDown"; "ArrowDown"; "ArrowUp"; "Home"; "ArrowUp"]
                   focusOnThird)
  = [1; 3; 5; 7] !! roves ["ArrowDown"; "ArrowDown"; "ArrowDown"; "ArrowUp"; "Home"; "ArrowUp"]
                       2 (length [1; 3; 5; 7])
  ∧ nodes (keys 0 ["ArrowDown"; "ArrowDown"; "ArrowDown"; "ArrowUp"; "Home"; "ArrowUp"]
             focusOnThird) = nodes focusOnThird
  ∧ log (keys 0 ["ArrowDown"; "ArrowDown"; "ArrowDown"; "ArrowUp"; "Home"; "ArrowUp"]
           focusOnThird) = log focusOnThird
  ∧ heap (keys 0 ["ArrowDown"; "ArrowDown"; "ArrowDown"; "ArrowUp"; "Home"; "ArrowUp"]
            focusOnThird) !! 0 = Some focusOnThirdWidget.
Proof.
  apply (keys_rove_among_the_triggers 0 focusOnThirdWidget focusOnThird [1; 3; 5; 7] 2 5).
  - vm_compute; reflexivity.
  - reflexivity.
  - vm_compute; reflexivity.
  - refine (bool_decide_unpack _ _). vm_compute. exact I.
  - reflexivity.
  - vm_compute; reflexivity.
  - refine (bool_decide_unpack _ _). vm_compute. exact I.
  - refine (bool_decide_unpack _ _). vm_compute. exact I.
Defined.

End AccordionPanels.

(** ** More about the accordion: resizing *)

Module AccordionResize.
Import Dom Accordion DomFacts AccordionSpec AccordionFacts.

(** X17.  An instance that [init] has run on, with a media query that
    names a minimal width and with an [onReachBreakpoint] callback.
    Over any run of resizes of the window, through all the [destroy] and
    [init] calls the resizes cause, the callback is called exactly once
    each time the width changes sides of the breakpoint, with what the
    query answers at the new width, and never otherwise.  A width equal
    to the breakpoint counts as below it. *)
Theorem resizes_call_back_once_per_crossing (r : Ref) (a : Widget) (mq : MediaQueryList)
    (f : string) (n : Z) (s : Reach) (steps : list (Z * string)) (w : Page) :
  heap w !! r = Some a →
  mediaQuery (options a) = Some mq →
  onReachBreakpoint (options a) = Some f →
  Js.includes "min" (media mq) = true →
  Js.includes "max" (media mq) = false →
  breakpointOf (Some mq) = Ok n →
  hasReachBreakpoint a = Some s →
  closedDefault (options a) = false
  ∨ is_Some (select w (element a) (triggerSelector (options a)) !! 0) →
  ∃ w',
    resizes r steps w = Ok w'
    ∧ reachCalls w' = reachCalls w ++ crossings f mq n s steps.*1.
Proof.
  intros Ha Hmq Hf Hmin Hmax Hn. revert w a s Ha Hmq Hf.
  induction steps as [|[width id] steps IH]; intros w a s Ha Hmq Hf Hs Hcd.
  - exists w. split; [done|]. by rewrite app_nil_r.
  - destruct (resize_step r a mq f n s width id w) as
      (w1 & a1 & E1 & Ha1 & Hmq1 & Hf1 & Hcd1 & Hts1 & He1 & Hs1 & Hsel1 & Hlog1);
      try done.
    destruct (IH w1 a1 (side n width)) as (w' & E' & Hlog'); try done.
    { by rewrite Hcd1, Hsel1, He1, Hts1. }
    exists w'. cbn [resizes fmap list_fmap fst crossings]. rewrite E1.
    cbn [mbind result_bind]. split; [done|].
    by rewrite Hlog', Hlog1, app_assoc.
Qed.

Lemma resizes_call_back_once_per_crossing_witness :
  ∃ w',
    resizes 0 [(900, "a"); (700, "b"); (768, "c"); (769, "d"); (1000, "e")]%Z
      afterInitResponsive = Ok w'
    ∧ reachCalls w'
      = reachCalls afterInitResponsive
        ++ crossings "onReach" minWidth768 768 above
             ([(900, "a"); (700, "b"); (768, "c"); (769, "d"); (1000, "e")]%Z).*1.
Proof.
  apply (resizes_call_back_once_per_crossing 0 afterInitResponsiveWidget minWidth768
           "onReach" 768 above).
  - vm_compute; reflexivity.
  - reflexivity.
  - reflexivity.
  - reflexivity.
  - reflexivity.
  - reflexivity.
  - reflexivity.
  - left. reflexivity.
Defined.

End AccordionResize.

(** ** More about the toggle *)

Module ToggleMore.
Import Dom Toggle DomFacts ToggleSpec ToggleFacts.

Lemma length_opened a t (w w1 : Page) v v' :
  nodes w1 = nodes (setAttribute (_element a) "aria-expanded" v
                      (setAttribute t "aria-hidden" v' w)) →
  length (nodes w1) = length (nodes w).
Proof. intros ->. simpl. by rewrite !length_alter. Qed.

(** X18.  A click on the trigger of a toggle whose target is hidden
    ([aria-hidden="true"]) opens it: the target gets
    [aria-hidden="false"] and the trigger [aria-expanded="true"]; the
    next click closes it again: [aria-hidden="true"] and
    [aria-expanded="false"]. *)
Theorem clicks_alternate (this : Ref) (a : Widget) (t : Node) (w : Page) :
  heap w !! this = Some a →
  target a = Some t →
  _element a < length (nodes w) →
  getAttribute t "aria-hidden" w = Some "true" →
  ∃ w1 w2,
    handleClick this w = Ok w1
    ∧ handleClick this w1 = Ok w2
    ∧ getAttribute t "aria-hidden" w1 = Some "false"
    ∧ getAttribute (_element a) "aria-expanded" w1 = Some "true"
    ∧ getAttribute t "aria-hidden" w2 = Some "true"
    ∧ getAttribute (_element a) "aria-expanded" w2 = Some "false".
Proof.
  intros Ha Ht Hel Hh.
  assert (Hlt : t < length (nodes w)).
  { unfold getAttribute in Hh. destruct (nodes w !! t) eqn:E; [|done].
    by apply lookup_lt_Some in E. }
  destruct (open_Ok this a t w Ha Ht) as (w1 & Ho & Hn1 & Hh1 & _).
  assert (Ha1 : heap w1 !! this = Some a) by by rewrite Hh1.
  destruct (close_Ok this a t w1 Ha1 Ht) as (w2 & Hc & Hn2 & _).
  pose proof (length_opened _ _ _ _ _ _ Hn1) as Hl1.
  assert (Hh1' : getAttribute t "aria-hidden" w1 = Some "false").
  { rewrite (getAttribute_opened a t _ _ w w1 Hn1).
    rewrite decide_False by (intros (_ & ? & _); done). by rewrite decide_True. }
  exists w1, w2. split_and!.
  - unfold handleClick. rewrite Ha, Ht, Hh. cbn [Js.truthy].
    by rewrite bool_decide_eq_false_2 by (intros H; by apply H).
  - unfold handleClick. rewrite Ha1, Ht, Hh1'. cbn [Js.truthy].
    by rewrite bool_decide_eq_true_2 by done.
  - done.
  - rewrite (getAttribute_opened a t _ _ w w1 Hn1). by rewrite decide_True.
  - rewrite (getAttribute_closed a t _ _ w1 w2 Hn2).
    rewrite decide_False by (intros (_ & ? & _); done).
    rewrite decide_True; [done|]. by rewrite Hl1.
  - rewrite (getAttribute_closed a t _ _ w1 w2 Hn2).
    rewrite decide_True; [done|]. by rewrite Hl1.
Qed.

Lemma clicks_alternate_witness :
  ∃ w1 w2,
    handleClick 0 afterInit = Ok w1
    ∧ handleClick 0 w1 = Ok w2
    ∧ getAttribute 2 "aria-hidden" w1 = Some "false"
    ∧ getAttribute (_element afterInitWidget) "aria-expanded" w1 = Some "true"
    ∧ getAttribute 2 "aria-hidden" w2 = Some "true"
    ∧ getAttribute (_element afterInitWidget) "aria-expanded" w2 = Some "false".
Proof.
  apply (clicks_alternate 0 afterInitWidget 2 afterInit).
  - vm_compute; reflexivity.
  - reflexivity.
  - vm_compute. lia.
  - vm_compute; reflexivity.
Defined.

(** X19.  [open()] followed by [close()] leaves the target hidden and
    the trigger collapsed, and calls the ports in this order: [slideDown]
    when there is animation, [disableBodyScroll] when [bodyScrollLock] is
    set and [bodyScrollLockMediaQuery] is absent or matches, then
    [slideUp] when there is animation, and [enableBodyScroll] whenever
    [bodyScrollLock] is set: the scroll is given back also when the
    media query kept [open()] from locking it. *)
Theorem open_then_close_calls (this : Ref) (a : Widget) (t : Node) (w : Page) :
  heap w !! this = Some a →
  target a = Some t →
  t < length (nodes w) →
  _element a < length (nodes w) →
  ∃ w1 w2,
    open this w = Ok w1
    ∧ close this w1 = Ok w2
    ∧ closedState t (_element a) w2
    ∧ log w2
      = log w
        ++ (if hasAnimation (_settings a) then [SlideDown t] else [])
        ++ (if bodyScrollLock (_settings a)
            then match bodyScrollLockMediaQuery (_settings a) with
                 | Some mq => if matches mq (innerWidth w) then [DisableBodyScroll t] else []
                 | None => [DisableBodyScroll t]
                 end
            else [])
        ++ (if hasAnimation (_settings a) then [SlideUp t] else [])
        ++ (if bodyScrollLock (_settings a) then [EnableBodyScroll t] else []).
Proof.
  intros Ha Ht Hlt Hel.
  destruct (open_Ok this a t w Ha Ht) as (w1 & Ho & Hn1 & Hh1 & _ & _ & Hlog1).
  assert (Ha1 : heap w1 !! this = Some a) by by rewrite Hh1.
  destruct (close_Ok this a t w1 Ha1 Ht) as (w2 & Hc & Hn2 & _ & _ & _ & Hlog2).
  pose proof (length_opened _ _ _ _ _ _ Hn1) as Hl1.
  exists w1, w2. split_and!; [done..| |].
  - split.
    + rewrite (getAttribute_closed a t _ _ w1 w2 Hn2).
      rewrite decide_False by (intros (_ & ? & _); done).
      rewrite decide_True; [done|]. by rewrite Hl1.
    + rewrite (getAttribute_closed a t _ _ w1 w2 Hn2).
      rewrite decide_True; [done|]. by rewrite Hl1.
  - rewrite Hlog2, Hlog1. by rewrite <- !app_assoc.
Qed.

Lemma open_then_close_calls_witness :
  ∃ w1 w2,
    open 0 afterInitLocking = Ok w1
    ∧ close 0 w1 = Ok w2
    ∧ closedState 2 1 w2
    ∧ log w2 = log afterInitLocking ++ [SlideDown 2] ++ [] ++ [SlideUp 2]
               ++ [EnableBodyScroll 2].
Proof.
  apply (open_then_close_calls 0 afterInitLockingWidget 2 afterInitLocking).
  - vm_compute; reflexivity.
  - reflexivity.
  - vm_compute. lia.
  - vm_compute. lia.
Defined.

(** X20.  Without a media query the resize handler initialises the
    toggle once: the first call runs [init], and every later resize
    leaves the page exactly as it is, so no listener is added twice. *)
Theorem resize_without_query_initialises_once (this : Ref) (a : Widget) (id : string)
    (w : Page) :
  heap w !! this = Some a →
  mediaQuery (_settings a) = None →
  ∃ w1,
    onResize this id w = Ok w1
    ∧ initialized <$> heap w1 !! this = Some true
    ∧ ∀ id', onResize this id' w1 = Ok w1.
Proof.
  intros Ha Hmq.
  assert (Hagain : ∀ (w1 : Page) a1 id',
            heap w1 !! this = Some a1 → initialized a1 = true →
            mediaQuery (_settings a1) = None → onResize this id' w1 = Ok w1).
  { intros w1 a1 id' Ha1 Hi1 Hmq1. unfold onResize. rewrite Ha1, Hmq1, Hi1.
    rewrite andb_false_r. cbn [mbind result_bind]. by rewrite Ha1. }
  destruct (initialized a) eqn:Hi.
  - exists w. split_and!; [by apply (Hagain w a)|by rewrite Ha; simpl; rewrite Hi|].
    intros id'. by apply (Hagain w a).
  - destruct (toggle_init_total this id w a Ha) as [w1 Hinit].
    pose proof (init_heap _ _ _ _ _ Hinit) as Hh.
    assert (Ha1 : heap w1 !! this = Some (with_initialized true a))
      by by rewrite Hh, lookup_alter_eq, Ha.
    exists w1. split_and!.
    + unfold onResize. rewrite Ha, Hmq, Hi.
      rewrite bool_decide_eq_true_2 by done. cbn [andb negb]. rewrite Hinit.
      cbn [mbind result_bind]. by rewrite Ha1.
    + by rewrite Ha1.
    + intros id'. by apply (Hagain w1 (with_initialized true a)).
Qed.

Lemma resize_without_query_initialises_once_witness :
  ∃ w1,
    onResize 0 "k3x" beforeInit = Ok w1
    ∧ initialized <$> heap w1 !! 0 = Some true
    ∧ ∀ id', onResize 0 id' w1 = Ok w1.
Proof.
  apply (resize_without_query_initialises_once 0 beforeInitWidget "k3x" beforeInit).
  - vm_compute; reflexivity.
  - reflexivity.
Defined.

Lemma getAttribute_emit x n name (w : Page) :
  getAttribute n name (emit x w) = getAttribute n name w.
Proof. done. Qed.

Lemma destroy_total this a t (w : Page) :
  heap w !! this = Some a → target a = Some t → ∃ w', destroy this w = Ok w'.
Proof.
  intros Ha Ht. unfold destroy, reset. rewrite Ha.
  unfold update at 1. cbn [heap with_heap]. rewrite lookup_alter_eq, Ha.
  cbn [fmap option_fmap option_map target with_initialized]. rewrite Ht.
  cbn [mbind result_bind]. destruct (onClick (_settings a)); eauto.
Qed.

(** X21.  [destroy] never takes the Escape listener of
    [_closeOnEscPress] off the window, and every [init] of a toggle with
    [closeOnEscPress] and a target puts a new one there: after [init] and
    [destroy] have alternated [k] times (as they do when a media query
    starts and stops matching), the window carries [k] more [keydown]
    listeners than before, one arrow function for each [init]. *)
Theorem cycles_leave_escape_listeners (this : Ref) (a : Widget) (t : Node)
    (ids : list string) (w : Page) :
  heap w !! this = Some a →
  target a = Some t →
  closeOnEscPress (_settings a) = true →
  ∃ w',
    cycles this ids w = Ok w'
    ∧ windowListeners w'
      = windowListeners w
        ++ ((λ k, ("keydown", Closure "_closeOnEscPress" (length (windowListeners w) + k)))
              <$> seq 0 (length ids)).
Proof.
  revert w a. induction ids as [|id ids IH]; intros w a Ha Ht Hesc.
  - exists w. split; [done|]. by rewrite app_nil_r.
  - destruct (toggle_init_total this id w a Ha) as [w1 Hinit].
    pose proof (init_heap _ _ _ _ _ Hinit) as Hh1.
    pose proof (init_windowListeners _ _ _ _ _ _ Ha Hinit) as Hw1.
    rewrite Hesc, bool_decide_eq_true_2 in Hw1 by eauto. cbn [andb] in Hw1.
    assert (Ha1 : heap w1 !! this = Some (with_initialized true a))
      by by rewrite Hh1, lookup_alter_eq, Ha.
    destruct (destroy_total this _ t w1 Ha1) as [w2 Hd]; [done|].
    pose proof (destroy_heap _ _ _ Hd) as Hh2.
    pose proof (destroy_windowListeners _ _ _ Hd) as Hw2.
    assert (Ha2 : heap w2 !! this
                  = Some (with_initialized false (with_initialized true a)))
      by by rewrite Hh2, lookup_alter_eq, Ha1.
    destruct (IH w2 _ Ha2) as (w' & Hc & Hw'); [done..|].
    exists w'. cbn [cycles]. rewrite Hinit. cbn [mbind result_bind]. rewrite Hd.
    cbn [mbind result_bind]. split; [done|].
    rewrite Hw', Hw2, Hw1. unfold add_new_listener.
    rewrite <- app_assoc. f_equal. cbn [length seq fmap list_fmap app].
    rewrite Nat.add_0_r. f_equal. rewrite length_app. cbn [length].
    rewrite <- fmap_S_seq, <- list_fmap_compose. apply list_fmap_ext.
    intros i k _. simpl. do 2 f_equal. lia.
Qed.

Lemma cycles_leave_escape_listeners_witness :
  ∃ w',
    cycles 0 ["a"; "b"; "c"] beforeInit = Ok w'
    ∧ windowListeners w'
      = windowListeners beforeInit
        ++ ((λ k, ("keydown",
                   Closure "_closeOnEscPress" (length (windowListeners beforeInit) + k)))
              <$> seq 0 (length ["a"; "b"; "c"])).
Proof.
  apply (cycles_leave_escape_listeners 0 beforeInitWidget 2 ["a"; "b"; "c"] beforeInit).
  - vm_compute; reflexivity.
  - reflexivity.
  - reflexivity.
Defined.

(** X22.  [destroy] on a toggle that has a target returns with
    [aria-hidden] and [aria-expanded] removed from the target and
    [aria-expanded] from the trigger, and with no other attribute of any
    element changed: the [aria-controls] of the trigger and the id of
    the target, which [init] may have generated, stay.  The instance is
    not initialised any more; the listeners of the window and the
    pending timers are as they were; with animation [slideDown] is
    called on the target. *)
Theorem destroy_clears_the_aria_state (this : Ref) (a : Widget) (t : Node) (w : Page) :
  heap w !! this = Some a →
  target a = Some t →
  ∃ w',
    destroy this w = Ok w'
    ∧ getAttribute t "aria-hidden" w' = None
    ∧ getAttribute t "aria-expanded" w' = None
    ∧ getAttribute (_element a) "aria-expanded" w' = None
    ∧ (∀ n name, ¬ (n = t ∧ name ∈ ["aria-hidden"; "aria-expanded"]) →
                 ¬ (n = _element a ∧ name = "aria-expanded") →
                 getAttribute n name w' = getAttribute n name w)
    ∧ initialized <$> heap w' !! this = Some false
    ∧ windowListeners w' = windowListeners w
    ∧ timers w' = timers w
    ∧ log w' = log w ++ (if hasAnimation (_settings a) then [SlideDown t] else []).
Proof.
  intros Ha Ht. destruct (destroy_total this a t w Ha Ht) as [w' Hd].
  exists w'. split; [done|].
  pose proof (destroy_heap _ _ _ Hd) as Hh.
  pose proof (destroy_windowListeners _ _ _ Hd) as Hw.
  pose proof (destroy_keeps _ _ _ Hd) as Hk.
  assert (Hattr : ∀ n name, getAttribute n name w'
            = if decide (_element a = n ∧ "aria-expanded" = name) then None
              else if decide (t = n ∧ "aria-expanded" = name) then None
              else if decide (t = n ∧ "aria-hidden" = name) then None
              else getAttribute n name w).
  { intros n name. revert Hd. unfold destroy, reset. rewrite Ha.
    unfold update at 1. cbn [heap with_heap]. rewrite lookup_alter_eq, Ha.
    cbn [fmap option_fmap option_map target with_initialized]. rewrite Ht.
    cbn [mbind result_bind _element _settings with_initialized].
    destruct (onClick (_settings a)), (hasAnimation (_settings a)); intros [= <-];
      rewrite ?getAttribute_removeEventListener, ?getAttribute_emit,
        !getAttribute_removeAttribute; done. }
  assert (Hlog : log w' = log w ++ (if hasAnimation (_settings a) then [SlideDown t]
                                    else [])).
  { revert Hd. unfold destroy, reset. rewrite Ha.
    unfold update at 1. cbn [heap with_heap]. rewrite lookup_alter_eq, Ha.
    cbn [fmap option_fmap option_map target with_initialized]. rewrite Ht.
    cbn [mbind result_bind _element _settings with_initialized].
    destruct (onClick (_settings a)), (hasAnimation (_settings a)); intros [= <-];
      simpl; by rewrite ?app_nil_r. }
  split_and!.
  - rewrite Hattr. repeat case_decide; try done; exfalso; naive_solver.
  - rewrite Hattr. repeat case_decide; try done; exfalso; naive_solver.
  - rewrite Hattr. repeat case_decide; try done; exfalso; naive_solver.
  - intros n name H1 H2. rewrite Hattr.
    repeat case_decide; try done; exfalso; set_solver.
  - by rewrite Hh, lookup_alter_eq, Ha.
  - done.
  - apply (k_timers _ _ Hk).
  - done.
Qed.

Lemma destroy_clears_the_aria_state_witness :
  ∃ w',
    destroy 0 afterInit = Ok w'
    ∧ getAttribute 2 "aria-hidden" w' = None
    ∧ getAttribute 2 "aria-expanded" w' = None
    ∧ getAttribute (_element afterInitWidget) "aria-expanded" w' = None
    ∧ (∀ n name, ¬ (n = 2 ∧ name ∈ ["aria-hidden"; "aria-expanded"]) →
                 ¬ (n = _element afterInitWidget ∧ name = "aria-expanded") →
                 getAttribute n name w' = getAttribute n name afterInit)
    ∧ initialized <$> heap w' !! 0 = Some false
    ∧ windowListeners w' = windowListeners afterInit
    ∧ timers w' = timers afterInit
    ∧ log w' = log afterInit
               ++ (if hasAnimation (_settings afterInitWidget) then [SlideDown 2] else []).
Proof.
  apply (destroy_clears_the_aria_state 0 afterInitWidget 2 afterInit).
  - vm_compute; reflexivity.
  - reflexivity.
Defined.

Lemma getAttribute_window f n name (w : Page) :
  getAttribute n name (with_windowListeners f w) = getAttribute n name w.
Proof. done. Qed.

Lemma getAttribute_update this f n name (w : Page) :
  getAttribute n name (update this f w) = getAttribute n name w.
Proof. done. Qed.

Lemma getAttribute_new_listener type site m n name (w : Page) :
  getAttribute n name
    (with_nodes (alter (with_listeners (add_new_listener type site)) m) w)
  = getAttribute n name w.
Proof. by apply getAttribute_alter_keep. Qed.

Ltac attributes :=
  repeat first
    [ rewrite getAttribute_addEventListener
    | rewrite getAttribute_new_listener
    | rewrite getAttribute_window
    | rewrite getAttribute_update
    | rewrite getAttribute_emit ].

(** The attributes [init] leaves on a toggle that has a target. *)
Lemma init_attributes this a t id (w : Page) :
  heap w !! this = Some a →
  target a = Some t →
  t < length (nodes w) →
  _element a < length (nodes w) →
  let el := _element a in
  let gid := prefixId (_settings a) +:+ "-" +:+ id in
  let generated n name :=
    if decide (t = n ∧ "id" = name) then Some gid
    else if decide (el = n ∧ "aria-controls" = name) then Some gid
    else getAttribute n name w in
  let wired n name :=
    if Js.truthy (getAttribute el "aria-controls" w) then getAttribute n name w
    else generated n name in
  let hidden n name :=
    if decide (t = n ∧ "aria-hidden" = name)
    then match getAttribute t "aria-hidden" w with
         | Some v => Some v
         | None => Some (if isOpened (_settings a) then "false" else "true")
         end
    else wired n name in
  ∃ w',
    init this id w = Ok (true, w')
    ∧ ∀ n name,
        getAttribute n name w'
        = if isOpened (_settings a) then
            if decide (el = n ∧ "aria-expanded" = name) then Some "true"
            else if decide (t = n ∧ "aria-hidden" = name) then Some "false"
            else hidden n name
          else hidden n name.
Proof.
  intros Ha Ht Hlt Hel el gid generated wired hidden.
  unfold init. rewrite Ha, Ht. cbv zeta. fold el gid.
  set (w0 := update this (with_initialized true) w).
  set (w1 := addEventListener el "click" (BoundMethod this "handleClick") w0).
  set (w2 := match onClick (_settings a) with Some _ => _ | None => w1 end).
  set (w3 := if negb (Js.truthy (getAttribute el "aria-controls" w2)) then _ else w2).
  set (w4 := if closeOnBlur (_settings a) then _ else w3).
  set (w5 := if closeOnEscPress (_settings a) then _ else w4).
  set (w6 := if negb (hasAttribute t "aria-hidden" w5) then _ else w5).
  assert (H2 : (∀ n name, getAttribute n name w2 = getAttribute n name w)
               ∧ length (nodes w2) = length (nodes w)
               ∧ heap w2 !! this = Some (with_initialized true a)).
  { unfold w2, w1, w0. destruct (onClick (_settings a)); split_and!.
    all: try (intros n name; by attributes).
    all: try (simpl; by rewrite ?length_alter).
    all: unfold update; simpl; by rewrite lookup_alter_eq, Ha. }
  destruct H2 as (A2 & L2 & H2). clearbody w2. clear w1 w0.
  assert (H3 : (∀ n name, getAttribute n name w3 = wired n name)
               ∧ length (nodes w3) = length (nodes w)
               ∧ heap w3 !! this = Some (with_initialized true a)).
  { unfold w3, wired, generated. rewrite A2.
    destruct (Js.truthy (getAttribute el "aria-controls" w)); cbn [negb].
    - by split_and!.
    - split_and!; [|simpl; by rewrite !length_alter|done].
      intros n name. rewrite !getAttribute_setAttribute. simpl.
      rewrite !length_alter, L2, A2.
      repeat case_decide; try done; exfalso; tauto. }
  destruct H3 as (A3 & L3 & H3). clearbody w3. clear A2 L2 H2 w2.
  assert (H5 : (∀ n name, getAttribute n name w5 = wired n name)
               ∧ length (nodes w5) = length (nodes w)
               ∧ heap w5 !! this = Some (with_initialized true a)).
  { unfold w5, w4, _closeOnEscPress.
    destruct (closeOnEscPress (_settings a)), (closeOnBlur (_settings a)); split_and!.
    all: try (intros n name; attributes; apply A3).
    all: try (simpl; by rewrite ?length_alter).
    all: done. }
  destruct H5 as (A5 & L5 & H5). clearbody w5. clear A3 L3 H3 w4 w3.
  assert (H6 : (∀ n name, getAttribute n name w6 = hidden n name)
               ∧ length (nodes w6) = length (nodes w)
               ∧ heap w6 !! this = Some (with_initialized true a)).
  { unfold w6, hidden, hasAttribute. rewrite A5.
    assert (Hw : wired t "aria-hidden" = getAttribute t "aria-hidden" w).
    { unfold wired, generated. destruct (Js.truthy _); [done|].
      rewrite !decide_False; [done|intros [_ ?]; done..]. }
    rewrite Hw. destruct (getAttribute t "aria-hidden" w) as [v|] eqn:Hv.
    - rewrite bool_decide_eq_true_2 by eauto. cbn [negb]. split_and!; [|done..].
      intros n name. rewrite A5. case_decide as Hd; [|done].
      destruct Hd as [<- <-]. by rewrite Hw.
    - rewrite bool_decide_eq_false_2 by (intros [? ?]; done). cbn [negb].
      split_and!; [|simpl; by rewrite length_alter|done].
      intros n name. rewrite getAttribute_setAttribute, L5, A5.
      repeat case_decide; try done; exfalso; tauto. }
  destruct H6 as (Hattr6 & Hl6 & Hh6). clearbody w6. clear A5 L5 H5 w5.
  destruct (isOpened (_settings a)) eqn:Hop.
  - destruct (open_Ok this _ t w6 Hh6) as (w7 & -> & Hn7 & _); [done|].
    cbn [mbind result_bind]. exists w7. split; [done|].
    intros n name. rewrite (getAttribute_opened _ t _ _ w6 w7 Hn7).
    cbn [_element with_initialized]. fold el. rewrite Hl6, Hattr6.
    repeat case_decide; try done; exfalso; tauto.
  - cbn [mbind result_bind]. exists w6. split; [done|]. apply Hattr6.
Qed.

(** X23.  [init] on a toggle that has a target returns [true] with the
    toggle initialised and the ARIA wiring in place.  A trigger that has
    an [aria-controls] keeps it, and the target keeps its id; otherwise
    trigger and target both get the generated [prefixId-randomId], which
    replaces whatever id the target had.  The target keeps the
    [aria-hidden] it has and gets ["true"] when it has none, unless the
    toggle starts opened: then the target gets [aria-hidden="false"] and
    the trigger [aria-expanded="true"].  A toggle that starts closed gets
    no [aria-expanded] from [init]. *)
Theorem init_wires_trigger_and_target (this : Ref) (a : Widget) (t : Node) (id : string)
    (w : Page) :
  heap w !! this = Some a →
  target a = Some t →
  t < length (nodes w) →
  _element a < length (nodes w) →
  let el := _element a in
  let gid := prefixId (_settings a) +:+ "-" +:+ id in
  ∃ w',
    init this id w = Ok (true, w')
    ∧ initialized <$> heap w' !! this = Some true
    ∧ (if Js.truthy (getAttribute el "aria-controls" w)
       then getAttribute el "aria-controls" w' = getAttribute el "aria-controls" w
            ∧ getAttribute t "id" w' = getAttribute t "id" w
       else getAttribute el "aria-controls" w' = Some gid
            ∧ getAttribute t "id" w' = Some gid)
    ∧ getAttribute t "aria-hidden" w'
      = (if isOpened (_settings a) then Some "false"
         else match getAttribute t "aria-hidden" w with
              | Some v => Some v
              | None => Some "true"
              end)
    ∧ getAttribute el "aria-expanded" w'
      = (if isOpened (_settings a) then Some "true"
         else getAttribute el "aria-expanded" w).
Proof.
  intros Ha Ht Hlt Hel el gid.
  destruct (init_attributes this a t id w Ha Ht Hlt Hel) as (w' & Hinit & Hattr).
  cbv zeta in Hattr. fold el gid in Hattr.
  exists w'. split; [done|]. split_and!.
  - rewrite (init_heap _ _ _ _ _ Hinit), lookup_alter_eq, Ha. done.
  - destruct (Js.truthy (getAttribute el "aria-controls" w)) eqn:Hc; split;
      rewrite Hattr; destruct (isOpened (_settings a));
      repeat case_decide; try done; exfalso; naive_solver.
  - rewrite Hattr. destruct (isOpened (_settings a)).
    + rewrite decide_False by (intros [_ ?]; done). by rewrite decide_True.
    + rewrite decide_True by done.
      destruct (getAttribute t "aria-hidden" w); done.
  - rewrite Hattr. destruct (isOpened (_settings a)).
    + by rewrite decide_True.
    + rewrite decide_False by (intros [_ ?]; done).
      destruct (Js.truthy _); [done|].
      rewrite !decide_False; [done|intros [_ ?]; done..].
Qed.

Lemma init_wires_trigger_and_target_witness :
  ∃ w',
    init 0 "k3x" beforeInit = Ok (true, w')
    ∧ initialized <$> heap w' !! 0 = Some true
    ∧ (if Js.truthy (getAttribute 1 "aria-controls" beforeInit)
       then getAttribute 1 "aria-controls" w' = getAttribute 1 "aria-controls" beforeInit
            ∧ getAttribute 2 "id" w' = getAttribute 2 "id" beforeInit
       else getAttribute 1 "aria-controls" w' = Some ("toggle" +:+ "-" +:+ "k3x")
            ∧ getAttribute 2 "id" w' = Some ("toggle" +:+ "-" +:+ "k3x"))
    ∧ getAttribute 2 "aria-hidden" w'
      = (if isOpened (_settings beforeInitWidget) then Some "false"
         else match getAttribute 2 "aria-hidden" beforeInit with
              | Some v => Some v
              | None => Some "true"
              end)
    ∧ getAttribute 1 "aria-expanded" w'
      = (if isOpened (_settings beforeInitWidget) then Some "true"
         else getAttribute 1 "aria-expanded" beforeInit).
Proof.
  apply (init_wires_trigger_and_target 0 beforeInitWidget 2 "k3x" beforeInit).
  - vm_compute; reflexivity.
  - reflexivity.
  - vm_compute. lia.
  - vm_compute. lia.
Defined.

(** X24.  [init] on a toggle that has no target returns [false] and
    writes no attribute, but it does mark the toggle initialised, and it
    puts the [onClick] callback of the options, if there is one, on the
    trigger as a [click] listener.  On such a toggle [destroy] throws a
    [TypeError]: [reset] dereferences the missing target. *)
Theorem init_without_target (this : Ref) (a : Widget) (id : string) (w : Page) :
  heap w !! this = Some a →
  target a = None →
  _element a < length (nodes w) →
  ∃ w',
    init this id w = Ok (false, w')
    ∧ initialized <$> heap w' !! this = Some true
    ∧ (∀ n name, getAttribute n name w' = getAttribute n name w)
    ∧ windowListeners w' = windowListeners w
    ∧ (∀ n, elementListeners n w'
            = match onClick (_settings a) with
              | Some f =>
                  if decide (n = _element a)
                  then add_listener "click" (UserFunction f) (elementListeners n w)
                  else elementListeners n w
              | None => elementListeners n w
              end)
    ∧ destroy this w' = TypeError "this.target is null".
Proof.
  intros Ha Ht Hel. unfold init. rewrite Ha, Ht.
  assert (Hd : ∀ w' : Page, heap w' !! this = Some (with_initialized true a) →
                 destroy this w' = TypeError "this.target is null").
  { intros w' Ha'. unfold destroy, reset. rewrite Ha'.
    unfold update at 1. cbn [heap with_heap]. rewrite lookup_alter_eq, Ha'.
    cbn [fmap option_fmap option_map target with_initialized]. by rewrite Ht. }
  assert (Ha0 : heap (update this (with_initialized true) w) !! this
                = Some (with_initialized true a)).
  { unfold update. simpl. by rewrite lookup_alter_eq, Ha. }
  destruct (onClick (_settings a)) as [f|]; eexists; (split; [done|]); split_and!.
  - unfold addEventListener, with_nodes. cbn [heap]. by rewrite Ha0.
  - intros n name. by attributes.
  - done.
  - intros n. unfold elementListeners, addEventListener. simpl.
    destruct (decide (n = _element a)) as [->|Hne].
    + rewrite list_lookup_alter_eq.
      by destruct (lookup_lt_is_Some_2 _ _ Hel) as [e ->].
    + by rewrite list_lookup_alter_ne.
  - apply Hd. unfold addEventListener, with_nodes. cbn [heap]. exact Ha0.
  - by rewrite Ha0.
  - done.
  - done.
  - done.
  - by apply Hd.
Qed.

Lemma init_without_target_witness :
  ∃ w',
    init 0 "k3x" withoutTarget = Ok (false, w')
    ∧ initialized <$> heap w' !! 0 = Some true
    ∧ (∀ n name, getAttribute n name w' = getAttribute n name withoutTarget)
    ∧ windowListeners w' = windowListeners withoutTarget
    ∧ (∀ n, elementListeners n w'
            = match onClick (_settings withoutTargetWidget) with
              | Some f =>
                  if decide (n = _element withoutTargetWidget)
                  then add_listener "click" (UserFunction f)
                         (elementListeners n withoutTarget)
                  else elementListeners n withoutTarget
              | None => elementListeners n withoutTarget
              end)
    ∧ destroy 0 w' = TypeError "this.target is null".
Proof.
  apply (init_without_target 0 withoutTargetWidget "k3x" withoutTarget).
  - vm_compute; reflexivity.
  - reflexivity.
  - vm_compute. lia.
Defined.

(** The resize handler of a toggle that has no target, with a media
    query that does not match: it throws, initialised or not. *)
Lemma onResize_without_target this a mq id (w : Page) :
  heap w !! this = Some a →
  target a = None →
  mediaQuery (_settings a) = Some mq →
  matches mq (innerWidth w) = false →
  onResize this id w = TypeError "this.target is null".
Proof.
  intros Ha Ht Hmq Hm. unfold onResize. rewrite Ha, Hmq.
  rewrite bool_decide_eq_false_2 by done. cbn [andb mbind result_bind].
  rewrite Ha, Hm. cbn [negb]. rewrite !andb_true_r, andb_false_r.
  destruct (initialized a) eqn:Hi; cbn [negb].
  - unfold destroy, reset. rewrite Ha.
    unfold update at 1. cbn [heap with_heap]. rewrite lookup_alter_eq, Ha.
    cbn [fmap option_fmap option_map target with_initialized]. by rewrite Ht.
  - by rewrite Ht.
Qed.

(** X25.  [new Toggle(el, { mediaQuery })] on an element that has no
    instance and whose target cannot be found (no [target] option, and
    the [aria-controls] of the element, or the string ["null"] when it
    has none, is the id of no element).  If the query does not match at
    construction, the constructor throws a [TypeError]: the resize
    handler it calls reads [this.target.style].  If the query matches,
    the constructor returns, and every later resize to a width where the
    query does not match throws: [destroy] dereferences the missing
    target. *)
Theorem construct_without_target_throws (el : Node) (o : PartialSettings)
    (mq : MediaQueryList) (id : string) (w : Page) :
  registry w !! el = None →
  let s := mergeSettings defaults o in
  mediaQuery s = Some mq →
  target_selector s = None →
  getElementById (default "null" (getAttribute el "aria-controls" w)) w = None →
  (matches mq (innerWidth w) = false →
   construct el o id w = TypeError "this.target is null")
  ∧ (matches mq (innerWidth w) = true →
     ∃ r w1,
       construct el o id w = Ok (r, w1)
       ∧ ∀ width id',
           matches mq width = false →
           onResize r id' (with_innerWidth width w1) = TypeError "this.target is null").
Proof.
  intros Hreg s Hmq Hsel Hget.
  unfold construct, AbstractDomElement.construct, AbstractDomElement.getInstance.
  rewrite Hreg. cbn [negb]. fold s. rewrite Hsel.
  match goal with
  | |- context [getElementById ?k ?u] =>
      change (getElementById k u)
        with (getElementById (default "null" (getAttribute el "aria-controls" w)) w)
  end.
  rewrite Hget. cbn [mbind result_bind].
  set (r := fresh (dom (heap w))).
  set (a := with_target None (mkWidget el s None false)).
  match goal with
  | |- context [onResize r id ?u] => set (w0 := u)
  end.
  assert (Ha0 : heap w0 !! r = Some a).
  { unfold w0, update. simpl. by rewrite lookup_alter_eq, lookup_insert_eq. }
  split.
  - intros Hm. by rewrite (onResize_without_target r a mq id w0).
  - intros Hm.
    destruct (toggle_init_total r id w0 a Ha0) as [w1 Hinit].
    pose proof (init_heap _ _ _ _ _ Hinit) as Hh1.
    assert (Ha1 : heap w1 !! r = Some (with_initialized true a))
      by by rewrite Hh1, lookup_alter_eq, Ha0.
    exists r, w1. split.
    + unfold onResize. rewrite Ha0. change (mediaQuery (_settings a)) with (mediaQuery s).
      rewrite Hmq. rewrite bool_decide_eq_false_2 by done.
      cbn [andb mbind result_bind]. rewrite Ha0.
      change (initialized a) with false. change (innerWidth w0) with (innerWidth w).
      rewrite Hm. cbn [andb negb]. rewrite Hinit. done.
    + intros width id' Hm'.
      by apply (onResize_without_target r (with_initialized true a) mq).
Qed.

Lemma construct_without_target_throws_witness :
  construct 1 onlyWide "k3x" (with_innerWidth 640 Example.page)
  = TypeError "this.target is null"
  ∧ ∃ r w1,
      construct 1 onlyWide "k3x" Example.page = Ok (r, w1)
      ∧ ∀ width id',
          matches minWidth768 width = false →
          onResize r id' (with_innerWidth width w1) = TypeError "this.target is null".
Proof.
  split.
  - apply (construct_without_target_throws 1 onlyWide minWidth768 "k3x"
             (with_innerWidth 640 Example.page)); reflexivity.
  - apply (construct_without_target_throws 1 onlyWide minWidth768 "k3x" Example.page);
      reflexivity.
Defined.

(** [el.click()] runs the [click] listeners and no other. *)
Lemma click_runs_click_listeners ls (w : Page) :
  foldl run_click_listener w ls
  = foldl run_click_listener w (filter (λ x, x.1 = "click") ls).
Proof.
  revert w. induction ls as [|[type l] ls IH]; intros w; [done|].
  destruct (decide (type = "click")) as [->|Hne].
  - rewrite filter_cons_True by done. simpl. apply IH.
  - rewrite filter_cons_False by done. simpl. rewrite <- IH.
    apply String.eqb_neq in Hne. rewrite Hne. by destruct l.
Qed.

(** X26.  The [keydown] listener that [_closeOnEscPress] puts on the
    window, for a toggle whose trigger names its target in
    [aria-controls] and has [handleClick] as its only [click] listener.
    It never throws.  It changes nothing when the event is already
    handled ([defaultPrevented]), when the key is not Escape, and when
    the target is hidden ([aria-hidden="true"]).  On Escape with the
    target shown it clicks the trigger, which closes the toggle as
    [close()] does: the target gets [aria-hidden="true"] and the trigger
    [aria-expanded="false"].  On Escape with a target that has no
    [aria-hidden] (or an empty one) the click sets [aria-hidden] from
    [isOpened] and closes nothing. *)
Theorem escape_closes_an_open_toggle (this : Ref) (a : Widget) (t : Node) (e : KeyEvent)
    (w : Page) :
  heap w !! this = Some a →
  target a = Some t →
  getElementById (default "null" (getAttribute (_element a) "aria-controls" w)) w = Some t →
  filter (λ x, x.1 = "click") (elementListeners (_element a) w)
  = [("click", BoundMethod this "handleClick")] →
  ∃ w',
    escListener (_element a) e w = Ok w'
    ∧ (defaultPrevented e = true ∨ isEscape e = false
       ∨ getAttribute t "aria-hidden" w = Some "true" → w' = w)
    ∧ (defaultPrevented e = false → isEscape e = true →
       Js.truthy (getAttribute t "aria-hidden" w) = true →
       getAttribute t "aria-hidden" w ≠ Some "true" →
       close this w = Ok w' ∧ closedState t (_element a) w')
    ∧ (defaultPrevented e = false → isEscape e = true →
       Js.truthy (getAttribute t "aria-hidden" w) = false →
       w' = setAttribute t "aria-hidden"
              (if isOpened (_settings a) then "true" else "false") w).
Proof.
  intros Ha Ht Hget Hls.
  assert (Hclick : click (_element a) w = orElse w (handleClick this w)).
  { unfold click. rewrite click_runs_click_listeners, Hls. done. }
  assert (Hel : _element a < length (nodes w)).
  { unfold elementListeners in Hls.
    destruct (nodes w !! _element a) eqn:E; [|done].
    by apply lookup_lt_Some in E. }
  assert (Hlt : t < length (nodes w)) by by eapply getElementById_lt.
  destruct (close_Ok this a t w Ha Ht) as (wc & Hclose & Hnodes & _).
  unfold escListener. rewrite Hget, Hclick.
  destruct (defaultPrevented e) eqn:Hp.
  { exists w. split_and!; [done|done|done..]. }
  destruct (isEscape e) eqn:He.
  2:{ exists w. split_and!; [done|done|done..]. }
  destruct (decide (getAttribute t "aria-hidden" w = Some "true")) as [Hh|Hh].
  { rewrite bool_decide_eq_false_2 by (intros ?; done).
    exists w. split_and!; [done|done| |].
    - intros _ _ _ ?. done.
    - intros _ _ Hf. by rewrite Hh in Hf. }
  rewrite bool_decide_eq_true_2 by done.
  unfold handleClick. rewrite Ha, Ht.
  destruct (Js.truthy (getAttribute t "aria-hidden" w)) eqn:Htr.
  - rewrite bool_decide_eq_true_2 by done. rewrite Hclose. simpl.
    exists wc. split_and!; [done| |..].
    + intros [?|[?|?]]; done.
    + intros _ _ _ _. split; [done|]. unfold closedState.
      rewrite !(getAttribute_closed a t _ _ w wc Hnodes). split.
      * rewrite decide_False by (intros (_ & ? & _); done). by rewrite decide_True.
      * by rewrite decide_True.
    + done.
  - simpl. eexists. split_and!; [done| |done|done].
    intros [?|[?|?]]; done.
Qed.

Lemma escape_closes_an_open_toggle_witness :
  let e := mkKeyEvent (Some "Escape") 27 false in
  let w := run 0 [Open] afterInit in
  ∃ w',
    escListener (_element afterInitWidget) e w = Ok w'
    ∧ (defaultPrevented e = true ∨ isEscape e = false
       ∨ getAttribute 2 "aria-hidden" w = Some "true" → w' = w)
    ∧ (defaultPrevented e = false → isEscape e = true →
       Js.truthy (getAttribute 2 "aria-hidden" w) = true →
       getAttribute 2 "aria-hidden" w ≠ Some "true" →
       close 0 w = Ok w' ∧ closedState 2 (_element afterInitWidget) w')
    ∧ (defaultPrevented e = false → isEscape e = true →
       Js.truthy (getAttribute 2 "aria-hidden" w) = false →
       w' = setAttribute 2 "aria-hidden"
              (if isOpened (_settings afterInitWidget) then "true" else "false") w).
Proof.
  apply (escape_closes_an_open_toggle 0 afterInitWidget 2
           (mkKeyEvent (Some "Escape") 27 false) (run 0 [Open] afterInit)).
  - vm_compute; reflexivity.
  - reflexivity.
  - vm_compute; reflexivity.
  - vm_compute; reflexivity.
Defined.

End ToggleMore.
